(** * webpp: the lazily parsed URI value of [core/include/webpp/utils/uri.h]

    A shallow embedding of [webpp::basic_uri<std::string>] and of the two free
    functions [decode_uri_component] and [encode_uri_component], followed by
    the properties of the offset parsing engine, the percent codec, the
    accessors and the mutators.

    Conventions of the embedding:
    - [std::size_t] is a 64-bit unsigned integer, modelled as [Z] with the
      wrap-around written out ([SizeT.add], [SizeT.sub]); [npos] is [2^64-1].
    - A [std::string] / [std::string_view] is a [string]; a [char] is an
      [ascii].  Plain [char] is a signed 8-bit type, as on the x86-64 targets
      of the project; [char_val] gives its integer value.
    - A C++ exception is an explicit [Throw]; an exception that leaves a
      function declared [noexcept] calls [std::terminate], modelled by
      [Terminate].
    - The accessors are [const] but fill the [mutable] offset cache, so every
      member function is a state transformer over the record [basic_uri]. *)

From Stdlib Require Import ZArith Lia Ascii String List Bool.
From stdpp Require Import base gmap strings.

Local Open Scope Z_scope.

(** ** Machine integers *)

Module SizeT.

Definition modulus : Z := 2 ^ 64.

(** [std::string_view::npos], i.e. [size_t(-1)]. *)
Definition npos : Z := modulus - 1.

Definition wrap (z : Z) : Z := z mod modulus.

Definition add (a b : Z) : Z := wrap (a + b).

Definition sub (a b : Z) : Z := wrap (a - b).

(** [std::string::max_size()] of the 64-bit standard libraries. *)
Definition max_size : Z := 2 ^ 62.

End SizeT.

Abbreviation npos := SizeT.npos.

(** ** Characters *)

Definition code (c : ascii) : Z := Z.of_N (N_of_ascii c).

(** The value of a plain (signed) [char]. *)
Definition char_val (c : ascii) : Z :=
  if code c <? 128 then code c else code c - 256.

(** [static_cast<char>(z)]: keep the low eight bits. *)
Definition to_char (z : Z) : ascii := ascii_of_N (Z.to_N (z mod 256)).

(** [static_cast<unsigned int>(c)] for a plain [char]: sign extension. *)
Definition char_to_unsigned_int (c : ascii) : Z := (char_val c) mod 2 ^ 32.

(** ** Character sets ([charset.h])

    [charset_t<N>] is an array of [N] characters with a membership test; the
    variadic [charset(...)] concatenates its arguments.  *)

Definition charset_t : Type := list ascii.

Definition contains (cs : charset_t) (c : ascii) : bool :=
  existsb (Ascii.eqb c) cs.

Definition charset (parts : list charset_t) : charset_t := List.concat parts.

Definition chars (s : string) : charset_t := list_ascii_of_string s.

(** Modelled from the spec: the constant [ALPHA] of [charset.h] (not under
    [src/]), the letters of RFC 3986. *)
Definition ALPHA : charset_t :=
  chars "abcdefghijklmnopqrstuvwxyzABCDEFGHIJKLMNOPQRSTUVWXYZ".

(** Modelled from the spec: the constant [DIGIT] of [charset.h] (not under
    [src/]), the decimal digits. *)
Definition DIGIT : charset_t := chars "0123456789".

Definition ALLOWED_CHARACTERS_IN_URI : charset_t :=
  charset [ALPHA; DIGIT; chars ";,/?:@&=+$-_.!~*'()#"].

Definition SCHEME_NOT_FIRST : charset_t := charset [ALPHA; DIGIT; chars "+-."].

Definition UNRESERVED : charset_t := charset [ALPHA; DIGIT; chars "-._~"].

Definition SUB_DELIMS : charset_t := chars "!$&'()*+,;=".

Definition USER_INFO_NOT_PCT_ENCODED : charset_t :=
  charset [UNRESERVED; SUB_DELIMS; chars ":"].

Definition REG_NAME_NOT_PCT_ENCODED : charset_t :=
  charset [UNRESERVED; SUB_DELIMS].

Definition PCHAR_NOT_PCT_ENCODED : charset_t :=
  charset [UNRESERVED; SUB_DELIMS; chars ":@"].

Definition QUERY_OR_FRAGMENT_NOT_PCT_ENCODED : charset_t :=
  charset [PCHAR_NOT_PCT_ENCODED; chars "/?"].

(** ** Percent codec *)

(** [res.push_back(c)]. *)
Definition push_back (res : string) (c : ascii) : string :=
  res +:+ String c EmptyString.

(** The body of the [for] loop of [decode_uri_component], one character at a
    time, with the four locals of the source as arguments.  [None] is
    [std::nullopt]. *)
Fixpoint decode_loop (allowed_chars : charset_t) (encoded_str : string)
    (digits_left decoded_char : Z) (decoding : bool) (res : string)
  : option string :=
  match encoded_str with
  | EmptyString => Some res
  | String c rest =>
    if decoding && negb (digits_left =? 0) then
      let decoded_char := (Z.shiftl decoded_char 4) mod 256 in
      let digit :=
        if (char_val "0" <=? char_val c) && (char_val c <=? char_val "9")
        then Some (char_val c - char_val "0")
        else if (char_val "A" <=? char_val c) && (char_val c <=? char_val "F")
        then Some (char_val c - char_val "A" + 10)
        else if (char_val "a" <=? char_val c) && (char_val c <=? char_val "f")
        then Some (char_val c - char_val "a" + 10)
        else None in
      match digit with
      | None => None
      | Some d =>
        let decoded_char := (decoded_char + d) mod 256 in
        let digits_left := digits_left - 1 in
        if digits_left =? 0
        then decode_loop allowed_chars rest digits_left decoded_char false
               (push_back res (to_char decoded_char))
        else decode_loop allowed_chars rest digits_left decoded_char decoding
               res
      end
    else if Ascii.eqb c "%" then
      decode_loop allowed_chars rest 2 0 true res
    else if negb (contains allowed_chars c) then None
    else decode_loop allowed_chars rest digits_left decoded_char decoding
           (push_back res c)
  end.

Definition decode_uri_component (encoded_str : string)
    (allowed_chars : charset_t) : option string :=
  decode_loop allowed_chars encoded_str 2 0 false EmptyString.

Definition make_hex_digit (value : Z) : ascii :=
  if value <? 10 then to_char (value + char_val "0")
  else to_char (value - 10 + char_val "A").

Fixpoint encode_loop (allowedCharacters : charset_t) (element : string)
    (encodedElement : string) : string :=
  match element with
  | EmptyString => encodedElement
  | String c rest =>
    if contains allowedCharacters c
    then encode_loop allowedCharacters rest (push_back encodedElement c)
    else encode_loop allowedCharacters rest
           (push_back
              (push_back (push_back encodedElement "%")
                 (make_hex_digit (Z.shiftr (char_to_unsigned_int c) 4)))
              (make_hex_digit (Z.land (char_to_unsigned_int c) 15)))
  end.

Definition encode_uri_component (element : string)
    (allowedCharacters : charset_t) : string :=
  encode_loop allowedCharacters element EmptyString.

(** Every character of [s] belongs to [cs]. *)
Fixpoint all_in (cs : charset_t) (s : string) : bool :=
  match s with
  | EmptyString => true
  | String c rest => contains cs c && all_in cs rest
  end.

(** ** [std::string_view] *)

Definition size (s : string) : Z := Z.of_nat (String.length s).

Definition empty (s : string) : bool := size s =? 0.

Fixpoint skip (n : nat) (s : string) : string :=
  match n, s with
  | O, _ => s
  | S n', EmptyString => EmptyString
  | S n', String _ rest => skip n' rest
  end.

Fixpoint first_n (n : nat) (s : string) : string :=
  match n, s with
  | O, _ => EmptyString
  | S n', EmptyString => EmptyString
  | S n', String c rest => String c (first_n n' rest)
  end.

(** Index of the first character satisfying [p]. *)
Fixpoint find_if (p : ascii -> bool) (s : string) : option nat :=
  match s with
  | EmptyString => None
  | String c rest =>
    if p c then Some O
    else match find_if p rest with
         | Some i => Some (S i)
         | None => None
         end
  end.

(** Index of the last character satisfying [p]. *)
Fixpoint find_last_if (p : ascii -> bool) (s : string) : option nat :=
  match s with
  | EmptyString => None
  | String c rest =>
    match find_last_if p rest with
    | Some i => Some (S i)
    | None => if p c then Some O else None
    end
  end.

(** A search result as a [size_type]: the index, or [npos]. *)
Definition index_or_npos (base : Z) (o : option nat) : Z :=
  match o with
  | Some i => base + Z.of_nat i
  | None => npos
  end.

(** [s.find(c, pos)] and [s.find_first_of(c, pos)] for a character [c]. *)
Definition sv_find (s : string) (c : ascii) (pos : Z) : Z :=
  if size s <=? pos then npos
  else index_or_npos pos (find_if (Ascii.eqb c) (skip (Z.to_nat pos) s)).

(** [s.find_last_of(c)] with the default position [npos]. *)
Definition sv_find_last_of (s : string) (c : ascii) : Z :=
  index_or_npos 0 (find_last_if (Ascii.eqb c) s).

(** [s.find_first_not_of(set)]. *)
Definition sv_find_first_not_of (s : string) (set : charset_t) : Z :=
  index_or_npos 0 (find_if (fun c => negb (contains set c)) s).

(** [s.starts_with(prefix)]. *)
Definition starts_with (s prefix : string) : bool :=
  String.eqb (first_n (String.length prefix) s) prefix.

(** [s.ends_with(c)] for a character [c]. *)
Definition ends_with (s : string) (c : ascii) : bool :=
  match String.length s with
  | O => false
  | S n => String.eqb (skip n s) (String c EmptyString)
  end.

(** [s.remove_prefix(1)] and [s.remove_suffix(1)] on a non-empty view. *)
Definition remove_prefix1 (s : string) : string := skip 1 s.

Definition remove_suffix1 (s : string) : string :=
  first_n (Nat.pred (String.length s)) s.

(** [s[i]]; the NUL character stands for a read past the buffer. *)
Definition sv_at (s : string) (i : Z) : ascii :=
  match String.get (Z.to_nat i) s with
  | Some c => c
  | None => "000"%char
  end.

(** ** Outcomes of a call *)

Inductive exn : Type :=
| out_of_range
| invalid_argument.

(** What a call can do: return, leave by an exception, call
    [std::terminate], run into behaviour the C++ standard leaves undefined,
    or (for the one loop that need not end) exhaust the fuel of the model. *)
Inductive outcome (A : Type) : Type :=
| Ok (a : A)
| Throw (e : exn)
| Terminate
| Undefined
| OutOfFuel.

Arguments Ok {A} a.
Arguments Throw {A} e.
Arguments Terminate {A}.
Arguments Undefined {A}.
Arguments OutOfFuel {A}.

(** [s.substr(pos, n)] throws [std::out_of_range] when [pos > size()] and
    otherwise clamps the length. *)
Definition sv_substr (s : string) (pos n : Z) : outcome string :=
  if size s <? pos then Throw out_of_range
  else Ok (first_n (Z.to_nat (Z.min n (size s - pos))) (skip (Z.to_nat pos) s)).

(** [s.find(lit, pos, count)] for a string literal [lit]: the needle is the
    range [lit, lit + count).  The array of the literal has
    [length lit + 1] characters (the last one NUL); a longer needle that
    still fits in the rest of [s] would be read past that array.  A needle
    longer than the rest of [s] is never read: the answer is [npos]. *)
Fixpoint find_sub (needle s : string) : option nat :=
  match s with
  | EmptyString => if String.eqb needle EmptyString then Some O else None
  | String _ rest =>
    if String.eqb (first_n (String.length needle) s) needle then Some O
    else match find_sub needle rest with
         | Some i => Some (S i)
         | None => None
         end
  end.

Definition sv_find_lit (s lit : string) (pos count : Z) : outcome Z :=
  if count =? 0 then Ok (if pos <=? size s then pos else npos)
  else if size s <=? pos then Ok npos
  else if size s - pos <? count then Ok npos
  else if size lit + 1 <? count then Undefined
  else
    let needle :=
      first_n (Z.to_nat count) (lit +:+ String "000"%char EmptyString) in
    Ok (index_or_npos pos (find_sub needle (skip (Z.to_nat pos) s))).

(** ** Validators and casts used by the URI *)

(** Modelled from the spec: [is::digit(std::string_view)] of [validators.h]
    (not under [src/]): the text is all decimal digits. *)
Definition is_digit (s : string) : bool := all_in DIGIT s.

(** Modelled from the spec: [is::scheme], declared in [uri.h] and defined
    outside [src/]: a letter followed by scheme-tail characters. *)
Definition is_scheme (s : string) : bool :=
  match s with
  | EmptyString => false
  | String c rest => contains ALPHA c && all_in SCHEME_NOT_FIRST rest
  end.

(** Modelled from the spec: [to_uint] of [casts.h] (not under [src/]), the
    number written by a string of decimal digits. *)
Definition to_uint (s : string) : Z :=
  fold_left (fun acc c => acc * 10 + (code c - code "0"))
    (list_ascii_of_string s) 0.

(** ** The URI value *)

(** [basic_uri<std::string>]: the buffer and the seven cached offsets. *)
Record basic_uri : Type := mk_uri {
  data : string;
  scheme_end : Z;
  authority_start : Z;
  user_info_end : Z;
  port_start : Z;
  authority_end : Z;
  query_start : Z;
  fragment_start : Z
}.

(** [explicit basic_uri(StringType const& u)]: every offset starts at [npos]. *)
Definition uri_of (u : string) : basic_uri :=
  mk_uri u npos npos npos npos npos npos npos.

(** [basic_uri()]: the buffer is the empty string. *)
Definition uri_default : basic_uri := uri_of EmptyString.

Definition set_data (v : string) (u : basic_uri) : basic_uri :=
  mk_uri v (scheme_end u) (authority_start u) (user_info_end u) (port_start u)
    (authority_end u) (query_start u) (fragment_start u).

Definition set_scheme_end (v : Z) (u : basic_uri) : basic_uri :=
  mk_uri (data u) v (authority_start u) (user_info_end u) (port_start u)
    (authority_end u) (query_start u) (fragment_start u).

Definition set_authority_start (v : Z) (u : basic_uri) : basic_uri :=
  mk_uri (data u) (scheme_end u) v (user_info_end u) (port_start u)
    (authority_end u) (query_start u) (fragment_start u).

Definition set_user_info_end (v : Z) (u : basic_uri) : basic_uri :=
  mk_uri (data u) (scheme_end u) (authority_start u) v (port_start u)
    (authority_end u) (query_start u) (fragment_start u).

Definition set_port_start (v : Z) (u : basic_uri) : basic_uri :=
  mk_uri (data u) (scheme_end u) (authority_start u) (user_info_end u) v
    (authority_end u) (query_start u) (fragment_start u).

Definition set_authority_end (v : Z) (u : basic_uri) : basic_uri :=
  mk_uri (data u) (scheme_end u) (authority_start u) (user_info_end u)
    (port_start u) v (query_start u) (fragment_start u).

Definition set_query_start (v : Z) (u : basic_uri) : basic_uri :=
  mk_uri (data u) (scheme_end u) (authority_start u) (user_info_end u)
    (port_start u) (authority_end u) v (fragment_start u).

Definition set_fragment_start (v : Z) (u : basic_uri) : basic_uri :=
  mk_uri (data u) (scheme_end u) (authority_start u) (user_info_end u)
    (port_start u) (authority_end u) (query_start u) v.

(** [data.size()]. *)
Definition data_size (u : basic_uri) : Z := size (data u).

(** *** The monad of member functions: state and outcome

    A call maps the state before it to its outcome and the state at the
    point where control left it (the state that the caller sees when the
    call returns or throws). *)

Definition St (S A : Type) : Type := S -> outcome A * S.

Definition ret {S A} (a : A) : St S A := fun u => (Ok a, u).

(** An outcome other than a normal return, at another result type. *)
Definition abrupt {A B} (o : outcome A) : outcome B :=
  match o with
  | Ok _ => Undefined
  | Throw e => Throw e
  | Terminate => Terminate
  | Undefined => Undefined
  | OutOfFuel => OutOfFuel
  end.

Definition bind {S A B} (m : St S A) (f : A -> St S B) : St S B :=
  fun u =>
    match m u with
    | (Ok a, u') => f a u'
    | (o, u') => (abrupt o, u')
    end.

Definition gets {S A} (f : S -> A) : St S A := fun u => (Ok (f u), u).

Definition modify {S} (f : S -> S) : St S unit := fun u => (Ok tt, f u).

Definition throw {S A} (e : exn) : St S A := fun u => (Throw e, u).

(** The result of a call that does not touch the state. *)
Definition lift {S A} (o : outcome A) : St S A := fun u => (o, u).

(** A function declared [noexcept]: an escaping exception terminates. *)
Definition noexcept {S A} (m : St S A) : St S A :=
  fun u =>
    match m u with
    | (Throw _, u') => (Terminate, u')
    | r => r
    end.

(** A member function of one URI value. *)
Definition M (A : Type) : Type := St basic_uri A.

Notation "'do' x <- m ; k" := (bind m (fun x => k))
  (at level 10, x name, m at level 100, k at level 200,
   format "'[v' 'do'  x  <-  m ; '/' k ']'").

(** Short-circuit [a || b] on calls. *)
Definition orM {S} (a b : St S bool) : St S bool :=
  do x <- a; if x then ret true else b.

(** *** The offset parsing engine *)

Definition parse_fragment : M unit := noexcept (
  do fs <- gets fragment_start;
  if negb (fs =? npos) then ret tt else
  do _data <- gets data;
  let found := sv_find _data "#" 0 in
  if found =? npos
  then modify (fun u => set_fragment_start (data_size u) u)
  else modify (set_fragment_start found)).

Definition parse_query : M unit := noexcept (
  do qs <- gets query_start;
  if negb (qs =? npos) then ret tt else
  do _ <- parse_fragment;
  do _data <- gets data;
  do fs <- gets fragment_start;
  do before <- lift (sv_substr _data 0 fs);
  let found := sv_find before "?" 0 in
  if found =? npos
  then modify (fun u => set_query_start (data_size u) u)
  else modify (set_query_start found)).

Definition parse_scheme : M unit := noexcept (
  do se <- gets scheme_end;
  if negb (se =? npos) then ret tt else
  do _data <- gets data;
  let no_scheme :=
    do _ <- modify (fun u => set_authority_start (data_size u) u);
    modify (fun u => set_scheme_end (authority_start u) u) in
  if starts_with _data "//" then
    do _ <- modify (set_authority_start 2);
    modify (fun u => set_scheme_end (data_size u) u)
  else
    let colon := sv_find _data ":" 0 in
    if negb (colon =? npos) then
      do __scheme <- lift (sv_substr _data 0 colon);
      (* [__scheme] is a view of the first [colon] characters of [_data]:
         its element 0 is that of [_data], also when [colon] is 0. *)
      do accepted <-
        (if contains ALPHA (sv_at _data 0) then
           do tail <- lift (sv_substr __scheme 1 npos);
           (* the [size_type] result is used as the condition *)
           ret (negb (sv_find_first_not_of tail SCHEME_NOT_FIRST =? 0))
         else ret false);
      if accepted then
        do _ <- modify (set_scheme_end colon);
        do next <- lift (sv_substr _data (SizeT.add colon 1) 2);
        if String.eqb next "//"
        then modify (set_authority_start (SizeT.add colon 3))
        else modify (fun u => set_authority_start (data_size u) u)
      else no_scheme
    else no_scheme).

Definition parse_path : M unit := noexcept (
  do ae <- gets authority_end;
  if negb (ae =? npos) then ret tt else
  do _ <- parse_scheme;
  do _ <- parse_query;
  do _data <- gets data;
  do u <- gets id;
  let starting_point :=
    if negb (authority_start u =? data_size u) then authority_start u
    else if negb (scheme_end u =? data_size u)
            && negb (scheme_end u =? npos)
         then scheme_end u
         else 0 in
  do range <- lift (sv_substr _data starting_point
                      (SizeT.sub (query_start u) starting_point));
  let found := sv_find range "/" 0 in
  if found =? npos
  then modify (fun u => set_authority_end (data_size u) u)
  else modify (set_authority_end (SizeT.add found starting_point))).

Definition parse_user_info : M unit := noexcept (
  do ue <- gets user_info_end;
  if negb (ue =? npos) then ret tt else
  do _ <- parse_scheme;
  do u <- gets id;
  if authority_start u =? data_size u
  then modify (fun u => set_user_info_end (data_size u) u)
  else
    do _ <- parse_path;
    do u <- gets id;
    do range <- lift (sv_substr (data u) (authority_start u)
                        (SizeT.sub (authority_end u) (authority_start u)));
    let found := sv_find range "@" 0 in
    if found =? npos
    then modify (fun u => set_user_info_end (data_size u) u)
    else modify (set_user_info_end (SizeT.add found (authority_start u)))).

Definition parse_port : M unit := noexcept (
  do ps <- gets port_start;
  if negb (ps =? npos) then ret tt else
  do _ <- parse_user_info;
  do u <- gets id;
  if authority_start u =? data_size u
  then modify (fun u => set_port_start (data_size u) u)
  else
    do _ <- parse_path;
    do u <- gets id;
    let _data := data u in
    let starting_point :=
      if negb (user_info_end u =? data_size u) then user_info_end u
      else authority_start u in
    do range <- lift (sv_substr _data starting_point
                        (SizeT.sub (authority_end u) starting_point));
    let found := sv_find_last_of range ":" in
    if found =? npos
    then modify (fun u => set_port_start (data_size u) u)
    else
      let port_start' := SizeT.add found starting_point in
      do _ <- modify (set_port_start port_start');
      do str_view <- lift (sv_substr _data (SizeT.add port_start' 1)
                             (SizeT.sub (authority_end u)
                                (SizeT.add port_start' 1)));
      if negb (is_digit str_view)
      then modify (fun u => set_port_start (data_size u) u)
      else ret tt).

Definition parse_host : M unit := noexcept (
  do _ <- parse_user_info;
  do _ <- parse_port;
  parse_path).

(** [unparse()]: forget the cache. *)
Definition unparse_state (u : basic_uri) : basic_uri := uri_of (data u).

Definition unparse : M unit := modify unparse_state.

(** The member [substr(start, len)]. *)
Definition substr (start len : Z) : M string := noexcept (
  if len =? 0 then ret EmptyString
  else
    do d <- gets data;
    lift (sv_substr d start len)).

Definition replace_value (start len : Z) (replacement : string) : M unit :=
  noexcept (
    if (start =? npos) || (len =? npos)
       || ((len =? 0) && empty replacement)
    then ret tt
    else
      do before <- substr 0 start;
      do sz <- gets data_size;
      do after <- substr (Z.min sz (SizeT.add start len)) npos;
      do _ <- modify (set_data (before +:+ replacement +:+ after));
      unparse).

(** *** Accessors *)

Definition has_scheme : M bool := noexcept (
  do _ <- parse_scheme;
  do u <- gets id;
  ret (negb (scheme_end u =? data_size u) || (scheme_end u =? 0))).

Definition scheme : M string := noexcept (
  do _ <- parse_scheme;
  do u <- gets id;
  if scheme_end u =? data_size u then ret EmptyString
  else substr 0 (scheme_end u)).

Definition has_user_info : M bool := noexcept (
  do _ <- parse_user_info;
  do u <- gets id;
  ret (negb (user_info_end u =? data_size u)
       && negb (authority_start u =? data_size u))).

Definition user_info : M string := noexcept (
  do _ <- parse_user_info;
  do u <- gets id;
  if (user_info_end u =? data_size u) || (authority_start u =? data_size u)
  then ret EmptyString
  else substr (authority_start u)
         (SizeT.sub (user_info_end u) (authority_start u))).

Definition host : M string := noexcept (
  do _ <- parse_host;
  do u <- gets id;
  if authority_start u =? data_size u then ret EmptyString
  else
    let start :=
      if user_info_end u =? data_size u then authority_start u
      else user_info_end u in
    let len :=
      if negb (port_start u =? data_size u)
      then SizeT.sub (port_start u) start
      else if negb (authority_end u =? data_size u)
           then SizeT.sub (authority_end u) start
           else SizeT.sub (data_size u) 1 in
    substr start len).

Definition has_host : M bool := noexcept (
  do h <- host;
  ret (negb (empty h))).

Definition has_port : M bool := noexcept (
  do _ <- parse_port;
  do u <- gets id;
  ret (negb (port_start u =? data_size u))).

Definition port : M string := noexcept (
  do _ <- parse_port;
  do u <- gets id;
  if port_start u =? data_size u then ret EmptyString
  else
    substr (SizeT.add (port_start u) 1)
      (SizeT.sub
         (if authority_end u =? data_size u
          then SizeT.sub (authority_end u) 1
          else authority_end u)
         (SizeT.add (port_start u) 1))).

Definition default_port : M Z := noexcept (
  do _scheme <- scheme;
  if String.eqb _scheme "http" then ret 80
  else if String.eqb _scheme "https" then ret 443
  else if String.eqb _scheme "ftp" then ret 21
  else if String.eqb _scheme "ssh" then ret 22
  else if String.eqb _scheme "telnet" then ret 23
  else if String.eqb _scheme "ftps" then ret 990
  else ret 0).

Definition port_uint16 : M Z := noexcept (
  do p <- has_port;
  if p then
    do s <- port;
    ret ((to_uint s) mod 2 ^ 16)
  else default_port).

Definition has_path : M bool := noexcept (
  do _ <- parse_path;
  do u <- gets id;
  ret (negb (authority_end u =? data_size u))).

Definition path : M string := noexcept (
  do p <- has_path;
  if negb p then ret EmptyString
  else
    do u <- gets id;
    substr (authority_end u)
      (SizeT.sub (Z.min (query_start u) (fragment_start u))
         (authority_end u))).

Definition path_decoded : M (option string) := noexcept (
  do p <- path;
  ret (decode_uri_component p (charset [PCHAR_NOT_PCT_ENCODED; chars "/"]))).

Definition is_absolute : M bool := noexcept (
  do p <- path;
  ret (starts_with p "/")).

Definition is_relative : M bool := noexcept (
  do a <- is_absolute;
  ret (negb a)).

Definition has_query : M bool := noexcept (
  do _ <- parse_query;
  do u <- gets id;
  ret (negb (query_start u =? data_size u))).

Definition query : M string := noexcept (
  do _ <- parse_query;
  do u <- gets id;
  if query_start u =? data_size u then ret EmptyString
  else substr (SizeT.add (query_start u) 1)
         (SizeT.sub (SizeT.sub (fragment_start u) (query_start u)) 1)).

Definition query_decoded : M (option string) := noexcept (
  do q <- query;
  ret (decode_uri_component q QUERY_OR_FRAGMENT_NOT_PCT_ENCODED)).

Definition fragment : M string := noexcept (
  do _ <- parse_fragment;
  do u <- gets id;
  substr (SizeT.add (fragment_start u) 1) npos).

Definition has_fragment : M bool := noexcept (
  do _ <- parse_fragment;
  do u <- gets id;
  ret (negb (fragment_start u =? data_size u))).

Definition is_relative_reference : M bool := noexcept (
  do s <- has_scheme;
  ret (negb s)).

Definition has_authority : M bool := noexcept (
  orM (orM has_host has_user_info) has_port).

Definition is_urn : M bool := noexcept (
  do s <- scheme;
  do u <- gets id;
  ret (String.eqb s "urn" && (authority_start u =? data_size u))).

Definition is_url : M bool := noexcept has_host.

Definition is_valid : M bool := noexcept (
  orM (orM (orM has_scheme has_authority) has_path) has_fragment).

(** [str()]. *)
Definition str : M string := gets data.

(** *** User name, password and the encoded buffer *)

(** [s.remove_suffix(n)]. *)
Definition remove_suffix (n : Z) (s : string) : string :=
  first_n (Z.to_nat (SizeT.sub (size s) n)) s.

(** [username() const noexcept]. *)
Definition username : M string := noexcept (
  do _userinfo <- user_info;
  let colon := sv_find _userinfo ":" 0 in
  if negb (colon =? npos)
  then ret (remove_suffix (SizeT.sub (size _userinfo) colon) _userinfo)
  else ret _userinfo).

(** [has_password() const noexcept]. *)
Definition has_password : M bool := noexcept (
  do _user_info <- user_info;
  ret (negb (sv_find _user_info ":" 0 =? npos))).

(** [password() const noexcept]. *)
Definition password : M string := noexcept (
  do _user_info <- user_info;
  let found := sv_find _user_info ":" 0 in
  if negb (found =? npos)
  then lift (sv_substr _user_info (SizeT.add found 1) npos)
  else ret EmptyString).

(** [encoded_uri() noexcept] and [decoded_uri() noexcept]. *)
Definition encoded_uri : M string := noexcept (
  do s <- str;
  ret (encode_uri_component s ALLOWED_CHARACTERS_IN_URI)).

Definition decoded_uri : M (option string) := noexcept (
  do s <- str;
  ret (decode_uri_component s ALLOWED_CHARACTERS_IN_URI)).

(** [host_decoded() const noexcept]. *)
Definition host_decoded : M (option string) := noexcept (
  do h <- host;
  ret (decode_uri_component h REG_NAME_NOT_PCT_ENCODED)).

(** *** Structured views *)

(** Sequencing of plain outcomes. *)
Definition obind {A B} (o : outcome A) (f : A -> outcome B) : outcome B :=
  match o with
  | Ok a => f a
  | _ => abrupt o
  end.

Notation "'let!' x ':=' o 'in' k" := (obind o (fun x => k))
  (at level 10, x name, o at level 100, k at level 200).

(** The [do ... while (last_and_sep != npos)] loop of [query_structured];
    [fuel] bounds the number of iterations, the loop itself has no bound. *)
Fixpoint query_structured_loop (fuel : nat) (_query : string)
    (last_and_sep : Z) (q_structured : gmap string string)
  : outcome (gmap string string) :=
  match fuel with
  | O => OutOfFuel
  | S fuel' =>
    let and_sep := sv_find _query "&" last_and_sep in
    let! eq_sep :=
      sv_find_lit _query "=" last_and_sep (SizeT.sub and_sep last_and_sep) in
    let! name :=
      sv_substr _query (SizeT.add last_and_sep 1) (Z.min eq_sep and_sep) in
    let last_and_sep := and_sep in
    let next q :=
      if negb (last_and_sep =? npos)
      then query_structured_loop fuel' _query last_and_sep q
      else Ok q in
    if empty name then next q_structured
    else
      let! value :=
        (if negb (and_sep =? npos)
         then sv_substr _query (SizeT.add eq_sep 1) and_sep
         else Ok EmptyString) in
      match decode_uri_component name QUERY_OR_FRAGMENT_NOT_PCT_ENCODED with
      | Some d_name =>
        next (<[ d_name :=
                 default EmptyString
                   (decode_uri_component value
                      QUERY_OR_FRAGMENT_NOT_PCT_ENCODED) ]> q_structured)
      | None => next q_structured
      end
  end.

Definition query_structured (fuel : nat) : M (gmap string string) :=
  noexcept (
    do _query <- query;
    lift (query_structured_loop fuel _query 0 ∅)).

(** The [do ... while (slash_start != npos)] loop of [path_structured]. *)
Fixpoint path_structured_loop (fuel : nat) (_path : string)
    (last_slash_start : Z) (container : list string) : outcome (list string) :=
  match fuel with
  | O => OutOfFuel
  | S fuel' =>
    let slash_start := sv_find _path "/" (SizeT.add last_slash_start 1) in
    let piece :=
      first_n
        (Z.to_nat
           (SizeT.sub
              (SizeT.sub (Z.min slash_start (size _path)) last_slash_start) 1))
        (skip (Z.to_nat (SizeT.add last_slash_start 1)) _path) in
    let container := container ++ [piece] in
    if negb (slash_start =? npos)
    then path_structured_loop fuel' _path slash_start container
    else Ok container
  end.

Definition path_structured : M (list string) := noexcept (
  do _path <- path;
  if empty _path then ret []
  else
    let container :=
      if Ascii.eqb (sv_at _path 0) "/" then [EmptyString] else [] in
    lift (path_structured_loop (S (String.length _path)) _path 0 container)).

(** [normalize_path()]: its body is [return *this;]. *)
Definition normalize_path : M unit := noexcept (ret tt).

(** *** Mutators

    The source overloads each accessor name with its setter; the setters
    carry the prefix [set_] here. *)

(** [scheme(std::string_view __scheme)], not declared [noexcept]. *)
Definition set_scheme (__scheme : string) : M unit :=
  let __scheme :=
    if ends_with __scheme ":" then remove_suffix1 __scheme else __scheme in
  if negb (is_scheme __scheme) then throw invalid_argument
  else
    do _ <- parse_scheme;
    do u <- gets id;
    if negb (scheme_end u =? data_size u) then
      replace_value 0
        (if empty __scheme
            && (SizeT.add (scheme_end u) 1 <? data_size u)
            && Ascii.eqb (sv_at (data u) (scheme_end u)) ":"
         then SizeT.add (scheme_end u) 1
         else scheme_end u)
        __scheme
    else
      let scheme_colon :=
        if empty __scheme then EmptyString else __scheme +:+ ":" in
      if negb (authority_start u =? data_size u) then
        replace_value 0 0
          (scheme_colon
           +:+ (if starts_with (data u) "//" then EmptyString else "//"))
      else replace_value 0 0 scheme_colon.

(** [user_info(std::string_view const& info) noexcept]. *)
Definition set_user_info (info : string) : M unit := noexcept (
  do _ <- parse_user_info;
  let encoded_info := encode_uri_component info USER_INFO_NOT_PCT_ENCODED in
  do u <- gets id;
  if (user_info_end u =? data_size u) || (authority_start u =? data_size u)
  then
    replace_value (authority_start u)
      (SizeT.sub (user_info_end u) (authority_start u)) encoded_info
  else
    if authority_start u =? data_size u then
      do _ <- parse_scheme;
      do u <- gets id;
      if scheme_end u =? data_size u
      then replace_value 0 0 ("//" +:+ encoded_info +:+ "@")
      else replace_value (SizeT.add (scheme_end u) 1) 0
             ("//" +:+ encoded_info +:+ "@")
    else replace_value (authority_start u) 0 (encoded_info +:+ "@")).

(** [port(std::string_view new_port) noexcept]: the [throw] of the source
    sits inside a function declared [noexcept]. *)
Definition set_port (new_port : string) : M unit := noexcept (
  let new_port :=
    if starts_with new_port ":" then remove_prefix1 new_port else new_port in
  if negb (is_digit new_port) then throw invalid_argument
  else
    do _ <- parse_port;
    do u <- gets id;
    if port_start u =? data_size u then
      do _ <- parse_host;
      do u <- gets id;
      if negb (authority_end u =? data_size u) then
        replace_value (authority_end u) 0 (":" +:+ new_port)
      else if negb (user_info_end u =? data_size u) then
        replace_value (SizeT.add (user_info_end u) 1)
          (SizeT.add (user_info_end u) 1) (":" +:+ new_port)
      else if negb (authority_start u =? data_size u) then
        replace_value (SizeT.add (authority_start u) 1) 0 (":" +:+ new_port)
      else if scheme_end u =? data_size u then
        replace_value 0 0 ("//:" +:+ new_port)
      else
        replace_value (SizeT.add (scheme_end u) 1) 0 ("//:" +:+ new_port)
    else
      replace_value (SizeT.add (port_start u) 1)
        (if authority_end u =? data_size u
         then SizeT.sub (authority_end u) 1
         else authority_end u)
        new_port).

(** [path(std::string_view const& __path) noexcept]. *)
Definition set_path (__path : string) : M unit := noexcept (
  do _ <- parse_path;
  let _encoded_path :=
    (if starts_with __path "/" then EmptyString else "/")
    +:+ encode_uri_component __path
          (charset [PCHAR_NOT_PCT_ENCODED; chars "/"]) in
  do u <- gets id;
  replace_value (authority_end u)
    (SizeT.sub (query_start u) (authority_end u)) _encoded_path).

(** The text written by [path(_start, _end)] for a container of segments:
    every segment but the last followed by a slash, then the last one.  An
    empty container makes [_end - 1] and [std::prev(_end)] undefined. *)
Fixpoint join_path (segments : list string) : outcome string :=
  match segments with
  | [] => Undefined
  | [last] => Ok last
  | s :: rest =>
    let! tail := join_path rest in
    Ok (s +:+ "/" +:+ tail)
  end.

(** [path(const Container& __path) noexcept]. *)
Definition set_path_container (__path : list string) : M unit := noexcept (
  do joined_path <- lift (join_path __path);
  set_path joined_path).

Section Externals.

(** [is::ipv6] and [is::query] of [validators.h], which is not under
    [src/]. *)
Variable is_ipv6 : string -> bool.
Variable is_query : string -> bool.

(** [host(std::string_view const& new_host) noexcept]. *)
Definition set_host (new_host : string) : M unit := noexcept (
  do _ <- parse_host;
  let encoded_host := encode_uri_component new_host REG_NAME_NOT_PCT_ENCODED in
  let encoded_host :=
    if (negb (starts_with new_host "[") || negb (ends_with new_host "]"))
       && is_ipv6 new_host
    then "[" +:+ encoded_host +:+ "]"
    else encoded_host in
  do u <- gets id;
  if authority_start u =? data_size u then
    if empty encoded_host then ret tt
    else if scheme_end u =? data_size u
    then replace_value 0 0 ("//" +:+ encoded_host)
    else replace_value (scheme_end u) 0 ("//" +:+ encoded_host)
  else
    let '(start, encoded_host) :=
      if user_info_end u =? data_size u then
        if scheme_end u =? data_size u then
          (0,
           if negb (empty new_host) && negb (starts_with encoded_host "//")
           then "//" +:+ encoded_host
           else encoded_host)
        else (authority_start u, encoded_host)
      else (user_info_end u, encoded_host) in
    let finish :=
      if negb (port_start u =? data_size u) then port_start u
      else if negb (authority_end u =? data_size u) then authority_end u
      else SizeT.sub (data_size u) 1 in
    replace_value start (SizeT.sub finish start) encoded_host).

(** [query(std::string_view const& __query)], not declared [noexcept]. *)
Definition set_query (__query : string) : M unit :=
  if negb (is_query __query) then throw invalid_argument
  else
    let encoded_query :=
      (if starts_with __query "?" then EmptyString else "?")
      +:+ encode_uri_component __query QUERY_OR_FRAGMENT_NOT_PCT_ENCODED in
    do _ <- parse_query;
    do u <- gets id;
    if negb (query_start u =? data_size u) then
      if negb (fragment_start u =? data_size u) then
        replace_value (fragment_start u) 0 encoded_query
      else
        do _ <- parse_path;
        do u <- gets id;
        if authority_end u =? data_size u then
          do _ <- parse_scheme;
          do u <- gets id;
          if authority_start u =? data_size u then
            if scheme_end u =? data_size u
            then replace_value 0 0 ("///" +:+ encoded_query)
            else replace_value (scheme_end u) 0 ("/" +:+ encoded_query)
          else replace_value (authority_start u) 0 ("/" +:+ encoded_query)
        else
          if Ascii.eqb (sv_at (data u) (authority_end u)) "/"
          then replace_value (SizeT.add (authority_end u) 1) 0 encoded_query
          else replace_value (SizeT.add (authority_end u) 1) 0
                 ("/" +:+ encoded_query)
    else
      replace_value (query_start u)
        (SizeT.sub (fragment_start u) (query_start u)) encoded_query.

End Externals.

(** *** Reference resolution *)

(** The three URI values [resolve] works on: [*this] (the base), the
    parameter [relative_uri] and the local [target]. *)
Record frames : Type := mk_frames {
  this_uri : basic_uri;
  relative_uri : basic_uri;
  target : basic_uri
}.

(** Run a member function on one of the three values. *)
Definition on {A} (get : frames -> basic_uri)
    (put : basic_uri -> frames -> frames) (m : M A) : St frames A :=
  fun fr => let '(o, u') := m (get fr) in (o, put u' fr).

Definition on_this {A} : M A -> St frames A :=
  on this_uri (fun u fr => mk_frames u (relative_uri fr) (target fr)).

Definition on_relative {A} : M A -> St frames A :=
  on relative_uri (fun u fr => mk_frames (this_uri fr) u (target fr)).

Definition on_target {A} : M A -> St frames A :=
  on target (fun u fr => mk_frames (this_uri fr) (relative_uri fr) u).

Section Resolution.

Variable is_ipv6 : string -> bool.
Variable is_query : string -> bool.

(** [resolve] names three members that [basic_uri] does not have: a
    setter [fragment(std::string_view)] and the data members [_query] and
    [_path].  They are left open. *)
Variable set_fragment : string -> M unit.
Variable _query : basic_uri -> string.
Variable _path : basic_uri -> string.

Definition resolve_frames : St frames unit := noexcept (
  do has <- on_relative has_scheme;
  if has then
    do r <- gets relative_uri;
    do _ <- on_target (modify (fun _ => r));
    on_target normalize_path
  else
    do s <- on_this scheme;
    do _ <- on_target (set_scheme s);
    do f <- on_relative fragment;
    do _ <- on_target (set_fragment f);
    do rel_has_host <- on_relative has_host;
    if rel_has_host then
      do h <- on_relative host;
      do _ <- on_target (set_host is_ipv6 h);
      do p <- on_relative port;
      do _ <- on_target (set_port p);
      do i <- on_relative user_info;
      do _ <- on_target (set_user_info i);
      do pa <- on_relative path;
      do _ <- on_target (set_path pa);
      do q <- on_relative query;
      do _ <- on_target (set_query is_query q);
      on_target normalize_path
    else
      do h <- on_this host;
      do _ <- on_target (set_host is_ipv6 h);
      do i <- on_this user_info;
      do _ <- on_target (set_user_info i);
      do p <- on_this port;
      do _ <- on_target (set_port p);
      do rel_has_path <- on_relative has_path;
      if negb rel_has_path then
        do pa <- on_this path;
        do _ <- on_target (set_path pa);
        do rel_has_query <- on_relative has_query;
        if rel_has_query then
          do q <- on_relative query;
          on_target (set_query is_query q)
        else
          do q <- on_this query;
          on_target (set_query is_query q)
      else
        do r <- gets relative_uri;
        do _ <- on_target (set_query is_query (_query r));
        do abs <- on_relative is_absolute;
        if abs then
          do r <- gets relative_uri;
          do _ <- on_target (set_path (_path r));
          on_target normalize_path
        else
          do pa <- on_this path;
          do _ <- on_target (set_path pa);
          do target_path <- on_target path_structured;
          do relative_uri_path <- on_relative path_structured;
          let target_path :=
            if 1 <? Z.of_nat (length target_path)
            then removelast target_path
            else target_path in
          let target_path := target_path ++ relative_uri_path in
          do _ <- on_target (set_path_container target_path);
          on_target normalize_path).

(** [resolve(relative_uri)]: the value of the local [target] at the
    [return]. *)
Definition resolve (base relative : basic_uri) : outcome basic_uri :=
  let '(o, fr) := resolve_frames (mk_frames base relative uri_default) in
  let! _ := o in Ok (target fr).

End Resolution.


(** ** Predicates used in the statements *)

(** The three hexadecimal ranges of the decoder. *)
Definition is_hex (c : ascii) : bool :=
  ((char_val "0" <=? char_val c) && (char_val c <=? char_val "9"))
  || ((char_val "A" <=? char_val c) && (char_val c <=? char_val "F"))
  || ((char_val "a" <=? char_val c) && (char_val c <=? char_val "f")).

(** The state of the decoder is always outside an escape, or inside one
    with one or two digits to go. *)
Definition decoder_state_ok (digits_left : Z) (decoding : bool) : Prop :=
  decoding = false \/ digits_left = 1 \/ digits_left = 2.

(** [post m u Q]: from the state [u], the call [m] returns, and its value
    and final state satisfy [Q]. *)
Definition post {S A : Type} (m : St S A) (u : S) (Q : A -> S -> Prop)
  : Prop :=
  exists (a : A) (u' : S), m u = (Ok a, u') /\ Q a u'.

(** ** Predicates on the offset cache *)

(** None of the seven offsets is the "unknown" sentinel. *)
Definition resolved (u : basic_uri) : Prop :=
  scheme_end u <> npos /\ authority_start u <> npos
  /\ user_info_end u <> npos /\ port_start u <> npos
  /\ authority_end u <> npos /\ query_start u <> npos
  /\ fragment_start u <> npos.

(** The non-decreasing chain of the seven offsets. *)
Definition chain (u : basic_uri) : Prop :=
  scheme_end u <= authority_start u
  /\ authority_start u <= user_info_end u
  /\ user_info_end u <= port_start u
  /\ port_start u <= authority_end u
  /\ authority_end u <= query_start u
  /\ query_start u <= fragment_start u
  /\ fragment_start u <= data_size u.

(** What the resolved offsets do satisfy: each lies inside the buffer, and
    an offset other than the buffer length (a component that is present)
    is ordered with respect to the authority, resp. the fragment.  The path
    starts before the query when the query does not start before the place
    from which the path is searched (the start of the authority or, without
    one, the end of the scheme). *)
Definition layout (u : basic_uri) : Prop :=
  let n := data_size u in
  (0 <= scheme_end u <= n) /\ (0 <= authority_start u <= n)
  /\ (0 <= user_info_end u <= n) /\ (0 <= port_start u <= n)
  /\ (0 <= authority_end u <= n) /\ (0 <= query_start u <= n)
  /\ (0 <= fragment_start u <= n)
  /\ (scheme_end u <> n -> scheme_end u < authority_start u)
  /\ (authority_start u <> n -> authority_start u <= authority_end u)
  /\ (authority_start u = n -> user_info_end u = n /\ port_start u = n)
  /\ (user_info_end u <> n ->
      authority_start u <= user_info_end u < authority_end u)
  /\ (port_start u <> n ->
      authority_start u <= port_start u < authority_end u)
  /\ (user_info_end u <> n -> port_start u <> n ->
      user_info_end u <= port_start u)
  /\ (query_start u <> n -> query_start u < fragment_start u)
  /\ (authority_end u <> n ->
      (authority_start u <> n -> authority_start u <= query_start u) ->
      (authority_start u = n -> scheme_end u <> n ->
       scheme_end u <= query_start u) ->
      authority_end u < query_start u).

(** What each parsing function establishes for its own offset. *)
Definition fragment_ok (u : basic_uri) : Prop :=
  0 <= fragment_start u <= data_size u.

Definition query_own (u : basic_uri) : Prop :=
  0 <= query_start u <= data_size u
  /\ (query_start u <> data_size u -> query_start u < fragment_start u).

Definition scheme_ok (u : basic_uri) : Prop :=
  0 <= scheme_end u <= data_size u
  /\ 0 <= authority_start u <= data_size u
  /\ (scheme_end u <> data_size u -> scheme_end u < authority_start u).

Definition path_own (u : basic_uri) : Prop :=
  0 <= authority_end u <= data_size u
  /\ (authority_start u <> data_size u ->
      authority_start u <= authority_end u)
  /\ (authority_end u <> data_size u ->
      (authority_start u <> data_size u ->
       authority_start u <= query_start u) ->
      (authority_start u = data_size u -> scheme_end u <> data_size u ->
       scheme_end u <= query_start u) ->
      authority_end u < query_start u).

Definition user_info_own (u : basic_uri) : Prop :=
  0 <= user_info_end u <= data_size u
  /\ (authority_start u = data_size u -> user_info_end u = data_size u)
  /\ (authority_start u <> data_size u ->
      user_info_end u <> data_size u ->
      authority_start u <= user_info_end u < authority_end u).

Definition port_own (u : basic_uri) : Prop :=
  0 <= port_start u <= data_size u
  /\ (authority_start u = data_size u -> port_start u = data_size u)
  /\ (authority_start u <> data_size u ->
      port_start u <> data_size u ->
      authority_start u <= port_start u < authority_end u
      /\ (user_info_end u <> data_size u -> user_info_end u <= port_start u)).

(** The same, together with what the functions called on the way have
    established. *)
Definition query_ok (u : basic_uri) : Prop := fragment_ok u /\ query_own u.

Definition path_ok (u : basic_uri) : Prop :=
  scheme_ok u /\ query_ok u /\ path_own u.

Definition user_info_ok (u : basic_uri) : Prop :=
  scheme_ok u /\ user_info_own u
  /\ (authority_start u <> data_size u -> path_ok u).

Definition port_ok (u : basic_uri) : Prop := user_info_ok u /\ port_own u.

(** The invariant of the cache: each offset is unknown, or the offsets it
    was derived from are known and it lies where its derivation puts it. *)
Definition Inv (u : basic_uri) : Prop :=
  data_size u < SizeT.max_size
  /\ (fragment_start u = npos \/ fragment_ok u)
  /\ (query_start u = npos \/ (fragment_start u <> npos /\ query_own u))
  /\ (scheme_end u = npos \/ scheme_ok u)
  /\ (authority_end u = npos
      \/ (scheme_end u <> npos /\ query_start u <> npos /\ path_own u))
  /\ (user_info_end u = npos
      \/ (scheme_end u <> npos
          /\ (authority_start u <> data_size u -> authority_end u <> npos)
          /\ user_info_own u))
  /\ (port_start u = npos
      \/ (user_info_end u <> npos /\ scheme_end u <> npos
          /\ (authority_start u <> data_size u -> authority_end u <> npos)
          /\ port_own u)).

(** ** Definitions used by the further properties *)

(** The value that the decoder gives to a character inside an escape. *)
Definition digit_value (c : ascii) : option Z :=
  if (char_val "0" <=? char_val c) && (char_val c <=? char_val "9")
  then Some (char_val c - char_val "0")
  else if (char_val "A" <=? char_val c) && (char_val c <=? char_val "F")
  then Some (char_val c - char_val "A" + 10)
  else if (char_val "a" <=? char_val c) && (char_val c <=? char_val "f")
  then Some (char_val c - char_val "a" + 10)
  else None.

(** What the encoder writes for a character outside the allowed set. *)
Definition escape_of (c : ascii) : string :=
  String "%"
    (String (make_hex_digit (Z.shiftr (char_to_unsigned_int c) 4))
       (String (make_hex_digit (Z.land (char_to_unsigned_int c) 15))
          EmptyString)).

(** The character [c] occurs in [s]. *)
Fixpoint occurs (c : ascii) (s : string) : bool :=
  match s with
  | EmptyString => false
  | String x rest => Ascii.eqb c x || occurs c rest
  end.

(** The number of characters of [s] outside [cs]. *)
Fixpoint escaped_count (cs : charset_t) (s : string) : nat :=
  match s with
  | EmptyString => O
  | String c rest =>
    if contains cs c then escaped_count cs rest
    else S (escaped_count cs rest)
  end.

(** Every character of [s] is a 7-bit character. *)
Fixpoint seven_bit (s : string) : bool :=
  match s with
  | EmptyString => true
  | String c rest => (code c <? 128) && seven_bit rest
  end.

(** The text before the first [c] (all of [s] when there is none), and the
    text after it. *)
Fixpoint before_first (c : ascii) (s : string) : string :=
  match s with
  | EmptyString => EmptyString
  | String x rest =>
    if Ascii.eqb c x then EmptyString else String x (before_first c rest)
  end.

Fixpoint after_first (c : ascii) (s : string) : option string :=
  match s with
  | EmptyString => None
  | String x rest => if Ascii.eqb c x then Some rest else after_first c rest
  end.

(** The offset that [parse_query] stores. *)
Definition query_offset (d : string) : Z :=
  match after_first "?" (before_first "#" d) with
  | Some _ => size (before_first "?" (before_first "#" d))
  | None => size d
  end.

(** No character of [s] belongs to [cs]. *)
Fixpoint none_in (cs : charset_t) (s : string) : bool :=
  match s with
  | EmptyString => true
  | String c rest => negb (contains cs c) && none_in cs rest
  end.

(** The text of the port in the authority: a colon and the digits. *)
Definition port_text (digits : option string) : string :=
  match digits with
  | Some p => String ":" p
  | None => EmptyString
  end.

(** A URI with an authority made of a host and an optional port. *)
Definition hierarchical (s h : string) (digits : option string)
    (tail : string) : string :=
  s +:+ "://" +:+ h +:+ port_text digits +:+ tail.

(** The text that the path setter writes. *)
Definition encoded_path (new_path : string) : string :=
  (if starts_with new_path "/" then EmptyString else "/")
  +:+ encode_uri_component new_path
        (charset [PCHAR_NOT_PCT_ENCODED; chars "/"]).

(** The text that the query setter writes. *)
Definition encoded_query (new_query : string) : string :=
  (if starts_with new_query "?" then EmptyString else "?")
  +:+ encode_uri_component new_query QUERY_OR_FRAGMENT_NOT_PCT_ENCODED.

(** The text that the host setter writes for the host. *)
Definition encoded_host (is_ipv6 : string -> bool) (new_host : string)
  : string :=
  let encoded := encode_uri_component new_host REG_NAME_NOT_PCT_ENCODED in
  if (negb (starts_with new_host "[") || negb (ends_with new_host "]"))
     && is_ipv6 new_host
  then "[" +:+ encoded +:+ "]"
  else encoded.

(** The text cut at every [c]. *)
Fixpoint split_on (c : ascii) (s : string) : list string :=
  match s with
  | EmptyString => [EmptyString]
  | String x rest =>
    if Ascii.eqb c x then EmptyString :: split_on c rest
    else match split_on c rest with
         | segment :: segments => String x segment :: segments
         | [] => [String x EmptyString]
         end
  end.

(** A call is stable from [u]: it returns, keeps the buffer and the
    invariant of the cache, and a second call from the state it leaves
    returns the same value and changes nothing. *)
Definition stable {A : Type} (acc : M A) (u : basic_uri) : Prop :=
  post acc u
    (fun r u' => data u' = data u /\ Inv u' /\ acc u' = (Ok r, u')).

(** A call returns and leaves the cache coherent: the buffer is the old one
    and the invariant still holds, or the buffer was rewritten and all seven
    offsets are unknown again. *)
Definition resets (m : M unit) (u : basic_uri) : Prop :=
  post m u
    (fun _ u' =>
       (data u' = data u /\ Inv u') \/ exists buffer, u' = uri_of buffer).

(** ** The offsets of the components that are present *)

(** The seven offsets, in the order of the chain. *)
Definition offsets (u : basic_uri) : list Z :=
  [scheme_end u; authority_start u; user_info_end u; port_start u;
   authority_end u; query_start u; fragment_start u].

(** The offsets of the components that are present: an absent component
    has its offset at the buffer length [n]. *)
Definition present (n : Z) (l : list Z) : list Z :=
  List.filter (fun x => negb (x =? n)) l.

(** The chain of the claim over a list of offsets: each one is at most
    the next. *)
Fixpoint non_decreasing (l : list Z) : Prop :=
  match l with
  | [] => True
  | x :: rest =>
    match rest with
    | [] => True
    | y :: _ => x <= y
    end /\ non_decreasing rest
  end.

(** The [starting_point] of [parse_path]: where the search for the slash
    that ends the authority starts. *)
Definition path_search_start (u : basic_uri) : Z :=
  if negb (authority_start u =? data_size u) then authority_start u
  else if negb (scheme_end u =? data_size u)
          && negb (scheme_end u =? npos)
       then scheme_end u
       else 0.

(** The text before the first ['?'] or ['#']. *)
Definition leading_part (d : string) : string :=
  before_first "?" (before_first "#" d).

(** The buffers in which the authority and the path are looked for before
    the query and the fragment.  The search for the path starts before the
    first ['?'] or ['#'], and it finds its slash before that mark; or there
    is no slash before the mark, and what stands from the mark on is taken
    neither for the start of the path (a query bounds the search, or no
    ['/'] stands there) nor for a part of the authority (there is no
    authority, or no ['@'] and no [':'] stands there). *)
Definition delimited (d : string) : bool :=
  let u := snd (parse_scheme (uri_of d)) in
  let start := path_search_start u in
  let head := leading_part d in
  let rest := skip (String.length head) d in
  (start <=? size head)
  && (occurs "/" (skip (Z.to_nat start) head)
      || ((starts_with rest "?" || negb (occurs "/" rest))
          && ((authority_start u =? size d)
              || none_in (chars "@:") rest))).

(** * Properties *)

(** Split a conjunction of closed facts and evaluate each of them. *)
Ltac split_all :=
  repeat match goal with
         | |- _ /\ _ => split
         end.

Ltac evaluate := intros; vm_compute; exact eq_refl.

(** ** The percent codec *)

Lemma append_cons (x : ascii) (s t : string) :
  String x s +:+ t = String x (s +:+ t).
Proof. reflexivity. Qed.

Lemma push_back_assoc (res : string) (c : ascii) (rest : string) :
  push_back res c +:+ rest = res +:+ String c rest.
Proof.
  unfold push_back. induction res as [|x res IH].
  - reflexivity.
  - now rewrite !append_cons, IH.
Qed.

Lemma append_empty_r (s : string) : s +:+ EmptyString = s.
Proof.
  induction s as [|x s IH]; [reflexivity | now rewrite append_cons, IH].
Qed.

Section Codec.

Variable allowed : charset_t.

(** Outside an escape, a text of allowed characters without a percent sign
    is copied by the decoder. *)
Lemma decode_loop_literal (text : string) :
  all_in allowed text = true ->
  contains allowed "%" = false ->
  forall (digits_left decoded_char : Z) (res : string),
    decode_loop allowed text digits_left decoded_char false res
    = Some (res +:+ text).
Proof.
  intros Hall Hpct.
  induction text as [|c text IH]; intros dl dc res; cbn [decode_loop andb].
  - now rewrite append_empty_r.
  - cbn [all_in] in Hall. apply andb_prop in Hall as [Hc Hrest].
    destruct (Ascii.eqb c "%") eqn:E.
    + apply Ascii.eqb_eq in E. subst c. congruence.
    + rewrite Hc. cbn [negb]. rewrite (IH Hrest).
      now rewrite push_back_assoc.
Qed.

(** The encoder copies a text of allowed characters. *)
Lemma encode_loop_literal (text : string) :
  all_in allowed text = true ->
  forall acc : string, encode_loop allowed text acc = acc +:+ text.
Proof.
  induction text as [|c text IH]; intros Hall acc; cbn [encode_loop].
  - now rewrite append_empty_r.
  - cbn [all_in] in Hall. apply andb_prop in Hall as [Hc Hrest].
    rewrite Hc, (IH Hrest). now rewrite push_back_assoc.
Qed.

(** One step of the decoder inside an escape, on a character that is not
    a hexadecimal digit. *)
Lemma decode_loop_bad_digit (c : ascii) (rest : string)
    (digits_left decoded_char : Z) (res : string) :
  is_hex c = false ->
  digits_left <> 0 ->
  decode_loop allowed (String c rest) digits_left decoded_char true res
  = None.
Proof.
  intros Hhex Hdl. simpl.
  apply Z.eqb_neq in Hdl. rewrite Hdl. simpl.
  unfold is_hex in Hhex.
  apply orb_false_elim in Hhex as [Hhex Hlow].
  apply orb_false_elim in Hhex as [Hdig Hup].
  now rewrite Hdig, Hup, Hlow.
Qed.

(** A percent sign followed by a character that is not a hexadecimal digit
    fails the whole decode, wherever it stands in the input. *)
Lemma decode_loop_rejects_non_hex (pre : string) (c : ascii) (rest : string) :
  is_hex c = false ->
  forall (digits_left decoded_char : Z) (decoding : bool) (res : string),
    decoder_state_ok digits_left decoding ->
    decode_loop allowed (pre +:+ String "%" (String c rest))
      digits_left decoded_char decoding res = None.
Proof.
  intros Hhex.
  induction pre as [|x pre IH]; intros dl dc dec res Hst.
  - change (EmptyString +:+ String "%" (String c rest))
      with (String "%"%char (String c rest)).
    destruct dec.
    + apply decode_loop_bad_digit; [reflexivity |].
      destruct Hst as [H | [H | H]]; [discriminate | lia | lia].
    + cbn [decode_loop andb Ascii.eqb Bool.eqb].
      apply decode_loop_bad_digit; [exact Hhex | lia].
  - change (String x pre +:+ String "%" (String c rest))
      with (String x (pre +:+ String "%" (String c rest))).
    cbn [decode_loop].
    destruct (dec && negb (dl =? 0)) eqn:Hesc.
    + apply andb_prop in Hesc as [Hdec Hnz]. subst dec.
      destruct Hst as [H | Hdl]; [discriminate |].
      repeat match goal with
             | |- context [if ?b then _ else _] => destruct b eqn:?
             end;
        try reflexivity; apply IH; unfold decoder_state_ok;
        try (left; reflexivity);
        match goal with
        | H : (_ - 1 =? 0) = false |- _ => apply Z.eqb_neq in H
        end; right; left; lia.
    + destruct (Ascii.eqb x "%").
      * apply IH. right; right; reflexivity.
      * destruct (negb (contains allowed x)); [reflexivity |].
        apply IH. exact Hst.
Qed.

End Codec.

Lemma percent_not_allowed_in_uri :
  contains ALLOWED_CHARACTERS_IN_URI "%" = false.
Proof. reflexivity. Qed.

(** X1: a malformed escape with a non-hexadecimal digit makes
    [decode_uri_component] return [std::nullopt], for every character set
    and wherever the escape stands in the input. *)
Lemma decode_rejects_non_hex (allowed : charset_t) (pre : string) (c : ascii)
    (rest : string) :
  is_hex c = false ->
  decode_uri_component (pre +:+ String "%" (String c rest)) allowed = None.
Proof.
  intros Hhex. unfold decode_uri_component.
  apply decode_loop_rejects_non_hex; [exact Hhex | left; reflexivity].
Qed.

(** C2: [decode_uri_component] does not fail on an escape that the end of
    the input cuts short: for ["%2"] it returns the empty string, and for
    ["ab%2"] the partial output ["ab"], where the claim requires none. *)
Theorem decode_truncated_escape_returns :
  decode_uri_component "%2" ALLOWED_CHARACTERS_IN_URI = Some EmptyString
  /\ decode_uri_component "%" ALLOWED_CHARACTERS_IN_URI = Some EmptyString
  /\ decode_uri_component "ab%2" ALLOWED_CHARACTERS_IN_URI = Some "ab".
Proof. split_all; evaluate. Qed.

(** C5: for a text built only from [ALLOWED_CHARACTERS_IN_URI], decoding
    the encoded text gives the text back. *)
Theorem encode_decode_roundtrip (text : string) :
  all_in ALLOWED_CHARACTERS_IN_URI text = true ->
  decode_uri_component
    (encode_uri_component text ALLOWED_CHARACTERS_IN_URI)
    ALLOWED_CHARACTERS_IN_URI
  = Some text.
Proof.
  intros Hall.
  unfold encode_uri_component, decode_uri_component.
  rewrite (encode_loop_literal _ _ Hall).
  change (EmptyString +:+ text) with text.
  rewrite (decode_loop_literal _ _ Hall percent_not_allowed_in_uri).
  reflexivity.
Qed.

Lemma encode_decode_roundtrip_witness :
  all_in ALLOWED_CHARACTERS_IN_URI "foo://example.com:8042/over/there?name=ferret#nose"
  = true
  /\ decode_uri_component
       (encode_uri_component
          "foo://example.com:8042/over/there?name=ferret#nose"
          ALLOWED_CHARACTERS_IN_URI)
       ALLOWED_CHARACTERS_IN_URI
     = Some "foo://example.com:8042/over/there?name=ferret#nose".
Proof.
  split.
  - vm_compute. reflexivity.
  - apply (encode_decode_roundtrip
             "foo://example.com:8042/over/there?name=ferret#nose").
    vm_compute. reflexivity.
Defined.

(** ** [size_t] arithmetic without wrap-around *)

Lemma modulus_value : SizeT.modulus = 18446744073709551616.
Proof. reflexivity. Qed.

Lemma npos_value : npos = 18446744073709551615.
Proof. reflexivity. Qed.

Lemma max_size_value : SizeT.max_size = 4611686018427387904.
Proof. reflexivity. Qed.

Lemma add_exact (a b : Z) :
  0 <= a + b < SizeT.modulus -> SizeT.add a b = a + b.
Proof. intros H. unfold SizeT.add, SizeT.wrap. now apply Z.mod_small. Qed.

Lemma sub_exact (a b : Z) :
  0 <= a - b < SizeT.modulus -> SizeT.sub a b = a - b.
Proof. intros H. unfold SizeT.sub, SizeT.wrap. now apply Z.mod_small. Qed.

Lemma sub_range (a b : Z) : 0 <= SizeT.sub a b < SizeT.modulus.
Proof.
  unfold SizeT.sub, SizeT.wrap. apply Z.mod_pos_bound.
  rewrite modulus_value. lia.
Qed.

Lemma add_range (a b : Z) : 0 <= SizeT.add a b < SizeT.modulus.
Proof.
  unfold SizeT.add, SizeT.wrap. apply Z.mod_pos_bound.
  rewrite modulus_value. lia.
Qed.

(** ** Lengths and search results *)

Lemma size_nonneg (s : string) : 0 <= size s.
Proof. unfold size. lia. Qed.

Lemma length_skip (n : nat) (s : string) :
  String.length (skip n s) = (String.length s - n)%nat.
Proof.
  revert s. induction n as [|n IH]; intros [|c s]; simpl; try lia.
  apply IH.
Qed.

Lemma length_first_n (n : nat) (s : string) :
  String.length (first_n n s) = Nat.min n (String.length s).
Proof.
  revert s. induction n as [|n IH]; intros [|c s]; simpl; try lia.
  now rewrite IH.
Qed.

Lemma find_if_bound (p : ascii -> bool) (s : string) (i : nat) :
  find_if p s = Some i -> (i < String.length s)%nat.
Proof.
  revert i. induction s as [|c s IH]; intros i; simpl.
  - discriminate.
  - destruct (p c).
    + intros [= <-]. lia.
    + destruct (find_if p s) as [j|]; [|discriminate].
      intros [= <-]. specialize (IH j eq_refl). lia.
Qed.

Lemma find_last_if_bound (p : ascii -> bool) (s : string) (i : nat) :
  find_last_if p s = Some i -> (i < String.length s)%nat.
Proof.
  revert i. induction s as [|c s IH]; intros i; simpl.
  - discriminate.
  - destruct (find_last_if p s) as [j|].
    + intros [= <-]. specialize (IH j eq_refl). lia.
    + destruct (p c); [|discriminate]. intros [= <-]. lia.
Qed.

(** A search from the start of a view finds a position inside it, or
    nothing. *)
Lemma sv_find_bound (s : string) (c : ascii) :
  sv_find s c 0 = npos \/ 0 <= sv_find s c 0 < size s.
Proof.
  unfold sv_find, index_or_npos.
  destruct (size s <=? 0); [left; reflexivity |].
  change (Z.to_nat 0) with O. change (skip 0 s) with s.
  destruct (find_if (Ascii.eqb c) s) as [i|] eqn:E; [|left; reflexivity].
  right. apply find_if_bound in E. unfold size. lia.
Qed.

Lemma sv_find_last_of_bound (s : string) (c : ascii) :
  sv_find_last_of s c = npos \/ 0 <= sv_find_last_of s c < size s.
Proof.
  unfold sv_find_last_of, index_or_npos.
  destruct (find_last_if (Ascii.eqb c) s) as [i|] eqn:E; [|left; reflexivity].
  right. apply find_last_if_bound in E. unfold size. lia.
Qed.

(** [substr] inside the buffer returns a view that is no longer than asked
    for and does not leave the buffer. *)
Lemma sv_substr_ok (s : string) (pos n : Z) :
  0 <= pos <= size s -> 0 <= n ->
  exists t : string,
    sv_substr s pos n = Ok t /\ size t <= n /\ size t <= size s - pos.
Proof.
  intros Hpos Hn. unfold sv_substr.
  destruct (Z.ltb_spec (size s) pos) as [H | _]; [lia |].
  eexists. split; [reflexivity |].
  unfold size in *. rewrite length_first_n, length_skip. lia.
Qed.

Lemma starts_with_size (s prefix : string) :
  starts_with s prefix = true -> size prefix <= size s.
Proof.
  unfold starts_with. intros H. apply String.eqb_eq in H.
  apply (f_equal String.length) in H. rewrite length_first_n in H.
  unfold size. lia.
Qed.

(** ** A program logic for member functions *)

Section Rules.

Context {S A B : Type}.

Lemma post_ret (a : A) (u : S) (Q : A -> S -> Prop) :
  Q a u -> post (ret a) u Q.
Proof. intros H. exists a, u. split; [reflexivity | exact H]. Qed.

Lemma post_gets (f : S -> A) (u : S) (Q : A -> S -> Prop) :
  Q (f u) u -> post (gets f) u Q.
Proof. intros H. exists (f u), u. split; [reflexivity | exact H]. Qed.

Lemma post_modify (f : S -> S) (u : S) (Q : unit -> S -> Prop) :
  Q tt (f u) -> post (modify f) u Q.
Proof. intros H. exists tt, (f u). split; [reflexivity | exact H]. Qed.

Lemma post_lift (o : outcome A) (a : A) (u : S) (Q : A -> S -> Prop) :
  o = Ok a -> Q a u -> post (lift o) u Q.
Proof. intros -> H. exists a, u. split; [reflexivity | exact H]. Qed.

Lemma post_bind (m : St S A) (f : A -> St S B) (u : S)
    (Q : B -> S -> Prop) :
  post m u (fun a u' => post (f a) u' Q) -> post (bind m f) u Q.
Proof.
  intros (a & u' & Hm & b & u'' & Hf & HQ).
  exists b, u''. split; [|exact HQ].
  unfold bind. rewrite Hm. exact Hf.
Qed.

Lemma post_noexcept (m : St S A) (u : S) (Q : A -> S -> Prop) :
  post m u Q -> post (noexcept m) u Q.
Proof.
  intros (a & u' & Hm & HQ). exists a, u'. split; [|exact HQ].
  unfold noexcept. now rewrite Hm.
Qed.

Lemma post_weaken (m : St S A) (u : S) (Q Q' : A -> S -> Prop) :
  post m u Q -> (forall a u', Q a u' -> Q' a u') -> post m u Q'.
Proof.
  intros (a & u' & Hm & HQ) Himp. exists a, u'. split; [exact Hm|].
  now apply Himp.
Qed.

Lemma post_value (m : St S A) (u : S) (Q : A -> S -> Prop) :
  post m u Q -> exists a, fst (m u) = Ok a /\ Q a (snd (m u)).
Proof. intros (a & u' & Hm & HQ). exists a. rewrite Hm. now split. Qed.

End Rules.

(** One step of symbolic execution. *)
Ltac step :=
  lazymatch goal with
  | |- post (bind _ _) _ _ => apply post_bind
  | |- post (ret _) _ _ => apply post_ret
  | |- post (gets _) _ _ => apply post_gets
  | |- post (modify _) _ _ => apply post_modify
  | |- post (noexcept _) _ _ => apply post_noexcept
  end.

Ltac steps := repeat step.

(** The member [substr] returns when its start is inside the buffer, and
    leaves the URI alone. *)
Lemma substr_post (start len : Z) (u : basic_uri) :
  0 <= start <= data_size u -> 0 <= len ->
  post (substr start len) u (fun t u' => u' = u /\ size t <= len).
Proof.
  intros Hstart Hlen. unfold substr. step.
  destruct (Z.eqb_spec len 0) as [-> | Hne].
  - step. split; [reflexivity |]. change (size EmptyString) with 0. lia.
  - steps.
    destruct (sv_substr_ok (data u) start len Hstart Hlen)
      as (t & Ht & Hsz & _).
    eapply post_lift; [exact Ht |]. now split.
Qed.

(** [replace_value] either returns at once, or it rewrites the buffer in
    one step and forgets all seven offsets. *)
Lemma replace_value_resets (start len : Z) (replacement : string)
    (u : basic_uri) :
  0 <= start -> 0 <= len ->
  post (replace_value start len replacement) u
    (fun _ u' => u' = u \/ exists buffer : string, u' = uri_of buffer).
Proof.
  intros Hstart Hlen. unfold replace_value, unparse. step.
  destruct ((start =? npos) || (len =? npos)
            || ((len =? 0) && empty replacement)).
  - step. now left.
  - step. unfold substr at 1. step.
    destruct (Z.eqb_spec start 0) as [-> | Hne].
    + steps. cbv beta.
      pose proof (size_nonneg (data u)) as Hsz.
      pose proof (add_range 0 len) as Hadd.
      eapply post_weaken.
      * apply substr_post; [unfold data_size; lia | rewrite npos_value; lia].
      * intros t u' [-> _]. steps. right. eexists. reflexivity.
    + steps.
      pose proof (size_nonneg (data u)) as Hsz.
      pose proof (add_range start len) as Hadd.
      destruct (sv_substr_ok (data u) 0 start ltac:(lia) Hstart)
        as (t & Ht & _).
      eapply post_lift; [exact Ht |]. steps.
      eapply post_weaken.
      * apply substr_post; [unfold data_size; lia | rewrite npos_value; lia].
      * intros t' u' [-> _]. steps. right. eexists. reflexivity.
Qed.

(** ** The offset parsing engine keeps its invariant *)

Ltac unfold_fields :=
  cbn [data scheme_end authority_start user_info_end port_start
       authority_end query_start fragment_start
       set_data set_scheme_end set_authority_start set_user_info_end
       set_port_start set_authority_end set_query_start set_fragment_start]
    in *.

Ltac unfold_stages :=
  unfold port_ok, user_info_ok, path_ok, query_ok,
    port_own, user_info_own, path_own, scheme_ok, query_own, fragment_ok,
    data_size in *;
  unfold_fields.

(** Linear arithmetic over the offsets, with the three constants. *)
Ltac arith :=
  unfold_stages;
  pose proof npos_value; pose proof max_size_value; pose proof modulus_value;
  lia.

Ltac clear_disjunctions :=
  repeat match goal with
         | H : _ \/ _ |- _ => clear H
         end.

Ltac split_hypotheses :=
  repeat match goal with
         | H : _ /\ _ |- _ => destruct H
         end.

(** Forget the conditional facts; negated equalities stay. *)
Ltac clear_implications :=
  repeat match goal with
         | H : ?P -> ?Q |- _ =>
           lazymatch Q with
           | False => fail
           | _ => clear H
           end
         end.

(** One conjunct of the invariant: it is the old one, or the old one with
    its offset still unknown, or it follows from the old one and the plain
    facts at hand, or (for the offset just derived) from all the facts. *)
Ltac conjunct I :=
  first
    [ exact I
    | destruct I as [I | I];
      [ left; exact I
      | right; clear_disjunctions; clear_implications; arith ]
    | right; clear_disjunctions; arith ].

Ltac invariant HI :=
  unfold Inv in HI |- *; unfold_stages;
  let Hn := fresh "Hn" in
  let Ifs := fresh "Ifs" in
  let Iqs := fresh "Iqs" in
  let Ise := fresh "Ise" in
  let Iae := fresh "Iae" in
  let Iue := fresh "Iue" in
  let Ips := fresh "Ips" in
  destruct HI as (Hn & Ifs & Iqs & Ise & Iae & Iue & Ips);
  split_hypotheses;
  split; [exact Hn |];
  split; [conjunct Ifs |];
  split; [conjunct Iqs |];
  split; [conjunct Ise |];
  split; [conjunct Iae |];
  split; [conjunct Iue |];
  conjunct Ips.

Lemma Inv_uri_of (s : string) : size s < SizeT.max_size -> Inv (uri_of s).
Proof.
  intros H. unfold Inv, uri_of, data_size. unfold_fields.
  split; [exact H |]. repeat split; left; reflexivity.
Qed.

Lemma Inv_size (u : basic_uri) : Inv u -> 0 <= data_size u < SizeT.max_size.
Proof.
  intros (Hn & _). pose proof (size_nonneg (data u)).
  unfold data_size in *. lia.
Qed.

(** A known offset carries what its parsing function established. *)
Lemma Inv_fragment_ok (u : basic_uri) :
  Inv u -> fragment_start u <> npos -> fragment_ok u.
Proof. intros (_ & [H | H] & _) Hk; [contradiction | exact H]. Qed.

Lemma Inv_query_ok (u : basic_uri) :
  Inv u -> query_start u <> npos -> query_ok u.
Proof.
  intros HI Hk. pose proof (Inv_fragment_ok u HI) as Hf.
  destruct HI as (_ & _ & [H | (Hfs & H)] & _); [contradiction |].
  split; [exact (Hf Hfs) | exact H].
Qed.

Lemma Inv_scheme_ok (u : basic_uri) :
  Inv u -> scheme_end u <> npos -> scheme_ok u.
Proof. intros (_ & _ & _ & [H | H] & _) Hk; [contradiction | exact H]. Qed.

Lemma Inv_path_ok (u : basic_uri) :
  Inv u -> authority_end u <> npos -> path_ok u.
Proof.
  intros HI Hk. pose proof (Inv_query_ok u HI) as Hq.
  pose proof (Inv_scheme_ok u HI) as Hs.
  destruct HI as (_ & _ & _ & _ & [H | (Hse & Hqs & H)] & _);
    [contradiction |].
  split; [exact (Hs Hse) | split; [exact (Hq Hqs) | exact H]].
Qed.

Lemma Inv_user_info_ok (u : basic_uri) :
  Inv u -> user_info_end u <> npos -> user_info_ok u.
Proof.
  intros HI Hk. pose proof (Inv_path_ok u HI) as Hp.
  pose proof (Inv_scheme_ok u HI) as Hs.
  destruct HI as (_ & _ & _ & _ & _ & [H | (Hse & Hae & H)] & _);
    [contradiction |].
  split; [exact (Hs Hse) | split; [exact H |]].
  intros Has. exact (Hp (Hae Has)).
Qed.

Lemma Inv_port_ok (u : basic_uri) :
  Inv u -> port_start u <> npos -> port_ok u.
Proof.
  intros HI Hk. pose proof (Inv_user_info_ok u HI) as Hu.
  destruct HI as (_ & _ & _ & _ & _ & _ & [H | (Hue & _ & _ & H)]);
    [contradiction |].
  split; [exact (Hu Hue) | exact H].
Qed.

(** The result of a search in a view, as an abstract offset. *)
Ltac search_result t c v Hf :=
  pose proof (sv_find_bound t c) as Hf;
  revert Hf; generalize (sv_find t c 0); intros v Hf.

Ltac was_found Hf NE :=
  destruct Hf as [Hf | Hf]; [contradiction |]; clear NE.

Lemma parse_fragment_post (u : basic_uri) :
  Inv u ->
  post parse_fragment u
    (fun _ u' =>
       (exists v, u' = set_fragment_start v u
                  /\ (fragment_start u <> npos -> v = fragment_start u))
       /\ Inv u' /\ fragment_ok u').
Proof.
  intros HI. pose proof (Inv_size u HI) as Hsz.
  destruct u as [d se as_ ue ps ae qs fs].
  unfold parse_fragment. steps. unfold data_size in Hsz. unfold_fields.
  destruct (Z.eqb_spec fs npos) as [E | NE]; cbn [negb].
  - steps. unfold_fields. search_result d "#"%char v Hf.
    destruct (Z.eqb_spec v npos) as [E' | NE'].
    + clear Hf. step.
      split; [eexists; split; [reflexivity | intros; contradiction] |].
      split; [invariant HI | arith].
    + was_found Hf NE'. step.
      split; [eexists; split; [reflexivity | intros; contradiction] |].
      split; [invariant HI | arith].
  - step.
    split; [exists fs; split; reflexivity |].
    split; [exact HI | exact (Inv_fragment_ok _ HI NE)].
Qed.

Lemma parse_query_post (u : basic_uri) :
  Inv u ->
  post parse_query u
    (fun _ u' =>
       (exists vq vf,
           u' = set_query_start vq (set_fragment_start vf u)
           /\ (query_start u <> npos ->
               vq = query_start u /\ vf = fragment_start u)
           /\ (fragment_start u <> npos -> vf = fragment_start u))
       /\ Inv u' /\ query_ok u').
Proof.
  intros HI. pose proof (Inv_size u HI) as Hsz.
  destruct u as [d se as_ ue ps ae qs fs].
  unfold parse_query. steps. unfold data_size in Hsz. unfold_fields.
  destruct (Z.eqb_spec qs npos) as [E | NE]; cbn [negb].
  - step. eapply post_weaken; [apply parse_fragment_post; exact HI |].
    intros [] u1 ((vf & -> & Hk) & HI1 & Hf1). cbv beta.
    unfold set_fragment_start in *. unfold_fields. steps. unfold_fields.
    destruct (sv_substr_ok d 0 vf) as (t & Ht & Hlen & _);
      [arith | arith |].
    eapply post_lift; [exact Ht |].
    search_result t "?"%char vq Hf.
    destruct (Z.eqb_spec vq npos) as [E' | NE'].
    + clear Hf. step.
      split; [exists (size d), vf;
              split; [reflexivity | split; [intros; contradiction | exact Hk]] |].
      clear Hk. split; [invariant HI1 | arith].
    + was_found Hf NE'. step.
      split; [exists vq, vf;
              split; [reflexivity | split; [intros; contradiction | exact Hk]] |].
      clear Hk. split; [invariant HI1 | arith].
  - step.
    split; [exists qs, fs; split; [reflexivity | now split] |].
    split; [exact HI | exact (Inv_query_ok _ HI NE)].
Qed.

(** A search that ends at position 0 has found its character there. *)
Lemma sv_find_zero (s : string) (c : ascii) :
  sv_find s c 0 = 0 -> sv_at s 0 = c.
Proof.
  unfold sv_find, sv_at, index_or_npos.
  destruct (size s <=? 0); [rewrite npos_value; discriminate |].
  change (Z.to_nat 0) with O. change (skip 0 s) with s.
  destruct s as [|x r]; cbn [find_if String.get].
  - rewrite npos_value. discriminate.
  - destruct (Ascii.eqb_spec c x) as [-> | _]; [reflexivity |].
    destruct (find_if (Ascii.eqb c) r); [lia | rewrite npos_value; discriminate].
Qed.

Lemma colon_is_not_alpha : contains ALPHA ":" = false.
Proof. reflexivity. Qed.

(** The test of [parse_scheme] on the scheme candidate returns and leaves
    the URI alone. *)
Lemma scheme_test_post (d sch : string) (colon : Z) (u : basic_uri) :
  0 <= colon -> size sch <= colon ->
  (colon = 0 -> sv_at d 0 = ":"%char) ->
  (colon <> 0 -> 1 <= size sch) ->
  post
    (if contains ALPHA (sv_at d 0)
     then
       do tail <- lift (sv_substr sch 1 npos);
       ret (negb (sv_find_first_not_of tail SCHEME_NOT_FIRST =? 0))
     else ret false)
    u (fun _ u' => u' = u).
Proof.
  intros Hcolon Hlen Hzero Hpos.
  destruct (contains ALPHA (sv_at d 0)) eqn:Halpha.
  - assert (colon <> 0) as Hnz.
    { intros ->. rewrite (Hzero eq_refl), colon_is_not_alpha in Halpha.
      discriminate. }
    specialize (Hpos Hnz). step.
    destruct (sv_substr_ok sch 1 npos) as (tl & Htl & _);
      [lia | rewrite npos_value; lia |].
    eapply post_lift; [exact Htl |]. step. reflexivity.
  - step. reflexivity.
Qed.

Lemma first_n_all (s : string) (n : nat) :
  (String.length s <= n)%nat -> first_n n s = s.
Proof.
  revert n. induction s as [|c s IH]; intros [|n] H; cbn in *; try lia;
    try reflexivity.
  now rewrite IH by lia.
Qed.

(** The view of the first [colon] characters has [colon] characters when
    the colon lies inside the buffer. *)
Lemma sv_substr_prefix (d : string) (colon : Z) :
  0 <= colon <= size d ->
  exists sch, sv_substr d 0 colon = Ok sch /\ size sch = colon.
Proof.
  intros H. unfold sv_substr.
  destruct (Z.ltb_spec (size d) 0) as [Hneg | _];
    [pose proof (size_nonneg d); lia |].
  eexists. split; [reflexivity |].
  unfold size in *. change (Z.to_nat 0) with O. change (skip 0 d) with d.
  rewrite length_first_n. lia.
Qed.

Lemma parse_scheme_post (u : basic_uri) :
  Inv u ->
  post parse_scheme u
    (fun _ u' =>
       (exists vs va,
           u' = set_scheme_end vs (set_authority_start va u)
           /\ (scheme_end u <> npos ->
               vs = scheme_end u /\ va = authority_start u))
       /\ Inv u' /\ scheme_ok u').
Proof.
  intros HI. pose proof (Inv_size u HI) as Hsz.
  destruct u as [d se as_ ue ps ae qs fs].
  unfold parse_scheme. steps. unfold data_size in Hsz. unfold_fields.
  destruct (Z.eqb_spec se npos) as [E | NE]; cbn [negb].
  - assert (Hnone :
      post
        (do _ <- modify (fun u => set_authority_start (data_size u) u);
         modify (fun u => set_scheme_end (authority_start u) u))
        (mk_uri d se as_ ue ps ae qs fs)
        (fun _ u' =>
           (exists vs va,
               u' = set_scheme_end vs
                      (set_authority_start va (mk_uri d se as_ ue ps ae qs fs))
               /\ (se <> npos -> vs = se /\ va = as_))
           /\ Inv u' /\ scheme_ok u')).
    { steps. unfold data_size. unfold_fields.
      split; [exists (size d), (size d);
              split; [reflexivity | intros; contradiction] |].
      split; [invariant HI | arith]. }
    steps. unfold_fields.
    destruct (starts_with d "//") eqn:Hslashes.
    + apply starts_with_size in Hslashes. change (size "//") with 2 in Hslashes.
      clear Hnone. steps. unfold data_size. unfold_fields.
      split; [exists (size d), 2; split; [reflexivity | intros; contradiction] |].
      split; [invariant HI | arith].
    + clear Hslashes.
      pose proof (sv_find_zero d ":") as Hzero.
      pose proof (sv_find_bound d ":") as Hf.
      revert Hf Hzero. generalize (sv_find d ":" 0). intros colon Hf Hzero.
      destruct (Z.eqb_spec colon npos) as [E' | NE']; cbn [negb];
        [exact Hnone |].
      was_found Hf NE'. step.
      destruct (sv_substr_prefix d colon) as (sch & Hsch & Hlen); [lia |].
      eapply post_lift; [exact Hsch |]. step.
      eapply post_weaken;
        [apply (scheme_test_post d sch colon); [lia | lia | exact Hzero | lia] |].
      intros accepted u' ->. cbv beta. clear Hzero Hsch Hlen sch.
      destruct accepted; [clear Hnone | exact Hnone].
      steps.
      assert (Hadd1 : SizeT.add colon 1 = colon + 1)
        by (apply add_exact; arith).
      assert (Hadd3 : SizeT.add colon 3 = colon + 3)
        by (apply add_exact; arith).
      rewrite Hadd1, Hadd3. clear Hadd1 Hadd3. unfold_fields.
      destruct (sv_substr_ok d (colon + 1) 2) as (nxt & Hnxt & _ & Hnlen);
        [lia | lia |].
      eapply post_lift; [exact Hnxt |]. clear Hnxt.
      destruct (String.eqb_spec nxt "//") as [Heq | Hne].
      * subst nxt. change (size "//") with 2 in Hnlen.
        step. unfold_fields.
        split; [exists colon, (colon + 3);
                split; [reflexivity | intros; contradiction] |].
        split; [invariant HI | arith].
      * clear Hnlen Hne. step. unfold data_size. unfold_fields.
        split; [exists colon, (size d);
                split; [reflexivity | intros; contradiction] |].
        split; [invariant HI | arith].
  - step.
    split; [exists se, as_; split; [reflexivity | now split] |].
    split; [exact HI | exact (Inv_scheme_ok _ HI NE)].
Qed.

Lemma parse_path_post (u : basic_uri) :
  Inv u ->
  post parse_path u
    (fun _ u' =>
       (exists vs va vq vf ve,
           u' = set_authority_end ve
                  (set_query_start vq
                     (set_fragment_start vf
                        (set_scheme_end vs (set_authority_start va u))))
           /\ (scheme_end u <> npos ->
               vs = scheme_end u /\ va = authority_start u))
       /\ Inv u' /\ path_ok u').
Proof.
  intros HI. pose proof (Inv_size u HI) as Hsz.
  destruct u as [d se as_ ue ps ae qs fs].
  unfold parse_path. steps. unfold data_size in Hsz. unfold_fields.
  destruct (Z.eqb_spec ae npos) as [E | NE]; cbn [negb].
  - step. eapply post_weaken; [apply parse_scheme_post; exact HI |].
    intros [] u1 ((vs & va & -> & Hks) & HI1 & Hs1). cbv beta.
    unfold set_scheme_end, set_authority_start in *. unfold_fields.
    step. eapply post_weaken; [apply parse_query_post; exact HI1 |].
    intros [] u2 ((vq & vf & -> & _ & _) & HI2 & Hq2). cbv beta.
    unfold set_query_start, set_fragment_start in *. unfold_fields.
    clear HI HI1.
    steps. unfold id, data_size. unfold_fields.
    set (starting_point :=
           if negb (va =? size d) then va
           else if negb (vs =? size d) && negb (vs =? npos) then vs else 0).
    assert (Hsp : 0 <= starting_point <= size d
                  /\ (va <> size d -> starting_point = va)
                  /\ (va = size d -> vs <> size d -> starting_point = vs)
                  /\ (va = size d -> vs = size d -> starting_point = 0)).
    { subst starting_point. clear Hks Hq2.
      destruct (Z.eqb_spec va (size d)); cbn [negb];
        [| split; [arith | split; [reflexivity | split; contradiction]]].
      destruct (Z.eqb_spec vs (size d)); cbn [negb andb];
        [split; [arith | split; [contradiction | split; [contradiction |]]];
         reflexivity |].
      destruct (Z.eqb_spec vs npos); cbn [negb];
        (split; [arith | split; [contradiction | split; [| contradiction]]];
         try reflexivity; arith). }
    clearbody starting_point.
    pose proof (sub_range vq starting_point) as Hsub.
    destruct (sv_substr_ok d starting_point (SizeT.sub vq starting_point))
      as (range & Hrange & Hlen' & Hlen); [lia | lia |].
    assert (Hbefore : starting_point <= vq ->
                      size range <= vq - starting_point).
    { intros Hle. rewrite sub_exact in Hlen' by (clear Hks; arith).
      exact Hlen'. }
    eapply post_lift; [exact Hrange |]. clear Hrange Hsub Hlen'.
    search_result range "/"%char found Hf.
    destruct (Z.eqb_spec found npos) as [E' | NE'].
    + clear Hf Hlen Hbefore. step. unfold data_size. unfold_fields.
      split; [exists vs, va, vq, vf, (size d);
              split; [reflexivity | exact Hks] |].
      clear Hks. split; [invariant HI2 | arith].
    + was_found Hf NE'. step.
      assert (Hadd : SizeT.add found starting_point = found + starting_point)
        by (apply add_exact; clear Hks; arith).
      rewrite Hadd. clear Hadd.
      split; [exists vs, va, vq, vf, (found + starting_point);
              split; [reflexivity | exact Hks] |].
      clear Hks.
      assert (Hnew : 0 <= found + starting_point <= size d
                     /\ (va <> size d -> va <= found + starting_point)
                     /\ ((va <> size d -> va <= vq) ->
                         (va = size d -> vs <> size d -> vs <= vq) ->
                         found + starting_point < vq)).
      { split; [clear HI2 Hs1 Hq2 Hbefore; arith |].
        split; [clear HI2 Hs1 Hq2 Hbefore; arith |].
        intros Hauth Hsch.
        assert (starting_point <= vq) as Hle
          by (clear HI2 Hbefore Hlen Hf; arith).
        specialize (Hbefore Hle). lia. }
      revert Hnew. generalize (found + starting_point).
      clear Hf Hlen Hbefore Hsp found starting_point. intros ve Hnew.
      split; [invariant HI2 | arith].
  - step. unfold set_authority_end, set_query_start, set_fragment_start,
            set_scheme_end, set_authority_start. unfold_fields.
    split; [exists se, as_, qs, fs, ae; split; [reflexivity | now split] |].
    split; [exact HI | exact (Inv_path_ok _ HI NE)].
Qed.

Lemma user_info_ok_intro (d : string) (se va vu ps ve vq vf : Z) :
  path_ok (mk_uri d se va npos ps ve vq vf) \/ va = size d ->
  scheme_ok (mk_uri d se va npos ps ve vq vf) ->
  user_info_own (mk_uri d se va vu ps ve vq vf) ->
  user_info_ok (mk_uri d se va vu ps ve vq vf).
Proof.
  intros Hp Hs Hown. split; [exact Hs |]. split; [exact Hown |].
  intros Hauth. destruct Hp as [Hp | Hp]; [exact Hp | contradiction].
Qed.

Lemma parse_user_info_post (u : basic_uri) :
  Inv u ->
  post parse_user_info u
    (fun _ u' => data u' = data u /\ Inv u' /\ user_info_ok u').
Proof.
  intros HI. pose proof (Inv_size u HI) as Hsz.
  destruct u as [d se as_ ue ps ae qs fs].
  unfold parse_user_info. steps. unfold data_size in Hsz. unfold_fields.
  destruct (Z.eqb_spec ue npos) as [E | NE]; cbn [negb].
  - subst ue.
    step. eapply post_weaken; [apply parse_scheme_post; exact HI |].
    intros [] u1 ((vs & va & -> & _) & HI1 & Hs1). cbv beta.
    unfold set_scheme_end, set_authority_start in *. unfold_fields.
    clear HI.
    assert (Hk : vs <> npos) by arith.
    steps. unfold id, data_size. unfold_fields.
    destruct (Z.eqb_spec va (size d)) as [Hno | Hauth].
    + step. unfold data_size. unfold_fields.
      split; [reflexivity |].
      split; [invariant HI1 |].
      apply user_info_ok_intro; [right; exact Hno | exact Hs1 | arith].
    + step. eapply post_weaken; [apply parse_path_post; exact HI1 |].
      intros [] u2 ((vs' & va' & vq & vf & ve & -> & Hks') & HI2 & Hp2).
      cbv beta. unfold_fields.
      destruct (Hks' Hk) as [-> ->]. clear Hks' HI1.
      unfold set_authority_end, set_query_start, set_fragment_start,
        set_scheme_end, set_authority_start in *. unfold_fields.
      assert (Hbase : 0 <= va <= ve /\ ve <= size d)
        by (clear HI2; arith).
      steps. unfold id. unfold_fields.
      assert (Hsub : SizeT.sub ve va = ve - va)
        by (apply sub_exact; clear HI2 Hs1 Hp2; arith).
      rewrite Hsub. clear Hsub.
      destruct (sv_substr_ok d va (ve - va)) as (range & Hrange & Hlen & _);
        [lia | lia |].
      eapply post_lift; [exact Hrange |]. clear Hrange.
      search_result range "@"%char found Hf.
      destruct (Z.eqb_spec found npos) as [E' | NE'].
      * clear Hf Hlen. step. unfold data_size. unfold_fields.
        split; [reflexivity |].
        split; [clear Hs1 Hp2; invariant HI2 |].
        apply user_info_ok_intro;
          [left; exact Hp2 | exact Hs1 | clear HI2 Hs1 Hp2; arith].
      * was_found Hf NE'. step.
        assert (Hadd : SizeT.add found va = found + va)
          by (apply add_exact; clear HI2 Hs1 Hp2; arith).
        rewrite Hadd. clear Hadd. unfold_fields.
        split; [reflexivity |].
        assert (Hnew : va <= found + va < ve) by lia.
        revert Hnew. generalize (found + va).
        clear Hf Hlen found. intros vu Hnew.
        split; [clear Hs1 Hp2; invariant HI2 |].
        apply user_info_ok_intro;
          [left; exact Hp2 | exact Hs1 | clear HI2 Hs1 Hp2; arith].
  - step. split; [reflexivity |].
    split; [exact HI | exact (Inv_user_info_ok _ HI NE)].
Qed.

Lemma port_ok_intro (d : string) (se va vu vp ps ve vq vf : Z) :
  user_info_ok (mk_uri d se va vu ps ve vq vf) ->
  port_own (mk_uri d se va vu vp ve vq vf) ->
  port_ok (mk_uri d se va vu vp ve vq vf).
Proof. intros Hu Hown. split; [exact Hu | exact Hown]. Qed.

Lemma parse_port_post (u : basic_uri) :
  Inv u ->
  post parse_port u
    (fun _ u' => data u' = data u /\ Inv u' /\ port_ok u').
Proof.
  intros HI. pose proof (Inv_size u HI) as Hsz.
  unfold parse_port. steps.
  destruct (Z.eqb_spec (port_start u) npos) as [E | NE]; cbn [negb].
  - step. eapply post_weaken; [apply parse_user_info_post; exact HI |].
    intros [] u1 (Hd1 & HI1 & Hu1). cbv beta.
    unfold data_size in Hsz. rewrite <- Hd1 in *. clear HI E Hd1 u.
    destruct u1 as [d se va vu ps ve qs fs].
    assert (Hk : se <> npos /\ vu <> npos /\ 0 <= va <= size d
                 /\ 0 <= vu <= size d)
      by (unfold_fields; arith).
    steps. unfold id, data_size. unfold_fields.
    destruct (Z.eqb_spec va (size d)) as [Hno | Hauth].
    + step. unfold data_size. unfold_fields.
      split; [reflexivity |].
      split; [clear Hu1; invariant HI1 |].
      apply (port_ok_intro _ _ _ _ _ ps); [exact Hu1 | clear HI1 Hu1; arith].
    + clear Hu1.
      step. eapply post_weaken; [apply parse_path_post; exact HI1 |].
      intros [] u2 ((vs' & va' & vq & vf & ve' & -> & Hks') & HI2 & Hp2).
      cbv beta. unfold_fields.
      destruct (Hks' (proj1 Hk)) as [-> ->]. clear Hks' HI1.
      unfold set_authority_end, set_query_start, set_fragment_start,
        set_scheme_end, set_authority_start in *. unfold_fields.
      pose proof (Inv_user_info_ok _ HI2 (proj1 (proj2 Hk))) as Hu2.
      assert (Hbase : va <= ve' <= size d
                      /\ (vu <> size d -> va <= vu < ve'))
        by (clear HI2 Hp2; arith).
      clear Hp2.
      assert (Hfinish :
        forall vp : Z,
          port_own (mk_uri d se va vu vp ve' vq vf) ->
          Inv (mk_uri d se va vu vp ve' vq vf)
          /\ port_ok (mk_uri d se va vu vp ve' vq vf)).
      { intros vp Hown. split.
        - clear Hu2. invariant HI2.
        - apply (port_ok_intro _ _ _ _ _ ps); [exact Hu2 | exact Hown]. }
      clear HI2 Hu2.
      steps. unfold id, data_size. unfold_fields.
      set (starting_point := if negb (vu =? size d) then vu else va).
      assert (Hsp : va <= starting_point <= ve'
                    /\ (vu <> size d -> starting_point = vu)).
      { subst starting_point.
        destruct (Z.eqb_spec vu (size d)); cbn [negb];
          (split; [arith | try reflexivity; try contradiction]). }
      clearbody starting_point.
      assert (Hsub : SizeT.sub ve' starting_point = ve' - starting_point)
        by (apply sub_exact; arith).
      rewrite Hsub. clear Hsub.
      destruct (sv_substr_ok d starting_point (ve' - starting_point))
        as (range & Hrange & Hlen & _); [lia | lia |].
      eapply post_lift; [exact Hrange |]. clear Hrange.
      pose proof (sv_find_last_of_bound range ":") as Hf.
      revert Hf. generalize (sv_find_last_of range ":"). intros found Hf.
      destruct (Z.eqb_spec found npos) as [E' | NE'].
      * clear Hf Hlen. step. unfold data_size. unfold_fields.
        split; [reflexivity |]. apply Hfinish. clear Hfinish. arith.
      * was_found Hf NE'. cbv zeta.
        assert (Hadd : SizeT.add found starting_point = found + starting_point)
          by (apply add_exact; clear Hfinish; arith).
        rewrite Hadd. clear Hadd.
        assert (Hnew : starting_point <= found + starting_point < ve') by lia.
        revert Hnew. generalize (found + starting_point).
        clear Hf Hlen found. intros vp Hnew.
        steps. unfold_fields.
        assert (Hadd1 : SizeT.add vp 1 = vp + 1)
          by (apply add_exact; clear Hfinish; arith).
        rewrite Hadd1. clear Hadd1.
        assert (Hsub : SizeT.sub ve' (vp + 1) = ve' - (vp + 1))
          by (apply sub_exact; clear Hfinish; arith).
        rewrite Hsub. clear Hsub.
        destruct (sv_substr_ok d (vp + 1) (ve' - (vp + 1)))
          as (str_view & Hview & _); [lia | lia |].
        eapply post_lift; [exact Hview |]. clear Hview.
        destruct (is_digit str_view); cbn [negb].
        -- step. unfold_fields.
           split; [reflexivity |]. apply Hfinish. clear Hfinish. arith.
        -- step. unfold data_size. unfold_fields.
           split; [reflexivity |]. apply Hfinish. clear Hfinish. arith.
  - step. split; [reflexivity |].
    split; [exact HI | exact (Inv_port_ok _ HI NE)].
Qed.

(** [parse_host] returns for every buffer and resolves all seven
    offsets. *)
Lemma parse_host_post (u : basic_uri) :
  Inv u ->
  post parse_host u
    (fun _ u' => data u' = data u /\ Inv u' /\ resolved u').
Proof.
  intros HI. unfold parse_host. steps.
  eapply post_weaken; [apply parse_user_info_post; exact HI |].
  intros [] u1 (Hd1 & HI1 & _). cbv beta. step.
  eapply post_weaken; [apply parse_port_post; exact HI1 |].
  intros [] u2 (Hd2 & HI2 & Hp2). cbv beta.
  eapply post_weaken; [apply parse_path_post; exact HI2 |].
  intros [] u3 ((vs & va & vq & vf & ve & -> & Hks) & HI3 & Hp3). cbv beta.
  pose proof (Inv_size _ HI2) as Hsz.
  destruct u2 as [d se as_ ue ps ae qs fs].
  unfold set_authority_end, set_query_start, set_fragment_start,
    set_scheme_end, set_authority_start in *. unfold_fields.
  split; [congruence |]. split; [exact HI3 |].
  clear HI HI1 HI2 HI3 Hd1 Hd2 Hks. unfold_stages.
  destruct Hp2 as ((_ & (Hue & _) & _) & (Hps & _)).
  destruct Hp3 as ((Hvs & Hva & _) & (Hvf & Hvq & _) & (Hve & _)).
  unfold resolved. unfold_fields.
  pose proof npos_value. pose proof max_size_value.
  repeat split; lia.
Qed.

(** Resolved offsets lie as [layout] says. *)
Lemma resolved_layout (u : basic_uri) : Inv u -> resolved u -> layout u.
Proof.
  intros HI (Hse & _ & Hue & Hps & Hae & _).
  pose proof (Inv_size u HI) as Hsz.
  pose proof (Inv_port_ok u HI Hps) as Hport.
  pose proof (Inv_path_ok u HI Hae) as Hpath.
  clear HI Hse Hue Hps Hae.
  destruct u as [d se as_ ue ps ae qs fs].
  unfold layout. unfold_stages.
  destruct Hport as ((_ & (Hue & Hue0 & Hue1) & _) & (Hps & Hps0 & Hps1)).
  destruct Hpath
    as ((Hse & Has & Hse1) & (Hfs & Hqs & Hqs1) & (Hae & Hae1 & Hae2)).
  cbv zeta.
  repeat match goal with
         | |- _ /\ _ => split
         end;
    try assumption; try lia.
Qed.


(** ** Concrete scenarios *)

(** C1: the components of the RFC 3986 example.  Scheme, host, port, path
    and fragment are as the claim says; [query_structured] returns the one
    entry ["ame=ferret" -> ""] instead of ["name" -> "ferret"]: the name
    is cut from [last_and_sep + 1] and the value is only read when an
    ampersand follows. *)
Theorem example_uri_components :
  let u := uri_of "foo://example.com:8042/over/there?name=ferret#nose" in
  fst (scheme u) = Ok "foo"
  /\ fst (host u) = Ok "example.com"
  /\ fst (port u) = Ok "8042"
  /\ fst (path u) = Ok "/over/there"
  /\ fst (fragment u) = Ok "nose"
  /\ fst (query u) = Ok "name=ferret"
  /\ (forall fuel : nat,
        fst (query_structured (S fuel) u)
        = Ok ({[ "ame=ferret" := EmptyString ]} : gmap string string))
  /\ ({[ "ame=ferret" := EmptyString ]} : gmap string string)
     <> {[ "name" := "ferret" ]}.
Proof.
  cbv zeta. split_all; try evaluate.
  intros H.
  apply (f_equal (fun m : gmap string string => m !! "name")) in H.
  vm_compute in H. discriminate H.
Qed.

(** [fragment()] on a URI without a fragment: [fragment_start] is the
    buffer length, the substring is asked for one character further, and
    the exception of [std::string_view::substr] ends the program. *)
Lemma fragment_without_hash (buffer : string) :
  size buffer < SizeT.max_size ->
  sv_find buffer "#" 0 = npos ->
  fst (fragment (uri_of buffer)) = Terminate.
Proof.
  intros Hsize Hnone.
  unfold fragment, parse_fragment, substr, noexcept, bind, gets, modify,
    lift, ret, uri_of, id, data_size.
  unfold_fields. change (npos =? npos) with true. cbn [negb].
  cbv beta iota. unfold_fields.
  rewrite Hnone. change (npos =? npos) with true.
  change (npos =? 0) with false. cbv beta iota. unfold_fields.
  unfold sv_substr.
  pose proof (size_nonneg buffer) as Hnn.
  rewrite add_exact by (rewrite modulus_value, max_size_value in *; lia).
  destruct (Z.ltb_spec (size buffer) (size buffer + 1)); [reflexivity | lia].
Qed.

(** C4: [normalize_path] returns the URI as it is, and on the three
    references of the claim [resolve] never reaches a [return]: none of
    them has a fragment, so [relative_uri.fragment()] asks for the
    substring at [size + 1], and the [std::out_of_range] of
    [std::string_view::substr] leaves a [noexcept] function.  This holds
    whatever the members that [resolve] names and the class lacks do. *)
Theorem resolve_rfc_vectors :
  forall (is_ipv6 is_query : string -> bool) (set_fragment : string -> M unit)
         (_query _path : basic_uri -> string),
    let base := uri_of "http://a/b/c/d;p?q" in
    let resolve_with := resolve is_ipv6 is_query set_fragment _query _path in
    resolve_with base (uri_of "g") = Terminate
    /\ resolve_with base (uri_of "../g") = Terminate
    /\ resolve_with base (uri_of "?y") = Terminate
    /\ (forall u : basic_uri, normalize_path u = (Ok tt, u))
    /\ data (snd (normalize_path (uri_of "http://a/b/c/../g")))
       = "http://a/b/c/../g".
Proof.
  intros. cbv zeta. split_all; evaluate.
Qed.

(** What the test of [parse_scheme] on the tail of the candidate decides:
    it looks at the first character of the tail only. *)
Lemma scheme_tail_test (tail : string) :
  negb (sv_find_first_not_of tail SCHEME_NOT_FIRST =? 0)
  = match tail with
    | EmptyString => true
    | String c _ => contains SCHEME_NOT_FIRST c
    end.
Proof.
  unfold sv_find_first_not_of, index_or_npos.
  destruct tail as [|c rest]; cbn [find_if]; [reflexivity |].
  destruct (contains SCHEME_NOT_FIRST c); cbn [negb]; [| reflexivity].
  destruct (find_if _ rest) as [i|]; [| reflexivity].
  destruct (Z.eqb_spec (0 + Z.of_nat (S i)) 0); [lia | reflexivity].
Qed.

(** A buffer that starts with two slashes has no scheme, and its authority
    starts at offset 2. *)
Lemma parse_scheme_double_slash (buffer : string) :
  starts_with buffer "//" = true ->
  parse_scheme (uri_of buffer)
  = (Ok tt, set_scheme_end (size buffer) (set_authority_start 2 (uri_of buffer))).
Proof.
  intros Hslashes.
  unfold parse_scheme, noexcept, bind, gets, modify, uri_of, data_size.
  unfold_fields. change (npos =? npos) with true. cbn [negb].
  cbv beta iota. unfold_fields.
  rewrite Hslashes. reflexivity.
Qed.

(** C6: a scheme candidate with a character outside the scheme-tail set is
    accepted as soon as that character is not the second one: the result of
    [find_first_not_of] is used as a truth value, and only 0 is false. *)
Theorem parse_scheme_accepts_bad_tail :
  let u := uri_of "ht!p:x" in
  contains SCHEME_NOT_FIRST "!" = false
  /\ is_scheme "ht!p" = false
  /\ scheme_end (snd (parse_scheme u)) = 4
  /\ fst (has_scheme u) = Ok true
  /\ fst (scheme u) = Ok "ht!p"
  /\ fst (scheme (uri_of "h!tp:x")) = Ok EmptyString.
Proof. cbv zeta. split_all; evaluate. Qed.

(** The table of [default_port], and [port_uint16] on a URI with a port
    and a path. *)
Lemma default_port_table :
  fst (default_port (uri_of "http://a")) = Ok 80
  /\ fst (default_port (uri_of "https://a")) = Ok 443
  /\ fst (default_port (uri_of "ftp://a")) = Ok 21
  /\ fst (default_port (uri_of "ssh://a")) = Ok 22
  /\ fst (default_port (uri_of "telnet://a")) = Ok 23
  /\ fst (default_port (uri_of "ftps://a")) = Ok 990
  /\ fst (default_port (uri_of "gopher://a")) = Ok 0
  /\ fst (port_uint16 (uri_of "http://example.com")) = Ok 80
  /\ fst (port_uint16 (uri_of "http://example.com:8080/index")) = Ok 8080.
Proof. split_all; evaluate. Qed.

(** C7: without a path after the authority, [port()] loses the last digit
    of the port: [authority_end] is then the buffer length, and the getter
    subtracts one from it. *)
Theorem port_without_path_loses_last_digit :
  let u := uri_of "http://example.com:8080" in
  port_start (snd (parse_port u)) = 18
  /\ fst (has_port u) = Ok true
  /\ fst (port u) = Ok "808"
  /\ fst (port_uint16 u) = Ok 808
  /\ fst (port (uri_of "http://example.com:8080/")) = Ok "8080".
Proof. cbv zeta. split_all; evaluate. Qed.

(** The scheme setter validates before it touches anything: a rejected
    candidate leaves by [std::invalid_argument] with the URI as it was. *)
Lemma set_scheme_invalid (u : basic_uri) (candidate : string) :
  is_scheme (if ends_with candidate ":" then remove_suffix1 candidate
             else candidate) = false ->
  set_scheme candidate u = (Throw invalid_argument, u).
Proof. intros H. unfold set_scheme. rewrite H. reflexivity. Qed.

(** The port setter validates first as well, but it is [noexcept]: its
    [throw] ends the program. *)
Lemma set_port_invalid (u : basic_uri) (candidate : string) :
  is_digit (if starts_with candidate ":" then remove_prefix1 candidate
            else candidate) = false ->
  set_port candidate u = (Terminate, u).
Proof. intros H. unfold set_port, noexcept. rewrite H. reflexivity. Qed.

(** C8: a port that is not all digits is not surfaced to the caller as a
    failed operation: the [throw] inside the [noexcept] port setter calls
    [std::terminate].  The scheme setter does throw to its caller and
    leaves buffer and offsets unchanged. *)
Theorem set_port_invalid_is_fatal :
  let u := uri_of "http://a" in
  is_digit "8a" = false
  /\ set_port "8a" u = (Terminate, u)
  /\ is_scheme "h!" = false
  /\ set_scheme "h!" u = (Throw invalid_argument, u).
Proof. cbv zeta. split_all; evaluate. Qed.

(** The path setter returns for every URI and every path; afterwards the
    buffer is the old one, or all seven offsets are unknown again. *)
Lemma set_path_resets (new_path : string) (u : basic_uri) :
  Inv u ->
  post (set_path new_path) u
    (fun _ u' => data u' = data u \/ exists buffer, u' = uri_of buffer).
Proof.
  intros HI. unfold set_path. steps.
  eapply post_weaken; [apply parse_path_post; exact HI |].
  intros [] u1 ((vs & va & vq & vf & ve & -> & _) & _ & Hp1). cbv beta.
  steps. unfold id.
  eapply post_weaken.
  - apply replace_value_resets; [| apply sub_range].
    destruct Hp1 as (_ & _ & (Hae & _) & _). exact Hae.
  - intros [] u2 [-> | (buffer & ->)]; [left; reflexivity | right].
    exists buffer. reflexivity.
Qed.

(** The mutation test of the specification on the RFC 3986 example: the
    host is read back unchanged and [query_start] moves from 33 to 31. *)
Lemma set_path_scenario :
  let u := uri_of "foo://example.com:8042/over/there?name=ferret#nose" in
  let u' := snd (set_path "/new/path" u) in
  u' = uri_of "foo://example.com:8042/new/path?name=ferret#nose"
  /\ fst (host u) = Ok "example.com"
  /\ fst (host u') = Ok "example.com"
  /\ query_start (snd (parse_query u)) = 33
  /\ query_start (snd (parse_query u')) = 31.
Proof. cbv zeta. split_all; evaluate. Qed.

(** C9: on a URI with a query and no path, the path setter computes the
    length [query_start - authority_end] with [authority_end] at the buffer
    length; the difference wraps around and the old query is written a
    second time after the new path.  The host read back afterwards is not
    the host read before, and [query_start] stays at 18. *)
Theorem set_path_without_path_changes_host :
  let u := uri_of "http://example.com?x=1" in
  let u' := snd (set_path "/p" u) in
  fst (set_path "/p" u) = Ok tt
  /\ u' = uri_of "http://example.com?x=1/p?x=1"
  /\ fst (host u) = Ok "example.com?x=1"
  /\ fst (host u') = Ok "example.com?x=1/p?x=1"
  /\ query_start (snd (parse_query u)) = 18
  /\ query_start (snd (parse_query u')) = 18.
Proof. cbv zeta. split_all; evaluate. Qed.

(** C10: the default-constructed URI has an empty buffer; [scheme_end]
    resolves to 0, [has_scheme] answers true and so does [is_valid]. *)
Theorem empty_uri_has_scheme_and_is_valid :
  data uri_default = EmptyString
  /\ scheme_end (snd (parse_scheme uri_default)) = 0
  /\ fst (has_scheme uri_default) = Ok true
  /\ fst (is_valid uri_default) = Ok true.
Proof. split_all; evaluate. Qed.

(** * Further properties *)

(** ** The percent codec, for every character set *)

Lemma decode_rejects_non_hex_witness :
  is_hex "G" = false
  /\ decode_uri_component ("ab" +:+ String "%" (String "G" "1c"))
       ALLOWED_CHARACTERS_IN_URI = None.
Proof.
  split.
  - vm_compute. reflexivity.
  - apply (decode_rejects_non_hex ALLOWED_CHARACTERS_IN_URI "ab" "G" "1c").
    vm_compute. reflexivity.
Defined.

Lemma is_hex_digit_value (c : ascii) :
  is_hex c = false -> digit_value c = None.
Proof.
  unfold is_hex, digit_value. intros H.
  apply orb_false_elim in H as [H Hlow].
  apply orb_false_elim in H as [Hdig Hup].
  now rewrite Hdig, Hup, Hlow.
Qed.

(** One step of the decoder, with the value of the character named. *)
Lemma decode_loop_step (allowed : charset_t) (c : ascii) (rest : string)
    (dl dc : Z) (dec : bool) (res : string) :
  decode_loop allowed (String c rest) dl dc dec res
  = if dec && negb (dl =? 0) then
      match digit_value c with
      | None => None
      | Some d =>
        if dl - 1 =? 0
        then decode_loop allowed rest (dl - 1)
               ((Z.shiftl dc 4 mod 256 + d) mod 256) false
               (push_back res (to_char ((Z.shiftl dc 4 mod 256 + d) mod 256)))
        else decode_loop allowed rest (dl - 1)
               ((Z.shiftl dc 4 mod 256 + d) mod 256) dec res
      end
    else if Ascii.eqb c "%" then decode_loop allowed rest 2 0 true res
    else if negb (contains allowed c) then None
    else decode_loop allowed rest dl dc dec (push_back res c).
Proof. reflexivity. Qed.

(** A character that is neither allowed, nor a percent sign, nor a
    hexadecimal digit fails the whole decode, wherever it stands. *)
Lemma decode_loop_rejects_foreign (allowed : charset_t) (pre : string)
    (c : ascii) (rest : string) :
  contains allowed c = false ->
  Ascii.eqb c "%" = false ->
  is_hex c = false ->
  forall (dl dc : Z) (dec : bool) (res : string),
    decode_loop allowed (pre +:+ String c rest) dl dc dec res = None.
Proof.
  intros Hc Hpct Hhex.
  apply is_hex_digit_value in Hhex.
  induction pre as [|x pre IH]; intros dl dc dec res.
  - change (EmptyString +:+ String c rest) with (String c rest).
    rewrite decode_loop_step, Hhex, Hpct, Hc.
    now destruct (dec && negb (dl =? 0)).
  - rewrite append_cons, decode_loop_step.
    destruct (dec && negb (dl =? 0)).
    + destruct (digit_value x); [| reflexivity].
      destruct (dl - 1 =? 0); apply IH.
    + destruct (Ascii.eqb x "%"); [apply IH |].
      destruct (negb (contains allowed x)); [reflexivity | apply IH].
Qed.

(** X2: [decode_uri_component] returns [std::nullopt] for every input that
    holds, anywhere, a character that is neither in the allowed set, nor
    ['%'], nor a hexadecimal digit. *)
Theorem decode_rejects_foreign_char (allowed : charset_t) (pre : string)
    (c : ascii) (rest : string) :
  contains allowed c = false ->
  Ascii.eqb c "%" = false ->
  is_hex c = false ->
  decode_uri_component (pre +:+ String c rest) allowed = None.
Proof.
  intros Hc Hpct Hhex. unfold decode_uri_component.
  now apply decode_loop_rejects_foreign.
Qed.

Lemma decode_rejects_foreign_char_witness :
  contains ALLOWED_CHARACTERS_IN_URI " " = false
  /\ Ascii.eqb " " "%" = false
  /\ is_hex " " = false
  /\ decode_uri_component ("a%4" +:+ String " " "b")
       ALLOWED_CHARACTERS_IN_URI = None.
Proof.
  split; [vm_compute; reflexivity |].
  split; [vm_compute; reflexivity |].
  split; [vm_compute; reflexivity |].
  apply (decode_rejects_foreign_char ALLOWED_CHARACTERS_IN_URI "a%4" " " "b");
    vm_compute; reflexivity.
Defined.

Lemma decode_loop_escape_free (allowed : charset_t) (text : string) :
  occurs "%" text = false ->
  forall (dl dc : Z) (res : string),
    decode_loop allowed text dl dc false res
    = if all_in allowed text then Some (res +:+ text) else None.
Proof.
  induction text as [|c text IH]; intros Hpct dl dc res.
  - cbn [decode_loop all_in]. now rewrite append_empty_r.
  - cbn [occurs] in Hpct. apply orb_false_elim in Hpct as [Hc Hrest].
    rewrite decode_loop_step. cbn [andb all_in].
    rewrite Ascii.eqb_sym in Hc. rewrite Hc.
    destruct (contains allowed c); cbn [negb andb]; [| reflexivity].
    rewrite (IH Hrest). now rewrite push_back_assoc.
Qed.

(** X3: on a text without a percent sign, [decode_uri_component] is the
    membership test of the allowed set: it returns the text itself when
    every character is allowed, and [std::nullopt] otherwise. *)
Theorem decode_escape_free (allowed : charset_t) (text : string) :
  occurs "%" text = false ->
  decode_uri_component text allowed
  = if all_in allowed text then Some text else None.
Proof.
  intros Hpct. unfold decode_uri_component.
  now rewrite (decode_loop_escape_free allowed text Hpct).
Qed.

Lemma decode_escape_free_witness :
  occurs "%" "a b" = false
  /\ decode_uri_component "a b" ALLOWED_CHARACTERS_IN_URI
     = if all_in ALLOWED_CHARACTERS_IN_URI "a b" then Some "a b" else None.
Proof.
  split.
  - vm_compute. reflexivity.
  - apply (decode_escape_free ALLOWED_CHARACTERS_IN_URI "a b").
    vm_compute. reflexivity.
Defined.

(** The encoder appends to its accumulator. *)
Lemma append_assoc (a b c : string) : (a +:+ b) +:+ c = a +:+ (b +:+ c).
Proof.
  induction a as [|x a IH]; [reflexivity | now rewrite !append_cons, IH].
Qed.

Lemma encode_loop_acc (allowed : charset_t) (text acc : string) :
  encode_loop allowed text acc
  = acc +:+ encode_loop allowed text EmptyString.
Proof.
  revert acc. induction text as [|c text IH]; intros acc; cbn [encode_loop].
  - now rewrite append_empty_r.
  - destruct (contains allowed c).
    + rewrite (IH (push_back acc c)), (IH (push_back EmptyString c)).
      unfold push_back. now rewrite append_assoc.
    + rewrite (IH (push_back (push_back (push_back acc _) _) _)).
      rewrite (IH (push_back (push_back (push_back EmptyString _) _) _)).
      unfold push_back. now rewrite !append_assoc.
Qed.

Lemma encode_loop_cons (allowed : charset_t) (c : ascii) (text : string) :
  encode_loop allowed (String c text) EmptyString
  = (if contains allowed c then String c EmptyString else escape_of c)
    +:+ encode_loop allowed text EmptyString.
Proof.
  cbn [encode_loop].
  destruct (contains allowed c); rewrite encode_loop_acc; reflexivity.
Qed.

(** The decoder reads the escape of a 7-bit character back as that
    character. *)
Lemma decode_loop_escape (allowed : charset_t) (c : ascii) (rest : string)
    (dl dc : Z) (res : string) :
  (code c <? 128) = true ->
  decode_loop allowed (escape_of c +:+ rest) dl dc false res
  = decode_loop allowed rest 0 (code c) false (push_back res c).
Proof.
  destruct c as [b0 b1 b2 b3 b4 b5 b6 b7].
  destruct b7; [intros H; vm_compute in H; destruct b0, b1, b2, b3, b4, b5, b6; discriminate |].
  intros _.
  destruct b0, b1, b2, b3, b4, b5, b6; reflexivity.
Qed.

Lemma decode_encode_loop (allowed : charset_t) (text : string) :
  contains allowed "%" = false ->
  seven_bit text = true ->
  forall (dl dc : Z) (res : string),
    decode_loop allowed (encode_loop allowed text EmptyString) dl dc false res
    = Some (res +:+ text).
Proof.
  intros Hpct.
  induction text as [|c text IH]; intros H7 dl dc res.
  - cbn [encode_loop decode_loop]. now rewrite append_empty_r.
  - cbn [seven_bit] in H7. apply andb_prop in H7 as [Hc Hrest].
    rewrite encode_loop_cons.
    destruct (contains allowed c) eqn:Hin.
    + rewrite append_cons. change (EmptyString +:+ ?t) with t.
      rewrite decode_loop_step. cbn [andb].
      destruct (Ascii.eqb c "%") eqn:E.
      * apply Ascii.eqb_eq in E. subst c. congruence.
      * rewrite Hin. cbn [negb]. rewrite (IH Hrest).
        now rewrite push_back_assoc.
    + rewrite (decode_loop_escape allowed c _ dl dc res Hc).
      rewrite (IH Hrest). now rewrite push_back_assoc.
Qed.

(** X4: for every set of allowed characters that does not hold ['%'], and
    every text of 7-bit characters, decoding the encoded text gives the
    text back, whether or not its characters had to be escaped. *)
Theorem codec_roundtrip_with_escapes (allowed : charset_t) (text : string) :
  contains allowed "%" = false ->
  seven_bit text = true ->
  decode_uri_component (encode_uri_component text allowed) allowed
  = Some text.
Proof.
  intros Hpct H7. unfold decode_uri_component, encode_uri_component.
  now rewrite (decode_encode_loop allowed text Hpct H7).
Qed.

Lemma codec_roundtrip_with_escapes_witness :
  contains REG_NAME_NOT_PCT_ENCODED "%" = false
  /\ seven_bit "EX AMPLE.com/~?" = true
  /\ decode_uri_component
       (encode_uri_component "EX AMPLE.com/~?" REG_NAME_NOT_PCT_ENCODED)
       REG_NAME_NOT_PCT_ENCODED
     = Some "EX AMPLE.com/~?".
Proof.
  split; [vm_compute; reflexivity |].
  split; [vm_compute; reflexivity |].
  apply (codec_roundtrip_with_escapes REG_NAME_NOT_PCT_ENCODED
           "EX AMPLE.com/~?"); vm_compute; reflexivity.
Defined.

Lemma length_append (a b : string) :
  String.length (a +:+ b) = (String.length a + String.length b)%nat.
Proof.
  induction a as [|x a IH]; [reflexivity |].
  rewrite append_cons. cbn [String.length]. now rewrite IH.
Qed.

(** X5: [encode_uri_component] copies each allowed character and writes
    three characters for every other one: the output is two characters
    longer than the input for each character outside the set. *)
Theorem encode_length (allowed : charset_t) (text : string) :
  size (encode_uri_component text allowed)
  = size text + 2 * Z.of_nat (escaped_count allowed text).
Proof.
  unfold encode_uri_component, size.
  induction text as [|c text IH]; [reflexivity |].
  rewrite encode_loop_cons, length_append.
  cbn [escaped_count String.length].
  destruct (contains allowed c); cbn [String.length escape_of]; lia.
Qed.

Lemma encode_alphabet (allowed : charset_t) (text : string) :
  seven_bit text = true ->
  all_in (charset [allowed; chars "%0123456789ABCDEF"])
    (encode_uri_component text allowed) = true.
Proof.
  unfold encode_uri_component.
  induction text as [|c text IH]; intros H7; [reflexivity |].
  cbn [seven_bit] in H7. apply andb_prop in H7 as [Hc Hrest].
  rewrite encode_loop_cons.
  assert (Hin : forall x, contains allowed x = true ->
                contains (charset [allowed; chars "%0123456789ABCDEF"]) x
                = true).
  { intros x Hx. unfold contains, charset in *. cbn [List.concat].
    rewrite existsb_app, Hx. reflexivity. }
  assert (Hhex : forall x, contains (chars "%0123456789ABCDEF") x = true ->
                 contains (charset [allowed; chars "%0123456789ABCDEF"]) x
                 = true).
  { intros x Hx. unfold contains, charset in *. cbn [List.concat].
    rewrite !existsb_app, Hx. now rewrite orb_true_r. }
  destruct (contains allowed c) eqn:Ha.
  - rewrite append_cons. change (EmptyString +:+ ?t) with t.
    cbn [all_in]. now rewrite (Hin c Ha), (IH Hrest).
  - unfold escape_of. rewrite !append_cons. change (EmptyString +:+ ?t) with t.
    cbn [all_in]. rewrite (IH Hrest), !andb_true_r.
    rewrite !Hhex; [reflexivity | | | reflexivity].
    + destruct c as [b0 b1 b2 b3 b4 b5 b6 b7].
      destruct b7;
        [vm_compute in Hc; destruct b0, b1, b2, b3, b4, b5, b6; discriminate |].
      destruct b0, b1, b2, b3, b4, b5, b6; reflexivity.
    + destruct c as [b0 b1 b2 b3 b4 b5 b6 b7].
      destruct b7;
        [vm_compute in Hc; destruct b0, b1, b2, b3, b4, b5, b6; discriminate |].
      destruct b0, b1, b2, b3, b4, b5, b6; reflexivity.
Qed.

(** X6: on 7-bit text the output of [encode_uri_component] holds only
    allowed characters, ['%'] and upper-case hexadecimal digits. *)
Theorem encode_output_alphabet (allowed : charset_t) (text : string) :
  seven_bit text = true ->
  all_in (charset [allowed; chars "%0123456789ABCDEF"])
    (encode_uri_component text allowed) = true.
Proof. apply encode_alphabet. Qed.

Lemma encode_output_alphabet_witness :
  seven_bit "a b/c" = true
  /\ all_in (charset [UNRESERVED; chars "%0123456789ABCDEF"])
       (encode_uri_component "a b/c" UNRESERVED) = true.
Proof.
  split.
  - vm_compute. reflexivity.
  - apply (encode_output_alphabet UNRESERVED "a b/c"). vm_compute. reflexivity.
Defined.

(** ** Strings built by concatenation *)

Lemma size_append (a b : string) : size (a +:+ b) = size a + size b.
Proof. unfold size. rewrite length_append. lia. Qed.

Lemma size_cons (c : ascii) (s : string) : size (String c s) = 1 + size s.
Proof. unfold size. cbn [String.length]. lia. Qed.

Lemma size_zero (s : string) : size s = 0 -> s = EmptyString.
Proof. destruct s; [reflexivity |]. rewrite size_cons. pose proof (size_nonneg s). lia. Qed.

Lemma to_nat_size (s : string) : Z.to_nat (size s) = String.length s.
Proof. unfold size. lia. Qed.

Lemma skip_append (a b : string) (k : nat) :
  skip (String.length a + k) (a +:+ b) = skip k b.
Proof.
  induction a as [|x a IH]; [reflexivity |].
  rewrite append_cons. cbn [String.length Nat.add skip]. exact IH.
Qed.

Lemma first_n_append (a b : string) (k : nat) :
  first_n (String.length a + k) (a +:+ b) = a +:+ first_n k b.
Proof.
  induction a as [|x a IH]; [reflexivity |].
  rewrite !append_cons. cbn [String.length Nat.add first_n]. now rewrite IH.
Qed.

Lemma first_n_zero (s : string) : first_n 0 s = EmptyString.
Proof. now destruct s. Qed.

Lemma first_n_short (a b : string) (k : nat) :
  (k <= String.length a)%nat -> first_n k (a +:+ b) = first_n k a.
Proof.
  revert k. induction a as [|x a IH]; intros k Hk.
  - cbn [String.length] in Hk. replace k with O by lia.
    now rewrite !first_n_zero.
  - rewrite append_cons. destruct k as [|k]; [reflexivity |].
    cbn [first_n String.length] in *. rewrite IH by lia. reflexivity.
Qed.

(** [s.substr(pos, n)] as a slice, for a start inside the view. *)
Lemma sv_substr_slice (s : string) (pos n : Z) :
  0 <= pos <= size s -> 0 <= n ->
  sv_substr s pos n = Ok (first_n (Z.to_nat n) (skip (Z.to_nat pos) s)).
Proof.
  intros Hpos Hn. unfold sv_substr.
  destruct (Z.ltb_spec (size s) pos) as [H | _]; [lia |].
  f_equal.
  destruct (Z.le_ge_cases n (size s - pos)) as [H | H].
  - now rewrite Z.min_l.
  - rewrite Z.min_r by lia.
    rewrite !first_n_all; [reflexivity | |];
      rewrite length_skip; unfold size in *; lia.
Qed.

Lemma occurs_find_if (c : ascii) (s : string) :
  occurs c s = false -> find_if (Ascii.eqb c) s = None.
Proof.
  induction s as [|x s IH]; [reflexivity |].
  cbn [occurs find_if]. intros H. apply orb_false_elim in H as [Hx Hs].
  now rewrite Hx, (IH Hs).
Qed.

Lemma find_if_append (p : ascii -> bool) (a b : string) :
  find_if p a = None ->
  find_if p (a +:+ b)
  = match find_if p b with
    | Some i => Some (String.length a + i)%nat
    | None => None
    end.
Proof.
  induction a as [|x a IH]; intros H.
  - change (EmptyString +:+ b) with b. now destruct (find_if p b).
  - rewrite append_cons. cbn [find_if] in *.
    destruct (p x); [discriminate |].
    destruct (find_if p a); [discriminate |].
    rewrite (IH eq_refl). now destruct (find_if p b).
Qed.

Lemma find_if_prefix (p : ascii -> bool) (a b : string) (i : nat) :
  find_if p a = Some i -> find_if p (a +:+ b) = Some i.
Proof.
  revert i. induction a as [|x a IH]; intros i H; [discriminate |].
  rewrite append_cons. cbn [find_if] in *.
  destruct (p x); [exact H |].
  destruct (find_if p a) as [j|]; [| discriminate].
  now rewrite (IH j eq_refl).
Qed.

(** [s.find(c)] from the start of the view. *)
Lemma sv_find_start (s : string) (c : ascii) :
  sv_find s c 0 = index_or_npos 0 (find_if (Ascii.eqb c) s).
Proof.
  unfold sv_find. change (Z.to_nat 0) with O. change (skip 0 s) with s.
  destruct (Z.leb_spec (size s) 0) as [H | H]; [| reflexivity].
  pose proof (size_nonneg s). rewrite (size_zero s) by lia. reflexivity.
Qed.

(** The first [c] of a text that has none before it. *)
Lemma sv_find_first (a b : string) (c : ascii) :
  occurs c a = false ->
  sv_find (a +:+ String c b) c 0 = size a.
Proof.
  intros H. rewrite sv_find_start.
  rewrite (find_if_append _ a _ (occurs_find_if c a H)).
  cbn [find_if]. rewrite Ascii.eqb_refl. unfold index_or_npos, size. lia.
Qed.

Lemma sv_find_none (s : string) (c : ascii) :
  occurs c s = false -> sv_find s c 0 = npos.
Proof.
  intros H. rewrite sv_find_start. now rewrite (occurs_find_if c s H).
Qed.

Lemma occurs_append (c : ascii) (a b : string) :
  occurs c (a +:+ b) = occurs c a || occurs c b.
Proof.
  induction a as [|x a IH]; [reflexivity |].
  rewrite append_cons. cbn [occurs]. rewrite IH. now rewrite orb_assoc.
Qed.

(** The two halves of a text around its first [c]. *)
Lemma before_first_clean (c : ascii) (s : string) :
  occurs c (before_first c s) = false.
Proof.
  induction s as [|x s IH]; [reflexivity |].
  cbn [before_first]. destruct (Ascii.eqb c x) eqn:E; [reflexivity |].
  cbn [occurs]. now rewrite E, IH.
Qed.

Lemma split_first (c : ascii) (s : string) :
  match after_first c s with
  | Some rest => s = before_first c s +:+ String c rest
  | None => s = before_first c s
  end.
Proof.
  induction s as [|x s IH]; [reflexivity |].
  cbn [before_first after_first]. destruct (Ascii.eqb_spec c x) as [-> | NE].
  - reflexivity.
  - destruct (after_first c s); rewrite append_cons || idtac; now f_equal.
Qed.

Lemma after_first_none (c : ascii) (s : string) :
  after_first c s = None -> occurs c s = false.
Proof.
  intros H. pose proof (split_first c s) as Hs. rewrite H in Hs.
  rewrite Hs at 1. apply before_first_clean.
Qed.

Lemma split_at_first (c : ascii) (a b : string) :
  occurs c a = false ->
  before_first c (a +:+ String c b) = a
  /\ after_first c (a +:+ String c b) = Some b.
Proof.
  intros H. induction a as [|x a IH].
  - change (EmptyString +:+ String c b) with (String c b).
    cbn [before_first after_first]. now rewrite Ascii.eqb_refl.
  - rewrite append_cons. cbn [occurs before_first after_first] in *.
    apply orb_false_elim in H as [Hx Ha]. rewrite Hx.
    destruct (IH Ha) as [-> ->]. now split.
Qed.

Lemma no_first (c : ascii) (s : string) :
  occurs c s = false -> before_first c s = s /\ after_first c s = None.
Proof.
  induction s as [|x s IH]; [now split |].
  cbn [occurs before_first after_first]. intros H.
  apply orb_false_elim in H as [Hx Hs]. rewrite Hx.
  destruct (IH Hs) as [-> ->]. now split.
Qed.

(** ** The fragment and the query of a buffer *)

Ltac run :=
  unfold noexcept, bind, gets, modify, lift, ret, id, data_size;
  unfold_fields; cbv beta iota.

(** The first search result of a text shorter than [max_size]. *)
Lemma sv_find_split (s : string) (c : ascii) :
  size s < SizeT.max_size ->
  sv_find s c 0
  = match after_first c s with
    | Some _ => size (before_first c s)
    | None => npos
    end
  /\ size (before_first c s) <= size s.
Proof.
  intros Hsz. pose proof (split_first c s) as Hs.
  destruct (after_first c s) as [rest|] eqn:E.
  - split.
    + rewrite Hs at 1. apply sv_find_first, before_first_clean.
    + rewrite Hs at 2. rewrite size_append. pose proof (size_nonneg (String c rest)). lia.
  - split; [apply sv_find_none, after_first_none, E | rewrite <- Hs; lia].
Qed.

Lemma sv_substr_before (c : ascii) (s : string) :
  sv_substr s 0 (size (before_first c s)) = Ok (before_first c s).
Proof.
  pose proof (size_nonneg s). pose proof (size_nonneg (before_first c s)).
  rewrite sv_substr_slice by lia.
  change (Z.to_nat 0) with O. change (skip 0 s) with s.
  rewrite to_nat_size. f_equal.
  pose proof (split_first c s) as Hs.
  destruct (after_first c s) as [rest|].
  - rewrite Hs at 2.
    rewrite <- (Nat.add_0_r (String.length (before_first c s))).
    rewrite first_n_append, first_n_zero. apply append_empty_r.
  - rewrite <- Hs. apply first_n_all. lia.
Qed.

Lemma parse_fragment_fresh (u : basic_uri) :
  fragment_start u = npos ->
  size (data u) < SizeT.max_size ->
  parse_fragment u
  = (Ok tt, set_fragment_start (size (before_first "#" (data u))) u).
Proof.
  intros Hfs Hsz. destruct u as [d se as_ ue ps ae qs fs].
  unfold_fields. subst fs. unfold parse_fragment. run.
  change (npos =? npos) with true. cbn [negb]. run.
  destruct (sv_find_split d "#" Hsz) as [-> Hle].
  pose proof (split_first "#" d) as Hs.
  destruct (after_first "#" d) as [rest|].
  - destruct (Z.eqb_spec (size (before_first "#" d)) npos) as [E | _];
      [rewrite npos_value, max_size_value in *; lia | reflexivity].
  - change (npos =? npos) with true. cbv iota. now rewrite <- Hs.
Qed.

Lemma before_first_size (c : ascii) (s : string) :
  size (before_first c s) <= size s.
Proof.
  pose proof (split_first c s) as Hs.
  destruct (after_first c s) as [rest|].
  - rewrite Hs at 2. rewrite size_append.
    pose proof (size_nonneg (String c rest)). lia.
  - rewrite <- Hs. lia.
Qed.

Lemma parse_query_fresh (u : basic_uri) :
  query_start u = npos ->
  fragment_start u = npos ->
  size (data u) < SizeT.max_size ->
  parse_query u
  = (Ok tt,
     set_query_start (query_offset (data u))
       (set_fragment_start (size (before_first "#" (data u))) u)).
Proof.
  intros Hqs Hfs Hsz. unfold parse_query.
  unfold noexcept at 1, bind at 1, gets at 1. rewrite Hqs.
  change (npos =? npos) with true. cbn [negb]. cbv iota beta.
  unfold bind at 1. rewrite (parse_fragment_fresh u Hfs Hsz).
  destruct u as [d se as_ ue ps ae qs fs]. run.
  rewrite sv_substr_before. cbv iota beta.
  pose proof (before_first_size "#" d) as Hb.
  destruct (sv_find_split (before_first "#" d) "?" ltac:(lia)) as [-> Hle].
  unfold query_offset.
  destruct (after_first "?" (before_first "#" d)) as [rest|].
  - destruct (Z.eqb_spec (size (before_first "?" (before_first "#" d))) npos)
      as [E | _];
      [rewrite npos_value, max_size_value in *; lia | reflexivity].
  - change (npos =? npos) with true. reflexivity.
Qed.

Lemma skip_all (s : string) (n : nat) :
  (String.length s <= n)%nat -> skip n s = EmptyString.
Proof.
  revert n. induction s as [|c s IH]; intros [|n] H; cbn in *; try lia;
    try reflexivity.
  apply IH. lia.
Qed.

(** The member [substr] as a slice of the buffer. *)
Lemma substr_slice (start len : Z) (u : basic_uri) :
  0 <= start <= size (data u) -> 0 <= len ->
  substr start len u
  = (Ok (first_n (Z.to_nat len) (skip (Z.to_nat start) (data u))), u).
Proof.
  intros Hstart Hlen. unfold substr. run.
  destruct (Z.eqb_spec len 0) as [-> | NE].
  - now rewrite first_n_zero.
  - now rewrite sv_substr_slice.
Qed.

(** X7: [fragment()] returns the text after the first ['#'] of the buffer;
    on a buffer without ['#'] it asks for a substring that starts one
    character past the end, and the exception ends the program. *)
Theorem fragment_after_hash (buffer : string) :
  size buffer < SizeT.max_size ->
  fst (fragment (uri_of buffer))
  = match after_first "#" buffer with
    | Some text => Ok text
    | None => Terminate
    end.
Proof.
  intros Hsz. unfold fragment.
  unfold noexcept at 1, bind at 1.
  rewrite parse_fragment_fresh by (try reflexivity; exact Hsz).
  unfold uri_of. run.
  pose proof (split_first "#" buffer) as Hs.
  pose proof (size_nonneg (before_first "#" buffer)) as Hnn.
  pose proof (before_first_size "#" buffer) as Hle.
  rewrite add_exact by (rewrite modulus_value, max_size_value in *; lia).
  set (head := before_first "#" buffer) in *.
  destruct (after_first "#" buffer) as [text|].
  - assert (Hlen : size buffer = size head + 1 + size text).
    { rewrite Hs at 1. rewrite size_append, size_cons. lia. }
    pose proof (size_nonneg text).
    rewrite substr_slice
      by (unfold_fields; rewrite ?npos_value; lia).
    unfold_fields. cbn [fst]. f_equal.
    replace (Z.to_nat (size head + 1))
      with (String.length head + 1)%nat
      by (unfold size; lia).
    rewrite Hs, skip_append. cbn [skip].
    apply first_n_all. rewrite npos_value, max_size_value in *.
    unfold size in *. lia.
  - rewrite <- Hs. unfold substr. run.
    change (npos =? 0) with false. cbv iota. unfold sv_substr. run.
    destruct (Z.ltb_spec (size buffer) (size buffer + 1)); [reflexivity | lia].
Qed.

Lemma fragment_after_hash_witness :
  size "a/b#c#d" < SizeT.max_size
  /\ fst (fragment (uri_of "a/b#c#d"))
     = match after_first "#" "a/b#c#d" with
       | Some text => Ok text
       | None => Terminate
       end.
Proof.
  split.
  - vm_compute. reflexivity.
  - apply (fragment_after_hash "a/b#c#d"). vm_compute. reflexivity.
Defined.

Lemma query_fresh (buffer : string) :
  size buffer < SizeT.max_size ->
  fst (query (uri_of buffer))
  = Ok (default EmptyString
          (after_first "?" (before_first "#" buffer))).
Proof.
  intros Hsz. unfold query.
  unfold noexcept at 1, bind at 1.
  rewrite parse_query_fresh by (try reflexivity; exact Hsz).
  unfold uri_of. run. unfold query_offset.
  pose proof (split_first "?" (before_first "#" buffer)) as Hq.
  pose proof (split_first "#" buffer) as Hf.
  set (head := before_first "#" buffer) in *.
  set (name := before_first "?" head) in *.
  pose proof (size_nonneg name) as Hnn.
  destruct (after_first "?" head) as [text|].
  - assert (Hlen : size head = size name + 1 + size text).
    { rewrite Hq at 1. rewrite size_append, size_cons. lia. }
    pose proof (size_nonneg text) as Htext.
    assert (Hhead : size head <= size buffer)
      by apply before_first_size.
    assert (Hrest : exists rest, buffer = head +:+ rest).
    { destruct (after_first "#" buffer) as [r|];
        [exists (String "#" r); exact Hf
        | exists EmptyString; now rewrite append_empty_r]. }
    destruct Hrest as [rest Hrest].
    destruct (Z.eqb_spec (size name) (size buffer));
      [lia |].
    rewrite add_exact by (rewrite modulus_value, max_size_value in *; lia).
    rewrite (sub_exact (size head))
      by (rewrite modulus_value, max_size_value in *; lia).
    rewrite sub_exact by (rewrite modulus_value, max_size_value in *; lia).
    rewrite substr_slice by (unfold_fields; lia).
    unfold_fields. cbn [fst default]. f_equal.
    replace (size head - size name - 1) with (size text)
      by lia.
    rewrite to_nat_size.
    replace (Z.to_nat (size name + 1))
      with (String.length name + 1)%nat
      by (unfold size; lia).
    rewrite Hrest, Hq, append_assoc, skip_append, append_cons.
    cbn [skip].
    rewrite <- (Nat.add_0_r (String.length text)).
    rewrite first_n_append, first_n_zero. apply append_empty_r.
  - rewrite Z.eqb_refl. reflexivity.
Qed.

(** X8: [query()] returns the text between the first ['?'] and the first
    ['#'] of the buffer (to the end when there is no ['#']), and the empty
    string when no ['?'] stands before the first ['#']. *)
Theorem query_between_marks (buffer : string) :
  size buffer < SizeT.max_size ->
  fst (query (uri_of buffer))
  = Ok (default EmptyString
          (after_first "?" (before_first "#" buffer))).
Proof. apply query_fresh. Qed.

Lemma query_between_marks_witness :
  size "s://h/p?a=b?c#f?g" < SizeT.max_size
  /\ fst (query (uri_of "s://h/p?a=b?c#f?g"))
     = Ok (default EmptyString
             (after_first "?" (before_first "#" "s://h/p?a=b?c#f?g"))).
Proof.
  split.
  - vm_compute. reflexivity.
  - apply (query_between_marks "s://h/p?a=b?c#f?g"). vm_compute. reflexivity.
Defined.

(** ** The scheme of a buffer *)

Lemma all_in_occurs (cs : charset_t) (c : ascii) (s : string) :
  all_in cs s = true -> contains cs c = false -> occurs c s = false.
Proof.
  intros Hall Hc. induction s as [|x s IH]; [reflexivity |].
  cbn [all_in occurs] in *. apply andb_prop in Hall as [Hx Hs].
  rewrite (IH Hs), orb_false_r.
  destruct (Ascii.eqb_spec c x) as [-> | _]; [congruence | reflexivity].
Qed.

Lemma alpha_is_scheme_char (c : ascii) :
  contains ALPHA c = true -> contains SCHEME_NOT_FIRST c = true.
Proof.
  intros H. unfold contains, SCHEME_NOT_FIRST, charset in *.
  cbn [List.concat]. now rewrite existsb_app, H.
Qed.

Lemma is_scheme_chars (s : string) :
  is_scheme s = true -> all_in SCHEME_NOT_FIRST s = true.
Proof.
  destruct s as [|c s]; [discriminate |]. cbn [is_scheme all_in].
  intros H. apply andb_prop in H as [Hc Hs].
  now rewrite (alpha_is_scheme_char c Hc), Hs.
Qed.

(** A valid scheme holds none of the delimiters of a URI. *)
Lemma is_scheme_clean (s : string) (c : ascii) :
  is_scheme s = true ->
  contains SCHEME_NOT_FIRST c = false ->
  occurs c s = false.
Proof.
  intros H Hc. apply (all_in_occurs SCHEME_NOT_FIRST); [| exact Hc].
  now apply is_scheme_chars.
Qed.

Lemma is_scheme_not_slashes (s t : string) :
  is_scheme s = true -> starts_with (s +:+ t) "//" = false.
Proof.
  destruct s as [|c s]; [discriminate |]. cbn [is_scheme].
  intros H. apply andb_prop in H as [Hc _].
  rewrite append_cons. unfold starts_with.
  cbn [String.length first_n String.eqb].
  destruct (Ascii.eqb_spec c "/") as [-> | _]; [discriminate | reflexivity].
Qed.

(** [parse_scheme] on a buffer that starts with a valid scheme and a
    colon. *)
Lemma parse_scheme_prefix (s rest : string) (u : basic_uri) :
  data u = s +:+ String ":" rest ->
  scheme_end u = npos ->
  is_scheme s = true ->
  size (data u) < SizeT.max_size ->
  parse_scheme u
  = (Ok tt,
     set_authority_start
       (if starts_with rest "//" then size s + 3 else size (data u))
       (set_scheme_end (size s) u)).
Proof.
  intros Hd Hse Hs Hsz. destruct u as [d se as_ ue ps ae qs fs].
  unfold_fields. subst se.
  assert (Hlen : size d = size s + 1 + size rest).
  { rewrite Hd, size_append, size_cons. lia. }
  pose proof (size_nonneg s) as Hs0. pose proof (size_nonneg rest) as Hr0.
  assert (Hs1 : 1 <= size s).
  { destruct s; [discriminate | rewrite size_cons; pose proof (size_nonneg s); lia]. }
  unfold parse_scheme. cbv zeta. run.
  change (npos =? npos) with true. cbn [negb]. run.
  assert (Hslashes : starts_with d "//" = false)
    by (rewrite Hd; apply (is_scheme_not_slashes s _ Hs)).
  rewrite Hslashes.
  assert (Hcolon : sv_find d ":" 0 = size s).
  { rewrite Hd. apply sv_find_first, is_scheme_clean;
      [exact Hs | reflexivity]. }
  rewrite Hcolon.
  destruct (Z.eqb_spec (size s) npos) as [E | _];
    [rewrite npos_value, max_size_value in *; lia |].
  cbn [negb]. run.
  rewrite (sv_substr_slice d 0 (size s)) by lia. run.
  change (Z.to_nat 0) with O. change (skip 0 d) with d.
  rewrite to_nat_size.
  assert (Hfirst : first_n (String.length s) d = s).
  { rewrite Hd. rewrite <- (Nat.add_0_r (String.length s)).
    rewrite first_n_append, first_n_zero. apply append_empty_r. }
  rewrite Hfirst.
  assert (Halpha : contains ALPHA (sv_at d 0) = true).
  { rewrite Hd. destruct s as [|c s']; [discriminate |].
    cbn [is_scheme] in Hs. apply andb_prop in Hs as [Hc _]. exact Hc. }
  rewrite Halpha. run.
  rewrite (sv_substr_slice s 1 npos) by (rewrite ?npos_value; lia). run.
  rewrite scheme_tail_test.
  assert (Htail :
    match first_n (Z.to_nat npos) (skip (Z.to_nat 1) s) with
    | EmptyString => true
    | String c _ => contains SCHEME_NOT_FIRST c
    end = true).
  { destruct s as [|c s']; [discriminate |].
    change (skip (Z.to_nat 1) (String c s')) with s'.
    cbn [is_scheme] in Hs. apply andb_prop in Hs as [_ Hs'].
    destruct s' as [|c' s'']; [now rewrite first_n_zero || reflexivity |].
    cbn [all_in] in Hs'. apply andb_prop in Hs' as [Hc' _].
    rewrite first_n_all; [exact Hc' |].
    rewrite !size_cons in *. rewrite npos_value, max_size_value in *.
    unfold size in *. cbn [String.length] in *. lia. }
  rewrite Htail. run.
  rewrite add_exact by (rewrite modulus_value, max_size_value in *; lia).
  rewrite (sv_substr_slice d (size s + 1) 2) by lia. run.
  replace (Z.to_nat (size s + 1)) with (String.length s + 1)%nat
    by (unfold size; lia).
  assert (Hskip : skip (String.length s + 1) d = rest).
  { rewrite Hd, skip_append. reflexivity. }
  rewrite Hskip.
  change (String.eqb (first_n (Z.to_nat 2) rest) "//")
    with (starts_with rest "//").
  destruct (starts_with rest "//"); run.
  - rewrite add_exact by (rewrite modulus_value, max_size_value in *; lia).
    reflexivity.
  - reflexivity.
Qed.

Lemma first_n_prefix (a b : string) :
  first_n (String.length a) (a +:+ b) = a.
Proof.
  rewrite <- (Nat.add_0_r (String.length a)).
  rewrite first_n_append, first_n_zero. apply append_empty_r.
Qed.

Lemma scheme_prefixed (s rest : string) :
  is_scheme s = true ->
  size (s +:+ String ":" rest) < SizeT.max_size ->
  scheme (uri_of (s +:+ String ":" rest))
  = (Ok s,
     set_authority_start
       (if starts_with rest "//" then size s + 3
        else size (s +:+ String ":" rest))
       (set_scheme_end (size s) (uri_of (s +:+ String ":" rest)))).
Proof.
  intros Hs Hsz. unfold scheme. unfold noexcept at 1, bind at 1.
  rewrite (parse_scheme_prefix s rest) by (try reflexivity; assumption).
  unfold uri_of in *. run.
  pose proof (size_nonneg s). pose proof (size_nonneg rest).
  assert (Hlen : size (s +:+ String ":" rest) = size s + 1 + size rest).
  { rewrite size_append, size_cons. lia. }
  destruct (Z.eqb_spec (size s) (size (s +:+ String ":" rest))); [lia |].
  rewrite substr_slice by (unfold_fields; lia). unfold_fields.
  change (Z.to_nat 0) with O. cbn [skip].
  now rewrite to_nat_size, first_n_prefix.
Qed.

(** X9: on a buffer made of a valid scheme, a colon and any rest,
    [scheme()] returns that scheme and [has_scheme()] is true. *)
Theorem scheme_of_prefixed_buffer (s rest : string) :
  is_scheme s = true ->
  size (s +:+ String ":" rest) < SizeT.max_size ->
  fst (scheme (uri_of (s +:+ String ":" rest))) = Ok s
  /\ fst (has_scheme (uri_of (s +:+ String ":" rest))) = Ok true.
Proof.
  intros Hs Hsz. split.
  - now rewrite scheme_prefixed.
  - unfold has_scheme. unfold noexcept at 1, bind at 1.
    rewrite (parse_scheme_prefix s rest) by (try reflexivity; assumption).
    unfold uri_of. run. cbn [fst]. f_equal.
    pose proof (size_nonneg rest).
    assert (Hlen : size (s +:+ String ":" rest) = size s + 1 + size rest).
    { rewrite size_append, size_cons. lia. }
    destruct (Z.eqb_spec (size s) (size (s +:+ String ":" rest))); [lia |].
    reflexivity.
Qed.

Lemma scheme_of_prefixed_buffer_witness :
  is_scheme "svn+ssh" = true
  /\ size ("svn+ssh" +:+ String ":" "//h/p?q#f") < SizeT.max_size
  /\ fst (scheme (uri_of ("svn+ssh" +:+ String ":" "//h/p?q#f")))
     = Ok "svn+ssh"
  /\ fst (has_scheme (uri_of ("svn+ssh" +:+ String ":" "//h/p?q#f")))
     = Ok true.
Proof.
  split; [vm_compute; reflexivity |].
  split; [vm_compute; reflexivity |].
  apply (scheme_of_prefixed_buffer "svn+ssh" "//h/p?q#f");
    vm_compute; reflexivity.
Defined.

(** X10: a buffer that starts with ["//"], or that holds no colon, has no
    scheme: [scheme()] returns the empty string, and [has_scheme()] is
    true only for the empty buffer. *)
Theorem scheme_absent (buffer : string) :
  starts_with buffer "//" = true \/ occurs ":" buffer = false ->
  fst (scheme (uri_of buffer)) = Ok EmptyString
  /\ fst (has_scheme (uri_of buffer)) = Ok (size buffer =? 0).
Proof.
  intros H.
  assert (Hparse :
    exists va,
      parse_scheme (uri_of buffer)
      = (Ok tt, set_scheme_end (size buffer)
                  (set_authority_start va (uri_of buffer)))).
  { destruct (starts_with buffer "//") eqn:Hslashes.
    - exists 2. now apply parse_scheme_double_slash.
    - destruct H as [H | H]; [discriminate |]. exists (size buffer).
      unfold parse_scheme. cbv zeta. unfold uri_of. run.
      change (npos =? npos) with true. cbn [negb]. run.
      rewrite Hslashes, (sv_find_none buffer ":" H).
      change (npos =? npos) with true. cbn [negb]. run. reflexivity. }
  destruct Hparse as [va Hparse]. split.
  - unfold scheme. unfold noexcept at 1, bind at 1. rewrite Hparse.
    unfold uri_of. run. now rewrite Z.eqb_refl.
  - unfold has_scheme. unfold noexcept at 1, bind at 1. rewrite Hparse.
    unfold uri_of. run. now rewrite Z.eqb_refl.
Qed.

Lemma scheme_absent_witness :
  (starts_with "//example.com/a:b" "//" = true
   \/ occurs ":" "//example.com/a:b" = false)
  /\ fst (scheme (uri_of "//example.com/a:b")) = Ok EmptyString
  /\ fst (has_scheme (uri_of "//example.com/a:b"))
     = Ok (size "//example.com/a:b" =? 0).
Proof.
  split.
  - left. vm_compute. reflexivity.
  - apply (scheme_absent "//example.com/a:b"). left. vm_compute. reflexivity.
Defined.

(** X11: [is_urn()] on a buffer with a valid scheme: true exactly when the
    scheme is ["urn"] and no authority follows the colon; the two slashes
    alone, with nothing after them, do not count as one. *)
Theorem is_urn_of_prefixed_buffer (s rest : string) :
  is_scheme s = true ->
  size (s +:+ String ":" rest) < SizeT.max_size ->
  fst (is_urn (uri_of (s +:+ String ":" rest)))
  = Ok (String.eqb s "urn"
        && (negb (starts_with rest "//") || (size rest =? 2))).
Proof.
  intros Hs Hsz. unfold is_urn. unfold noexcept at 1, bind at 1.
  rewrite (scheme_prefixed s rest Hs Hsz). unfold uri_of. run.
  cbn [fst]. f_equal. f_equal.
  assert (Hlen : size (s +:+ String ":" rest) = size s + 1 + size rest).
  { rewrite size_append, size_cons. lia. }
  destruct (starts_with rest "//"); cbn [negb orb].
  - rewrite Hlen.
    destruct (Z.eqb_spec (size s + 3) (size s + 1 + size rest));
      destruct (Z.eqb_spec (size rest) 2); try lia; reflexivity.
  - apply Z.eqb_refl.
Qed.

Lemma is_urn_of_prefixed_buffer_witness :
  is_scheme "urn" = true
  /\ size ("urn" +:+ String ":" "isbn:0451450523") < SizeT.max_size
  /\ fst (is_urn (uri_of ("urn" +:+ String ":" "isbn:0451450523")))
     = Ok (String.eqb "urn" "urn"
           && (negb (starts_with "isbn:0451450523" "//")
               || (size "isbn:0451450523" =? 2))).
Proof.
  split; [vm_compute; reflexivity |].
  split; [vm_compute; reflexivity |].
  apply (is_urn_of_prefixed_buffer "urn" "isbn:0451450523");
    vm_compute; reflexivity.
Defined.

(** ** Replacing a part of the buffer *)

(** [replace_value] splices the replacement into the buffer and forgets
    the offsets. *)
Lemma replace_value_splice (start len : Z) (replacement : string)
    (u : basic_uri) :
  0 <= start <= size (data u) ->
  0 <= len ->
  size (data u) < SizeT.max_size ->
  len < SizeT.max_size ->
  (len =? 0) && empty replacement = false ->
  replace_value start len replacement u
  = (Ok tt,
     uri_of (first_n (Z.to_nat start) (data u)
             +:+ replacement
             +:+ skip (Z.to_nat (Z.min (size (data u)) (start + len)))
                   (data u))).
Proof.
  intros Hstart Hlen Hsz Hlen' Hnoop.
  unfold replace_value. unfold noexcept at 1.
  destruct (Z.eqb_spec start npos) as [E | _];
    [rewrite npos_value, max_size_value in *; lia |].
  destruct (Z.eqb_spec len npos) as [E | _];
    [rewrite npos_value, max_size_value in *; lia |].
  rewrite Hnoop. cbn [orb].
  unfold bind at 1. rewrite substr_slice by lia.
  change (Z.to_nat 0) with O. cbn [skip].
  unfold bind at 1, gets at 1. unfold bind at 1.
  rewrite add_exact by (rewrite modulus_value, max_size_value in *; lia).
  unfold data_size.
  rewrite substr_slice by (rewrite ?npos_value; lia).
  rewrite (first_n_all (skip _ _))
    by (rewrite length_skip; rewrite npos_value, max_size_value in *;
        unfold size in *; lia).
  unfold bind, modify, unparse, unparse_state, set_data. unfold_fields.
  reflexivity.
Qed.

Lemma all_in_skip (cs : charset_t) (s : string) (k : nat) :
  all_in cs s = true -> all_in cs (skip k s) = true.
Proof.
  revert k. induction s as [|c s IH]; intros [|k] H; try exact H.
  cbn [skip]. apply IH. cbn [all_in] in H.
  now apply andb_prop in H as [_ H].
Qed.

Lemma all_in_ends_with (cs : charset_t) (s : string) (c : ascii) :
  all_in cs s = true -> contains cs c = false -> ends_with s c = false.
Proof.
  intros Hall Hc. unfold ends_with.
  destruct (String.length s) as [|n]; [reflexivity |].
  destruct (String.eqb_spec (skip n s) (String c EmptyString)) as [E | _];
    [| reflexivity].
  apply (all_in_skip cs s n) in Hall. rewrite E in Hall.
  cbn [all_in] in Hall. rewrite Hc in Hall. discriminate.
Qed.

Lemma is_scheme_size (s : string) : is_scheme s = true -> 1 <= size s.
Proof.
  destruct s; [discriminate |]. intros _. rewrite size_cons.
  pose proof (size_nonneg s). lia.
Qed.

(** X12: the scheme setter on a buffer that has a scheme replaces exactly
    the scheme: the rest of the buffer stays, and [scheme()] then returns
    the new scheme. *)
Theorem set_scheme_replaces_scheme (s t rest : string) :
  is_scheme s = true ->
  is_scheme t = true ->
  size (s +:+ String ":" rest) < SizeT.max_size ->
  size (t +:+ String ":" rest) < SizeT.max_size ->
  set_scheme t (uri_of (s +:+ String ":" rest))
  = (Ok tt, uri_of (t +:+ String ":" rest))
  /\ fst (scheme (uri_of (t +:+ String ":" rest))) = Ok t.
Proof.
  intros Hs Ht Hsz Htz. split; [| now rewrite scheme_prefixed].
  pose proof (is_scheme_size s Hs) as Hs1.
  pose proof (is_scheme_size t Ht) as Ht1.
  pose proof (size_nonneg rest) as Hr0.
  assert (Hlen : size (s +:+ String ":" rest) = size s + 1 + size rest).
  { rewrite size_append, size_cons. lia. }
  unfold set_scheme.
  rewrite (all_in_ends_with SCHEME_NOT_FIRST t ":")
    by (try reflexivity; now apply is_scheme_chars).
  rewrite Ht. cbn [negb].
  unfold bind at 1.
  rewrite (parse_scheme_prefix s rest) by (try reflexivity; assumption).
  unfold uri_of at 1 2. run.
  destruct (Z.eqb_spec (size s) (size (s +:+ String ":" rest))); [lia |].
  cbn [negb].
  assert (Hempty : empty t = false).
  { unfold empty. destruct (Z.eqb_spec (size t) 0); [lia | reflexivity]. }
  rewrite Hempty. cbn [andb].
  rewrite replace_value_splice; unfold_fields;
    try (rewrite ?max_size_value in *; lia).
  change (Z.to_nat 0) with O. rewrite first_n_zero.
  change (EmptyString +:+ ?x) with x.
  rewrite Z.min_r by lia. change (0 + size s) with (size s).
  rewrite to_nat_size.
  rewrite <- (Nat.add_0_r (String.length s)), skip_append.
  reflexivity.
Qed.

Lemma set_scheme_replaces_scheme_witness :
  is_scheme "http" = true
  /\ is_scheme "https" = true
  /\ size ("http" +:+ String ":" "//example.com/") < SizeT.max_size
  /\ size ("https" +:+ String ":" "//example.com/") < SizeT.max_size
  /\ set_scheme "https" (uri_of ("http" +:+ String ":" "//example.com/"))
     = (Ok tt, uri_of ("https" +:+ String ":" "//example.com/"))
  /\ fst (scheme (uri_of ("https" +:+ String ":" "//example.com/")))
     = Ok "https".
Proof.
  split; [vm_compute; reflexivity |].
  split; [vm_compute; reflexivity |].
  split; [vm_compute; reflexivity |].
  split; [vm_compute; reflexivity |].
  apply (set_scheme_replaces_scheme "http" "https" "//example.com/");
    vm_compute; reflexivity.
Defined.

(** ** The structured view of the query *)

Lemma find_if_skip (p : ascii -> bool) (s : string) (i : nat) :
  find_if p s = Some i -> find_if p (skip i s) = Some O.
Proof.
  revert i. induction s as [|x s IH]; intros i H; [discriminate |].
  cbn [find_if] in H. destruct (p x) eqn:Hx.
  - injection H as <-. cbn [skip find_if]. now rewrite Hx.
  - destruct (find_if p s) as [j|]; [| discriminate].
    injection H as <-. cbn [skip]. now apply IH.
Qed.

(** A search that starts at a found position finds it again. *)
Lemma sv_find_again (s : string) (c : ascii) :
  sv_find s c 0 <> npos -> sv_find s c (sv_find s c 0) = sv_find s c 0.
Proof.
  rewrite sv_find_start. unfold index_or_npos.
  destruct (find_if (Ascii.eqb c) s) as [i|] eqn:E; [| congruence].
  intros _. pose proof (find_if_bound _ _ _ E) as Hi.
  unfold sv_find.
  destruct (Z.leb_spec (size s) (0 + Z.of_nat i)) as [H | _];
    [unfold size in H; lia |].
  replace (Z.to_nat (0 + Z.of_nat i)) with i by lia.
  rewrite (find_if_skip _ _ _ E). unfold index_or_npos. lia.
Qed.

Lemma abrupt_not_ok {A B : Type} (o : outcome A) (b : B) :
  abrupt o <> Ok b.
Proof. destruct o; discriminate. Qed.

Lemma obind_ok {A B : Type} (o : outcome A) (f : A -> outcome B) (b : B) :
  obind o f = Ok b -> exists a, o = Ok a /\ f a = Ok b.
Proof.
  destruct o; cbn [obind]; intros H; try (now apply abrupt_not_ok in H).
  now exists a.
Qed.

(** Once the loop stands on an ['&'] it stays there: the next search
    starts at the separator and finds it again. *)
Lemma query_structured_loop_stuck (q : string) (p : Z) :
  p <> npos ->
  sv_find q "&" p = p ->
  forall (fuel : nat) (m r : gmap string string),
    query_structured_loop fuel q p m <> Ok r.
Proof.
  intros Hp Hfind. apply Z.eqb_neq in Hp.
  induction fuel as [|fuel IH]; intros m r; [discriminate |].
  cbn [query_structured_loop]. rewrite Hfind, Hp. cbn [negb].
  intros H.
  apply obind_ok in H as (eq_sep & _ & H).
  apply obind_ok in H as (name & _ & H).
  destruct (empty name); [now apply IH in H |].
  apply obind_ok in H as (value & _ & H).
  destruct (decode_uri_component name _); now apply IH in H.
Qed.

Lemma query_structured_loop_first (fuel : nat) (q : string)
    (r : gmap string string) :
  query_structured_loop fuel q 0 ∅ = Ok r ->
  sv_find q "&" 0 = npos
  /\ (r = ∅ \/ exists k v : string, r = {[ k := v ]}).
Proof.
  destruct fuel as [|fuel]; [discriminate |].
  cbn [query_structured_loop].
  destruct (Z.eqb_spec (sv_find q "&" 0) npos) as [E | NE]; cbn [negb].
  - intros H. split; [exact E |].
    apply obind_ok in H as (eq_sep & _ & H).
    apply obind_ok in H as (name & _ & H).
    destruct (empty name); [left; congruence |].
    apply obind_ok in H as (value & _ & H).
    destruct (decode_uri_component name _) as [d|]; [| left; congruence].
    right. eexists _, _. injection H as <-. apply insert_empty.
  - intros H. exfalso.
    pose proof (query_structured_loop_stuck q _ NE (sv_find_again q "&" NE))
      as Hstuck.
    apply obind_ok in H as (eq_sep & _ & H).
    apply obind_ok in H as (name & _ & H).
    destruct (empty name); [now apply Hstuck in H |].
    apply obind_ok in H as (value & _ & H).
    destruct (decode_uri_component name _); now apply Hstuck in H.
Qed.

Lemma query_structured_ok (fuel : nat) (u : basic_uri)
    (r : gmap string string) :
  fst (query_structured fuel u) = Ok r ->
  exists q, fst (query u) = Ok q /\ query_structured_loop fuel q 0 ∅ = Ok r.
Proof.
  unfold query_structured, noexcept, bind, lift.
  destruct (query u) as [[q | e | | |] u']; cbn [abrupt fst];
    try discriminate.
  intros H. exists q. split; [reflexivity |].
  destruct (query_structured_loop fuel q 0 ∅); cbn [fst] in H;
    try discriminate. exact H.
Qed.

(** X13: whenever [query_structured()] returns, the map holds at most one
    entry. *)
Theorem query_structured_at_most_one_entry (fuel : nat) (u : basic_uri)
    (r : gmap string string) :
  fst (query_structured fuel u) = Ok r ->
  r = ∅ \/ exists k v : string, r = {[ k := v ]}.
Proof.
  intros H. apply query_structured_ok in H as (q & _ & H).
  now apply query_structured_loop_first in H.
Qed.

Lemma query_structured_at_most_one_entry_witness :
  fst (query_structured 1 (uri_of "s://h/p?name=ferret"))
  = Ok {[ "ame=ferret" := EmptyString ]}
  /\ ({[ "ame=ferret" := EmptyString ]} = (∅ : gmap string string)
      \/ exists k v : string,
           ({[ "ame=ferret" := EmptyString ]} : gmap string string)
           = {[ k := v ]}).
Proof.
  split.
  - vm_compute. exact eq_refl.
  - apply (query_structured_at_most_one_entry 1
             (uri_of "s://h/p?name=ferret")).
    vm_compute. exact eq_refl.
Defined.

Lemma sv_find_occurs (s : string) (c : ascii) :
  size s < SizeT.max_size -> occurs c s = true -> sv_find s c 0 <> npos.
Proof.
  intros Hsz Hocc. destruct (sv_find_split s c Hsz) as [-> Hle].
  destruct (after_first c s) eqn:E.
  - pose proof (size_nonneg (before_first c s)).
    rewrite npos_value, max_size_value in *. lia.
  - apply after_first_none in E. congruence.
Qed.

(** X14: [query_structured()] never returns for a query that holds an
    ['&']: after the first pair the loop searches from the separator it
    has just found, and finds it again, for ever. *)
Theorem query_structured_never_returns_with_ampersand (fuel : nat)
    (u : basic_uri) (q : string) (r : gmap string string) :
  fst (query u) = Ok q ->
  size q < SizeT.max_size ->
  occurs "&" q = true ->
  fst (query_structured fuel u) <> Ok r.
Proof.
  intros Hq Hsz Hamp H. apply query_structured_ok in H as (q' & Hq' & H).
  assert (q' = q) as -> by congruence.
  apply query_structured_loop_first in H as [Hnone _].
  now apply (sv_find_occurs q "&" Hsz Hamp).
Qed.

Lemma query_structured_never_returns_with_ampersand_witness :
  fst (query (uri_of "s://h/p?a=1&b=2")) = Ok "a=1&b=2"
  /\ size "a=1&b=2" < SizeT.max_size
  /\ occurs "&" "a=1&b=2" = true
  /\ fst (query_structured 100 (uri_of "s://h/p?a=1&b=2")) <> Ok ∅.
Proof.
  split; [vm_compute; reflexivity |].
  split; [vm_compute; reflexivity |].
  split; [vm_compute; reflexivity |].
  apply (query_structured_never_returns_with_ampersand 100
           (uri_of "s://h/p?a=1&b=2") "a=1&b=2" ∅);
    vm_compute; reflexivity.
Defined.

(** X15: on a URI whose query is empty, [query_structured()] asks for the
    substring at position 1 of the empty view; the exception leaves a
    [noexcept] function and ends the program. *)
Theorem query_structured_empty_query_terminates (fuel : nat)
    (u : basic_uri) :
  fst (query u) = Ok EmptyString ->
  fst (query_structured (S fuel) u) = Terminate.
Proof.
  unfold query_structured, noexcept, bind, lift.
  destruct (query u) as [[q | e | | |] u']; cbn [abrupt fst];
    try discriminate.
  intros [= ->]. reflexivity.
Qed.

Lemma query_structured_empty_query_terminates_witness :
  fst (query (uri_of "http://example.com/index.html")) = Ok EmptyString
  /\ fst (query_structured 1 (uri_of "http://example.com/index.html"))
     = Terminate.
Proof.
  split.
  - vm_compute. reflexivity.
  - apply (query_structured_empty_query_terminates 0
             (uri_of "http://example.com/index.html")).
    vm_compute. reflexivity.
Defined.

(** ** The accessors return, and remember *)

Lemma stable_intro {A B : Type} (P : M B) (k : B -> M A) (u : basic_uri) :
  post P u
    (fun b u1 =>
       data u1 = data u /\ Inv u1 /\ P u1 = (Ok b, u1)
       /\ post (k b) u1 (fun _ u2 => u2 = u1)) ->
  stable (noexcept (bind P k)) u.
Proof.
  intros (b & u1 & HP & Hd & HI & Hmemo & r & u2 & Hk & ->).
  exists r, u1. unfold noexcept, bind. rewrite HP, Hk, Hmemo, Hk.
  now split_all.
Qed.

Lemma offset_known (u : basic_uri) (v : Z) :
  Inv u -> 0 <= v <= data_size u -> v <> npos.
Proof.
  intros HI Hv. apply Inv_size in HI.
  rewrite npos_value, max_size_value in *. lia.
Qed.

Lemma parse_fragment_memo (u : basic_uri) :
  fragment_start u <> npos -> parse_fragment u = (Ok tt, u).
Proof.
  intros H. apply Z.eqb_neq in H. unfold parse_fragment. run. now rewrite H.
Qed.

Lemma parse_query_memo (u : basic_uri) :
  query_start u <> npos -> parse_query u = (Ok tt, u).
Proof.
  intros H. apply Z.eqb_neq in H. unfold parse_query. run. now rewrite H.
Qed.

Lemma parse_scheme_memo (u : basic_uri) :
  scheme_end u <> npos -> parse_scheme u = (Ok tt, u).
Proof.
  intros H. apply Z.eqb_neq in H. unfold parse_scheme. run. now rewrite H.
Qed.

Lemma parse_path_memo (u : basic_uri) :
  authority_end u <> npos -> parse_path u = (Ok tt, u).
Proof.
  intros H. apply Z.eqb_neq in H. unfold parse_path. run. now rewrite H.
Qed.

Lemma parse_user_info_memo (u : basic_uri) :
  user_info_end u <> npos -> parse_user_info u = (Ok tt, u).
Proof.
  intros H. apply Z.eqb_neq in H. unfold parse_user_info. run. now rewrite H.
Qed.

Lemma parse_port_memo (u : basic_uri) :
  port_start u <> npos -> parse_port u = (Ok tt, u).
Proof.
  intros H. apply Z.eqb_neq in H. unfold parse_port. run. now rewrite H.
Qed.

Lemma parse_host_memo (u : basic_uri) :
  resolved u -> parse_host u = (Ok tt, u).
Proof.
  intros (_ & _ & Hue & Hps & Hae & _). unfold parse_host, noexcept, bind.
  now rewrite (parse_user_info_memo u Hue), (parse_port_memo u Hps),
    (parse_path_memo u Hae).
Qed.

(** The tail of an accessor: a slice inside the buffer, or nothing. *)
Lemma slice_returns (start len : Z) (u : basic_uri) :
  0 <= start <= data_size u -> 0 <= len ->
  post (substr start len) u (fun _ u' => u' = u).
Proof.
  intros Hs Hl. eapply post_weaken; [now apply substr_post |].
  now intros t u' [-> _].
Qed.

Lemma scheme_stable (u : basic_uri) : Inv u -> stable scheme u.
Proof.
  intros HI. unfold scheme. apply stable_intro.
  eapply post_weaken; [apply (parse_scheme_post u HI) |].
  intros [] u1 ((vs & va & -> & _) & HI1 & Hok).
  split; [reflexivity |]. split; [exact HI1 |].
  split; [apply parse_scheme_memo, (offset_known _ _ HI1), Hok |].
  steps. unfold id.
  destruct (_ =? _); [step; reflexivity |].
  destruct Hok as (Hse & _).
  apply slice_returns; [unfold data_size in *; lia | apply Hse].
Qed.

Lemma has_scheme_stable (u : basic_uri) : Inv u -> stable has_scheme u.
Proof.
  intros HI. unfold has_scheme. apply stable_intro.
  eapply post_weaken; [apply (parse_scheme_post u HI) |].
  intros [] u1 ((vs & va & -> & _) & HI1 & Hok).
  split; [reflexivity |]. split; [exact HI1 |].
  split; [apply parse_scheme_memo, (offset_known _ _ HI1), Hok |].
  steps. reflexivity.
Qed.

Lemma user_info_stable (u : basic_uri) : Inv u -> stable user_info u.
Proof.
  intros HI. unfold user_info. apply stable_intro.
  eapply post_weaken; [apply (parse_user_info_post u HI) |].
  intros [] u1 (Hd & HI1 & Hok).
  split; [exact Hd |]. split; [exact HI1 |].
  split; [apply parse_user_info_memo, (offset_known _ _ HI1), Hok |].
  steps. unfold id.
  destruct (_ || _); [step; reflexivity |].
  destruct Hok as ((_ & Has & _) & _).
  apply slice_returns; [exact Has | apply sub_range].
Qed.

Lemma has_user_info_stable (u : basic_uri) : Inv u -> stable has_user_info u.
Proof.
  intros HI. unfold has_user_info. apply stable_intro.
  eapply post_weaken; [apply (parse_user_info_post u HI) |].
  intros [] u1 (Hd & HI1 & Hok).
  split; [exact Hd |]. split; [exact HI1 |].
  split; [apply parse_user_info_memo, (offset_known _ _ HI1), Hok |].
  steps. reflexivity.
Qed.

Lemma host_stable (u : basic_uri) : Inv u -> stable host u.
Proof.
  intros HI. unfold host. apply stable_intro.
  eapply post_weaken; [apply (parse_host_post u HI) |].
  intros [] u1 (Hd & HI1 & Hres).
  split; [exact Hd |]. split; [exact HI1 |].
  split; [now apply parse_host_memo |].
  pose proof (resolved_layout u1 HI1 Hres)
    as (_ & Has & Hue & _).
  steps. unfold id. cbv zeta.
  destruct (authority_start u1 =? data_size u1); [step; reflexivity |].
  apply slice_returns.
  - destruct (user_info_end u1 =? data_size u1); assumption.
  - destruct (negb _); [apply sub_range |].
    destruct (negb _); apply sub_range.
Qed.

Lemma has_host_stable (u : basic_uri) : Inv u -> stable has_host u.
Proof.
  intros HI. unfold has_host. apply stable_intro.
  eapply post_weaken; [apply (host_stable u HI) |].
  intros h u1 (Hd & HI1 & Hmemo).
  split; [exact Hd |]. split; [exact HI1 |]. split; [exact Hmemo |].
  step. reflexivity.
Qed.

Lemma port_stable (u : basic_uri) : Inv u -> stable port u.
Proof.
  intros HI. unfold port. apply stable_intro.
  eapply post_weaken; [apply (parse_port_post u HI) |].
  intros [] u1 (Hd & HI1 & Hok).
  split; [exact Hd |]. split; [exact HI1 |].
  split; [apply parse_port_memo, (offset_known _ _ HI1), Hok |].
  steps. unfold id.
  destruct (Z.eqb_spec (port_start u1) (data_size u1)) as [E | NE];
    [step; reflexivity |].
  apply slice_returns; [| apply sub_range].
  destruct Hok as (_ & Hps & _). apply Inv_size in HI1.
  rewrite add_exact by (rewrite modulus_value, max_size_value in *; lia).
  lia.
Qed.

Lemma has_port_stable (u : basic_uri) : Inv u -> stable has_port u.
Proof.
  intros HI. unfold has_port. apply stable_intro.
  eapply post_weaken; [apply (parse_port_post u HI) |].
  intros [] u1 (Hd & HI1 & Hok).
  split; [exact Hd |]. split; [exact HI1 |].
  split; [apply parse_port_memo, (offset_known _ _ HI1), Hok |].
  steps. reflexivity.
Qed.

Lemma has_path_stable (u : basic_uri) : Inv u -> stable has_path u.
Proof.
  intros HI. unfold has_path. apply stable_intro.
  eapply post_weaken; [apply (parse_path_post u HI) |].
  intros [] u1 ((vs & va & vq & vf & ve & -> & _) & HI1 & Hok).
  split; [reflexivity |]. split; [exact HI1 |].
  split; [apply parse_path_memo, (offset_known _ _ HI1), Hok |].
  steps. reflexivity.
Qed.

Lemma path_stable (u : basic_uri) : Inv u -> stable path u.
Proof.
  intros HI. unfold path. apply stable_intro.
  eapply post_weaken; [apply (has_path_stable u HI) |].
  intros p u1 (Hd & HI1 & Hmemo).
  split; [exact Hd |]. split; [exact HI1 |]. split; [exact Hmemo |].
  destruct p; cbn [negb]; [| step; reflexivity].
  steps. unfold id.
  (* [has_path] has run [parse_path]: the end of the authority is known *)
  destruct (parse_path_post u1 HI1) as ([] & u2 & Hrun & _ & _ & Hok).
  unfold has_path, noexcept, bind in Hmemo. rewrite Hrun in Hmemo.
  unfold gets, ret, id in Hmemo. injection Hmemo as _ ->.
  destruct Hok as (_ & _ & Hae & _).
  apply slice_returns; [exact Hae | apply sub_range].
Qed.

Lemma query_stable (u : basic_uri) : Inv u -> stable query u.
Proof.
  intros HI. unfold query. apply stable_intro.
  eapply post_weaken; [apply (parse_query_post u HI) |].
  intros [] u1 ((vq & vf & -> & _) & HI1 & Hok).
  split; [reflexivity |]. split; [exact HI1 |].
  split; [apply parse_query_memo, (offset_known _ _ HI1), Hok |].
  steps. unfold id.
  match goal with
  | |- context [set_query_start ?a (set_fragment_start ?b u)] =>
    set (u1 := set_query_start a (set_fragment_start b u)) in *
  end.
  destruct (Z.eqb_spec (query_start u1) (data_size u1)) as [E | NE];
    [step; reflexivity |].
  apply slice_returns; [| apply sub_range].
  destruct Hok as (_ & Hqs & _). apply Inv_size in HI1.
  rewrite add_exact by (rewrite modulus_value, max_size_value in *; lia).
  lia.
Qed.

Lemma has_query_stable (u : basic_uri) : Inv u -> stable has_query u.
Proof.
  intros HI. unfold has_query. apply stable_intro.
  eapply post_weaken; [apply (parse_query_post u HI) |].
  intros [] u1 ((vq & vf & -> & _) & HI1 & Hok).
  split; [reflexivity |]. split; [exact HI1 |].
  split; [apply parse_query_memo, (offset_known _ _ HI1), Hok |].
  steps. reflexivity.
Qed.

Lemma has_fragment_stable (u : basic_uri) : Inv u -> stable has_fragment u.
Proof.
  intros HI. unfold has_fragment. apply stable_intro.
  eapply post_weaken; [apply (parse_fragment_post u HI) |].
  intros [] u1 ((v & -> & _) & HI1 & Hok).
  split; [reflexivity |]. split; [exact HI1 |].
  split; [apply parse_fragment_memo, (offset_known _ _ HI1), Hok |].
  steps. reflexivity.
Qed.

(** X16: from every state of the cache that satisfies its invariant (a
    freshly built URI does), [scheme], [user_info] and [host] and the
    tests [has_scheme], [has_user_info] and [has_host] return; they keep
    the buffer and the invariant, and a second call returns the same value
    without changing the cache again. *)
Theorem authority_accessors_return_and_remember (u : basic_uri) :
  Inv u ->
  stable scheme u /\ stable has_scheme u
  /\ stable user_info u /\ stable has_user_info u
  /\ stable host u /\ stable has_host u.
Proof.
  intros HI. split_all.
  - now apply scheme_stable.
  - now apply has_scheme_stable.
  - now apply user_info_stable.
  - now apply has_user_info_stable.
  - now apply host_stable.
  - now apply has_host_stable.
Qed.

Lemma authority_accessors_return_and_remember_witness :
  let u := uri_of "foo://example.com:8042/over/there?name=ferret#nose" in
  Inv u
  /\ stable scheme u /\ stable has_scheme u
  /\ stable user_info u /\ stable has_user_info u
  /\ stable host u /\ stable has_host u.
Proof.
  cbv zeta.
  assert (HI : Inv (uri_of
                      "foo://example.com:8042/over/there?name=ferret#nose"))
    by (apply Inv_uri_of; vm_compute; reflexivity).
  split; [exact HI |].
  apply (authority_accessors_return_and_remember
           (uri_of "foo://example.com:8042/over/there?name=ferret#nose") HI).
Defined.

(** X17: from every state of the cache that satisfies its invariant,
    [port], [path] and [query] and the tests [has_port], [has_path],
    [has_query] and [has_fragment] return; they keep the buffer and the
    invariant, and a second call returns the same value without changing
    the cache again. *)
Theorem path_accessors_return_and_remember (u : basic_uri) :
  Inv u ->
  stable port u /\ stable has_port u
  /\ stable path u /\ stable has_path u
  /\ stable query u /\ stable has_query u
  /\ stable has_fragment u.
Proof.
  intros HI. split_all.
  - now apply port_stable.
  - now apply has_port_stable.
  - now apply path_stable.
  - now apply has_path_stable.
  - now apply query_stable.
  - now apply has_query_stable.
  - now apply has_fragment_stable.
Qed.

Lemma path_accessors_return_and_remember_witness :
  let u := uri_of "foo://example.com:8042/over/there?name=ferret#nose" in
  Inv u
  /\ stable port u /\ stable has_port u
  /\ stable path u /\ stable has_path u
  /\ stable query u /\ stable has_query u
  /\ stable has_fragment u.
Proof.
  cbv zeta.
  assert (HI : Inv (uri_of
                      "foo://example.com:8042/over/there?name=ferret#nose"))
    by (apply Inv_uri_of; vm_compute; reflexivity).
  split; [exact HI |].
  apply (path_accessors_return_and_remember
           (uri_of "foo://example.com:8042/over/there?name=ferret#nose") HI).
Defined.

(** ** The mutators reset the cache *)

Lemma replace_value_coherent (start len : Z) (replacement : string)
    (u0 u : basic_uri) :
  data u = data u0 -> Inv u ->
  0 <= start -> 0 <= len ->
  post (replace_value start len replacement) u
    (fun _ u' =>
       (data u' = data u0 /\ Inv u') \/ exists buffer, u' = uri_of buffer).
Proof.
  intros Hd HI Hs Hl.
  eapply post_weaken; [now apply replace_value_resets |].
  intros [] u' [-> | (buffer & ->)]; [left; now split | right].
  now exists buffer.
Qed.

Lemma set_scheme_resets (candidate : string) (u : basic_uri) :
  Inv u ->
  is_scheme (if ends_with candidate ":" then remove_suffix1 candidate
             else candidate) = true ->
  resets (set_scheme candidate) u.
Proof.
  intros HI Hvalid. unfold resets, set_scheme. cbv zeta. rewrite Hvalid.
  cbn [negb]. step.
  eapply post_weaken; [apply (parse_scheme_post u HI) |].
  intros [] u1 ((vs & va & Hu1 & _) & HI1 & (Hse & _)). cbv beta.
  assert (Hd : data u1 = data u) by (now rewrite Hu1).
  clear Hu1. steps. unfold id.
  destruct (negb _).
  - apply (replace_value_coherent _ _ _ u u1 Hd HI1); [lia |].
    destruct (_ && _); [apply add_range | apply Hse].
  - destruct (negb _);
      apply (replace_value_coherent _ _ _ u u1 Hd HI1); lia.
Qed.

Lemma set_user_info_resets (info : string) (u : basic_uri) :
  Inv u -> resets (set_user_info info) u.
Proof.
  intros HI. unfold resets, set_user_info. cbv zeta. steps.
  eapply post_weaken; [apply (parse_user_info_post u HI) |].
  intros [] u1 (Hd & HI1 & ((_ & Has & _) & _)). cbv beta.
  steps. unfold id.
  destruct (_ || _).
  - apply (replace_value_coherent _ _ _ u u1 Hd HI1);
      [apply Has | apply sub_range].
  - destruct (_ =? _).
    + step.
      eapply post_weaken; [apply (parse_scheme_post u1 HI1) |].
      intros [] u2 ((vs & va & Hu2 & _) & HI2 & _). cbv beta.
      assert (Hd2 : data u2 = data u) by (now rewrite Hu2).
      clear Hu2. steps. unfold id.
      destruct (_ =? _);
        apply (replace_value_coherent _ _ _ u u2 Hd2 HI2);
        try lia; apply add_range.
    + apply (replace_value_coherent _ _ _ u u1 Hd HI1); [apply Has | lia].
Qed.

Lemma set_port_resets (new_port : string) (u : basic_uri) :
  Inv u ->
  is_digit (if starts_with new_port ":" then remove_prefix1 new_port
            else new_port) = true ->
  resets (set_port new_port) u.
Proof.
  intros HI Hvalid. unfold resets, set_port. cbv zeta. rewrite Hvalid.
  cbn [negb]. steps.
  eapply post_weaken; [apply (parse_port_post u HI) |].
  intros [] u1 (Hd & HI1 & _). cbv beta.
  steps. unfold id.
  destruct (_ =? _).
  - step.
    eapply post_weaken; [apply (parse_host_post u1 HI1) |].
    intros [] u2 (Hd2 & HI2 & Hres). cbv beta.
    rewrite Hd in Hd2.
    pose proof (resolved_layout u2 HI2 Hres) as (_ & _ & _ & _ & Hae & _).
    steps. unfold id.
    repeat match goal with
           | |- post (if ?b then _ else _) _ _ => destruct b
           end;
      apply (replace_value_coherent _ _ _ u u2 Hd2 HI2);
      try lia; try apply add_range; apply Hae.
  - apply (replace_value_coherent _ _ _ u u1 Hd HI1); [apply add_range |].
    destruct (_ =? _); [apply sub_range |].
    destruct HI1 as (_ & _ & _ & _ & [-> | (_ & _ & Hae & _)] & _);
      [rewrite npos_value; lia | apply Hae].
Qed.

Lemma set_path_keeps_coherent (new_path : string) (u : basic_uri) :
  Inv u -> resets (set_path new_path) u.
Proof.
  intros HI. unfold resets, set_path. cbv zeta. steps.
  eapply post_weaken; [apply (parse_path_post u HI) |].
  intros [] u1 ((vs & va & vq & vf & ve & Hu1 & _) & HI1 & Hok). cbv beta.
  assert (Hd : data u1 = data u) by (now rewrite Hu1).
  clear Hu1. steps. unfold id.
  apply (replace_value_coherent _ _ _ u u1 Hd HI1); [| apply sub_range].
  destruct Hok as (_ & _ & Hae & _). apply Hae.
Qed.

Section ExternalValidators.

Variable is_ipv6 : string -> bool.
Variable is_query : string -> bool.

Lemma set_host_resets (new_host : string) (u : basic_uri) :
  Inv u -> resets (set_host is_ipv6 new_host) u.
Proof.
  intros HI. unfold resets, set_host. cbv zeta. steps.
  eapply post_weaken; [apply (parse_host_post u HI) |].
  intros [] u1 (Hd & HI1 & Hres). cbv beta.
  pose proof (resolved_layout u1 HI1 Hres)
    as (Hse & Has & Hue & _).
  steps. unfold id.
  destruct (authority_start u1 =? data_size u1).
  - destruct (empty _); [step; left; now split |].
    destruct (_ =? _);
      apply (replace_value_coherent _ _ _ u u1 Hd HI1); try lia; apply Hse.
  - destruct (user_info_end u1 =? data_size u1);
      [destruct (scheme_end u1 =? data_size u1) |];
      apply (replace_value_coherent _ _ _ u u1 Hd HI1);
      try apply sub_range; try lia; try apply Has; apply Hue.
Qed.

Lemma set_query_resets (new_query : string) (u : basic_uri) :
  Inv u ->
  is_query new_query = true ->
  resets (set_query is_query new_query) u.
Proof.
  intros HI Hvalid. unfold resets, set_query. cbv zeta. rewrite Hvalid.
  cbn [negb]. step.
  eapply post_weaken; [apply (parse_query_post u HI) |].
  intros [] u1 ((vq & vf & Hu1 & _) & HI1 & (Hfs & Hqs & _)). cbv beta.
  assert (Hd : data u1 = data u) by (now rewrite Hu1).
  clear Hu1. steps. unfold id.
  destruct (negb (query_start u1 =? data_size u1)).
  - destruct (negb (fragment_start u1 =? data_size u1)).
    + apply (replace_value_coherent _ _ _ u u1 Hd HI1); [apply Hfs | lia].
    + step.
      eapply post_weaken; [apply (parse_path_post u1 HI1) |].
      intros [] u2 ((vs & va & vq' & vf' & ve & Hu2 & _) & HI2 & Hok).
      cbv beta.
      assert (Hd2 : data u2 = data u) by (now rewrite Hu2).
      clear Hu2. steps. unfold id.
      destruct (authority_end u2 =? data_size u2).
      * step.
        eapply post_weaken; [apply (parse_scheme_post u2 HI2) |].
        intros [] u3 ((vs' & va' & Hu3 & _) & HI3 & (Hse & Has & _)).
        cbv beta.
        assert (Hd3 : data u3 = data u) by (now rewrite Hu3).
        clear Hu3. steps. unfold id.
        destruct (authority_start u3 =? data_size u3);
          [destruct (scheme_end u3 =? data_size u3) |];
          apply (replace_value_coherent _ _ _ u u3 Hd3 HI3);
          try lia; try apply Hse; apply Has.
      * destruct (Ascii.eqb _ _);
          apply (replace_value_coherent _ _ _ u u2 Hd2 HI2);
          try lia; apply add_range.
  - apply (replace_value_coherent _ _ _ u u1 Hd HI1);
      [apply Hqs | apply sub_range].
Qed.

End ExternalValidators.

(** X18: the three validating setters return and leave the cache
    coherent when they accept their argument: either the buffer is
    untouched and the invariant of the offsets holds, or the buffer was
    rewritten and all seven offsets are unknown again.  They reject an
    argument before they touch anything: [scheme] and [query] throw
    [std::invalid_argument], and the [throw] of [port], inside a function
    declared [noexcept], ends the program. *)
Theorem validating_setters_keep_the_cache_coherent
    (is_query : string -> bool) (u : basic_uri) (v : string) :
  Inv u ->
  (if is_scheme (if ends_with v ":" then remove_suffix1 v else v)
   then resets (set_scheme v) u
   else set_scheme v u = (Throw invalid_argument, u))
  /\ (if is_digit (if starts_with v ":" then remove_prefix1 v else v)
      then resets (set_port v) u
      else set_port v u = (Terminate, u))
  /\ (if is_query v
      then resets (set_query is_query v) u
      else set_query is_query v u = (Throw invalid_argument, u)).
Proof.
  intros HI. split_all.
  - destruct (is_scheme _) eqn:E;
      [now apply set_scheme_resets | now apply set_scheme_invalid].
  - destruct (is_digit _) eqn:E;
      [now apply set_port_resets | now apply set_port_invalid].
  - destruct (is_query v) eqn:E; [now apply set_query_resets |].
    unfold set_query. now rewrite E.
Qed.

Lemma validating_setters_keep_the_cache_coherent_witness :
  let u := uri_of "http://example.com/index.html" in
  let v := "8080" in
  let is_query := fun _ : string => true in
  Inv u
  /\ (if is_scheme (if ends_with v ":" then remove_suffix1 v else v)
      then resets (set_scheme v) u
      else set_scheme v u = (Throw invalid_argument, u))
  /\ (if is_digit (if starts_with v ":" then remove_prefix1 v else v)
      then resets (set_port v) u
      else set_port v u = (Terminate, u))
  /\ (if is_query v
      then resets (set_query is_query v) u
      else set_query is_query v u = (Throw invalid_argument, u)).
Proof.
  cbv zeta.
  assert (HI : Inv (uri_of "http://example.com/index.html"))
    by (apply Inv_uri_of; vm_compute; reflexivity).
  split; [exact HI |].
  apply (validating_setters_keep_the_cache_coherent (fun _ => true)
           (uri_of "http://example.com/index.html") "8080" HI).
Defined.

(** X19: the setters of the user information, of the host and of the
    path return for every argument and leave the cache coherent: either
    the buffer is untouched and the invariant of the offsets holds, or the
    buffer was rewritten and all seven offsets are unknown again. *)
Theorem encoding_setters_keep_the_cache_coherent
    (is_ipv6 : string -> bool) (u : basic_uri) (v : string) :
  Inv u ->
  resets (set_user_info v) u
  /\ resets (set_host is_ipv6 v) u
  /\ resets (set_path v) u.
Proof.
  intros HI. split_all.
  - now apply set_user_info_resets.
  - now apply set_host_resets.
  - now apply set_path_keeps_coherent.
Qed.

Lemma encoding_setters_keep_the_cache_coherent_witness :
  let u := uri_of "http://example.com/index.html" in
  let v := "a b" in
  let is_ipv6 := fun _ : string => false in
  Inv u
  /\ resets (set_user_info v) u
  /\ resets (set_host is_ipv6 v) u
  /\ resets (set_path v) u.
Proof.
  cbv zeta.
  assert (HI : Inv (uri_of "http://example.com/index.html"))
    by (apply Inv_uri_of; vm_compute; reflexivity).
  split; [exact HI |].
  apply (encoding_setters_keep_the_cache_coherent (fun _ => false)
           (uri_of "http://example.com/index.html") "a b" HI).
Defined.

(** ** The components of a hierarchical URI *)

Lemma none_in_occurs (cs : charset_t) (c : ascii) (s : string) :
  none_in cs s = true -> contains cs c = true -> occurs c s = false.
Proof.
  intros Hnone Hc. induction s as [|x s IH]; [reflexivity |].
  cbn [none_in occurs] in *. apply andb_prop in Hnone as [Hx Hs].
  rewrite (IH Hs), orb_false_r.
  destruct (Ascii.eqb_spec c x) as [-> | _]; [| reflexivity].
  rewrite Hc in Hx. discriminate.
Qed.

Lemma before_first_append (c : ascii) (a b : string) :
  occurs c a = false ->
  before_first c (a +:+ b) = a +:+ before_first c b
  /\ after_first c (a +:+ b) = after_first c b.
Proof.
  intros H. induction a as [|x a IH]; [now split |].
  rewrite !append_cons. cbn [occurs before_first after_first] in *.
  apply orb_false_elim in H as [Hx Ha]. rewrite Hx.
  destruct (IH Ha) as [-> ->]. now split.
Qed.

Lemma before_first_is_prefix (c : ascii) (s : string) :
  first_n (String.length (before_first c s)) s = before_first c s.
Proof.
  induction s as [|x s IH]; [reflexivity |].
  cbn [before_first]. destruct (Ascii.eqb c x); [reflexivity |].
  cbn [String.length first_n]. now rewrite IH.
Qed.

Lemma before_first_length (c : ascii) (s : string) :
  (String.length (before_first c s) <= String.length s)%nat.
Proof. pose proof (before_first_size c s). unfold size in *. lia. Qed.

Lemma first_n_first_n (s : string) (i j : nat) :
  (i <= j)%nat -> first_n i (first_n j s) = first_n i s.
Proof.
  revert i j. induction s as [|x s IH]; intros [|i] [|j] H; try reflexivity;
    try lia.
  cbn [first_n]. rewrite IH by lia. reflexivity.
Qed.

(** The path inside a tail: what stands before the first ['?'] or ['#']. *)
Lemma path_is_prefix (t : string) :
  first_n (String.length (before_first "?" (before_first "#" t))) t
  = before_first "?" (before_first "#" t).
Proof.
  transitivity
    (first_n (String.length (before_first "?" (before_first "#" t)))
       (first_n (String.length (before_first "#" t)) t)).
  - symmetry. apply first_n_first_n, before_first_length.
  - rewrite (before_first_is_prefix "#" t). apply before_first_is_prefix.
Qed.

Lemma find_last_if_none (p : ascii -> bool) (s : string) :
  find_if p s = None -> find_last_if p s = None.
Proof.
  induction s as [|x s IH]; [reflexivity |].
  cbn [find_if find_last_if]. destruct (p x); [discriminate |].
  destruct (find_if p s); [discriminate |]. intros _. now rewrite IH.
Qed.

Lemma find_last_if_append (p : ascii -> bool) (a b : string) (i : nat) :
  find_last_if p b = Some i ->
  find_last_if p (a +:+ b) = Some (String.length a + i)%nat.
Proof.
  intros H. induction a as [|x a IH]; [exact H |].
  rewrite append_cons. cbn [find_last_if String.length]. now rewrite IH.
Qed.

(** The last [c] of a text that has none after it. *)
Lemma sv_find_last_of_last (a b : string) (c : ascii) :
  occurs c b = false ->
  sv_find_last_of (a +:+ String c b) c = size a.
Proof.
  intros H. unfold sv_find_last_of.
  rewrite (find_last_if_append _ a _ O).
  - unfold index_or_npos, size. lia.
  - cbn [find_last_if].
    rewrite (find_last_if_none _ _ (occurs_find_if c b H)).
    now rewrite Ascii.eqb_refl.
Qed.

Lemma sv_find_last_of_none (s : string) (c : ascii) :
  occurs c s = false -> sv_find_last_of s c = npos.
Proof.
  intros H. unfold sv_find_last_of.
  now rewrite (find_last_if_none _ _ (occurs_find_if c s H)).
Qed.

Lemma slice_middle (a b c : string) :
  first_n (String.length b) (skip (String.length a) (a +:+ b +:+ c)) = b.
Proof.
  rewrite <- (Nat.add_0_r (String.length a)), skip_append. cbn [skip].
  apply first_n_prefix.
Qed.

Section Hierarchical.

Variables (s h tail : string) (digits : option string).

Hypothesis scheme_valid : is_scheme s = true.
Hypothesis host_clean : none_in (chars "/?#@:") h = true.
Hypothesis port_valid :
  match digits with
  | Some p => is_digit p = true /\ p <> EmptyString
  | None => True
  end.
Hypothesis tail_is_path : tail = EmptyString \/ starts_with tail "/" = true.
Hypothesis authority_or_path : h +:+ port_text digits +:+ tail <> EmptyString.

(** The buffer [d], its authority [A] and its path [P]. *)
Variables (d A P : string).

Hypothesis d_def : d = hierarchical s h digits tail.
Hypothesis A_def : A = h +:+ port_text digits.
Hypothesis P_def : P = before_first "?" (before_first "#" tail).
Hypothesis fits : size d < SizeT.max_size.

(** The offsets of the authority, of the port, of the query and of the
    fragment. *)
Local Abbreviation AS := (size s + 3).
Local Abbreviation AE := (size s + 3 + size A).
Local Abbreviation PS :=
  (match digits with Some _ => size s + 3 + size h | None => size d end).
Local Abbreviation QS := (query_offset d).
Local Abbreviation FS := (size (before_first "#" d)).

Lemma buffer_shape : d = (s +:+ "://") +:+ A +:+ tail.
Proof. rewrite d_def, A_def. unfold hierarchical. now rewrite !append_assoc. Qed.

Lemma buffer_scheme : d = s +:+ String ":" ("//" +:+ A +:+ tail).
Proof. rewrite d_def, A_def. unfold hierarchical. now rewrite !append_assoc. Qed.

Lemma buffer_size : size d = AS + size A + size tail.
Proof.
  rewrite buffer_shape, !size_append. change (size "://") with 3. lia.
Qed.

Lemma authority_start_length : Z.to_nat AS = String.length (s +:+ "://").
Proof.
  rewrite length_append. unfold size in *. cbn [String.length]. lia.
Qed.

Lemma port_text_clean (c : ascii) :
  contains DIGIT c = false -> Ascii.eqb c ":" = false ->
  occurs c (port_text digits) = false.
Proof.
  intros Hc Hcolon. destruct digits as [p|]; [| reflexivity].
  destruct port_valid as [Hp _]. cbn [port_text occurs].
  now rewrite Hcolon, (all_in_occurs DIGIT c p Hp Hc).
Qed.

Lemma authority_clean (c : ascii) :
  contains (chars "/?#@:") c = true ->
  contains DIGIT c = false -> Ascii.eqb c ":" = false ->
  occurs c A = false.
Proof.
  intros Hc Hd Hcolon. rewrite A_def.
  rewrite occurs_append, (port_text_clean c Hd Hcolon).
  now rewrite (none_in_occurs (chars "/?#@:") c h host_clean Hc).
Qed.

Lemma prefix_clean (c : ascii) :
  contains (chars "/?#@:") c = true ->
  contains DIGIT c = false -> Ascii.eqb c ":" = false ->
  contains SCHEME_NOT_FIRST c = false ->
  occurs c "://" = false ->
  occurs c ((s +:+ "://") +:+ A) = false.
Proof.
  intros Hc Hd Hcolon Hs Hsep.
  rewrite !occurs_append, (authority_clean c Hc Hd Hcolon), Hsep.
  now rewrite (is_scheme_clean s c scheme_valid Hs).
Qed.

(** The offsets of the fragment and of the query. *)
Lemma fragment_offset_value : FS = AS + size A + size (before_first "#" tail).
Proof.
  rewrite buffer_shape, <- append_assoc.
  destruct (before_first_append "#" ((s +:+ "://") +:+ A) tail) as [-> _];
    [apply prefix_clean; reflexivity |].
  rewrite !size_append. change (size "://") with 3. lia.
Qed.

Lemma query_offset_value :
  QS = match after_first "?" (before_first "#" tail) with
       | Some _ => AS + size A + size P
       | None => size d
       end.
Proof.
  unfold query_offset.
  destruct (after_first "?" (before_first "#" tail)) as [q|] eqn:E.
  - rewrite buffer_shape, <- append_assoc.
    destruct (before_first_append "#" ((s +:+ "://") +:+ A) tail) as [-> _];
      [apply prefix_clean; reflexivity |].
    destruct (before_first_append "?" ((s +:+ "://") +:+ A)
                (before_first "#" tail)) as [-> ->];
      [apply prefix_clean; reflexivity |].
    rewrite E, <- P_def, !size_append. change (size "://") with 3. lia.
  - assert (Hnone : after_first "?" (before_first "#" d) = None).
    { rewrite buffer_shape, <- append_assoc.
      destruct (before_first_append "#" ((s +:+ "://") +:+ A) tail)
        as [-> _]; [apply prefix_clean; reflexivity |].
      destruct (before_first_append "?" ((s +:+ "://") +:+ A)
                  (before_first "#" tail)) as [_ ->];
        [apply prefix_clean; reflexivity | exact E]. }
    now rewrite Hnone.
Qed.

Lemma path_size : size P <= size tail /\ (tail <> EmptyString -> 1 <= size P).
Proof.
  rewrite P_def. split.
  - pose proof (before_first_size "?" (before_first "#" tail)).
    pose proof (before_first_size "#" tail). lia.
  - intros Hne. destruct tail_is_path as [E | Hslash]; [contradiction |].
    destruct tail as [|c t]; [contradiction |].
    unfold starts_with in Hslash.
    cbn [String.length first_n String.eqb] in Hslash.
    destruct (Ascii.eqb_spec c "/") as [-> | _]; [| discriminate].
    cbn [before_first Ascii.eqb Bool.eqb]. rewrite size_cons.
    pose proof (size_nonneg (before_first "?" (before_first "#" t))). lia.
Qed.

Lemma offsets_order :
  AS + size A + size P <= QS <= size d
  /\ Z.min QS FS = AS + size A + size P
  /\ 0 <= size A /\ 0 <= size P /\ 0 <= size s /\ 0 <= size tail
  /\ AS + size A + size tail = size d
  /\ 0 < size A + size tail.
Proof.
  pose proof query_offset_value as HQ. pose proof fragment_offset_value as HF.
  pose proof buffer_size as Hd. pose proof path_size as [HP _].
  pose proof (size_nonneg A). pose proof (size_nonneg P).
  pose proof (size_nonneg s). pose proof (size_nonneg tail).
  pose proof (before_first_size "#" tail) as HB.
  assert (Hpos : 0 < size A + size tail).
  { destruct (Z.eq_dec (size A + size tail) 0) as [E | NE]; [| lia].
    exfalso. apply authority_or_path.
    rewrite <- append_assoc, <- A_def.
    rewrite (size_zero A), (size_zero tail) by lia. reflexivity. }
  pose proof (split_first "?" (before_first "#" tail)) as Hsplit.
  rewrite <- P_def in Hsplit.
  destruct (after_first "?" (before_first "#" tail)) as [q|].
  - assert (size (before_first "#" tail) = size P + 1 + size q).
    { rewrite Hsplit at 1. rewrite size_append, size_cons. lia. }
    pose proof (size_nonneg q). split_all; lia.
  - assert (size P = size (before_first "#" tail)) by (now rewrite <- Hsplit).
    split_all; lia.
Qed.

(** The states of the cache on the way. *)
Local Abbreviation U0 := (uri_of d).
Local Abbreviation U1 := (mk_uri d (size s) AS npos npos npos npos npos).
Local Abbreviation U2 := (mk_uri d (size s) AS npos npos AE QS FS).
Local Abbreviation U3 := (mk_uri d (size s) AS (size d) npos AE QS FS).
Local Abbreviation U4 := (mk_uri d (size s) AS (size d) PS AE QS FS).

Lemma run_parse_scheme : parse_scheme U0 = (Ok tt, U1).
Proof.
  rewrite (parse_scheme_prefix s ("//" +:+ A +:+ tail) U0);
    [| apply buffer_scheme | reflexivity | exact scheme_valid | exact fits].
  change (starts_with ("//" +:+ A +:+ tail) "//") with true. cbv iota.
  reflexivity.
Qed.

Lemma skip_authority : skip (Z.to_nat AS) d = A +:+ tail.
Proof.
  rewrite authority_start_length, buffer_shape.
  rewrite <- (Nat.add_0_r (String.length (s +:+ "://"))), skip_append.
  reflexivity.
Qed.

Lemma tail_cases :
  (tail = EmptyString /\ AE = size d)
  \/ (exists t, tail = String "/" t /\ AE < size d).
Proof.
  pose proof offsets_order as (_ & _ & _ & _ & _ & _ & Hd & _).
  destruct tail_is_path as [E | Hslash].
  - left. split; [exact E |].
    assert (size tail = 0) by (now rewrite E). lia.
  - right.
    assert (Hshape : exists t, tail = String "/" t).
    { destruct tail as [|c t]; [discriminate |].
      unfold starts_with in Hslash.
      cbn [String.length first_n String.eqb] in Hslash.
      destruct (Ascii.eqb_spec c "/") as [-> | _]; [| discriminate].
      now exists t. }
    destruct Hshape as [t Ht]. exists t. split; [exact Ht |].
    assert (size tail = 1 + size t) by (now rewrite Ht, size_cons).
    pose proof (size_nonneg t). lia.
Qed.

Lemma run_parse_path (u : basic_uri) :
  u = U0 \/ u = U1 -> parse_path u = (Ok tt, U2).
Proof.
  intros Hu.
  pose proof offsets_order as (HQ & Hmin & HA & HP & Hs & Ht & Hd & Hpos).
  pose proof fits as Hfit.
  assert (Hscheme : parse_scheme u = (Ok tt, U1)).
  { destruct Hu as [-> | ->]; [apply run_parse_scheme |].
    apply parse_scheme_memo. unfold_fields.
    rewrite npos_value, max_size_value in *. lia. }
  assert (Hae : authority_end u = npos) by (now destruct Hu as [-> | ->]).
  pose proof path_size as [_ HP1].
  unfold parse_path. unfold noexcept at 1, bind at 1, gets at 1.
  rewrite Hae. change (npos =? npos) with true. cbn [negb]. cbv iota beta.
  unfold bind at 1. rewrite Hscheme.
  unfold bind at 1.
  rewrite (parse_query_fresh U1) by (try reflexivity; exact fits).
  run.
  destruct (Z.eqb_spec AS (size d)) as [E | _]; [lia |]. cbn [negb].
  rewrite sub_exact by (rewrite modulus_value, max_size_value in *; lia).
  rewrite (sv_substr_slice d AS (QS - AS)) by lia.
  rewrite skip_authority. run.
  destruct tail_cases as [[Etail HAE] | (t & Etail & _)].
  - rewrite Etail, append_empty_r.
    rewrite first_n_all
      by (assert (size tail = 0) by (now rewrite Etail);
          unfold size in *; lia).
    rewrite (sv_find_none A "/") by (apply authority_clean; reflexivity).
    change (npos =? npos) with true. cbv iota.
    now rewrite HAE.
  - rewrite Etail.
    specialize (HP1 ltac:(rewrite Etail; discriminate)).
    replace (Z.to_nat (QS - AS))
      with (String.length A + S (Z.to_nat (QS - AS - size A - 1)))%nat
      by (unfold size in *; lia).
    rewrite first_n_append. cbn [first_n].
    rewrite (sv_find_first A _ "/") by (apply authority_clean; reflexivity).
    destruct (Z.eqb_spec (size A) npos) as [E | _];
      [rewrite npos_value, max_size_value in *; lia |].
    rewrite add_exact by (rewrite modulus_value, max_size_value in *; lia).
    now rewrite (Z.add_comm (size A) AS).
Qed.

Lemma authority_start_known : AS <> npos /\ AS <> size d /\ 0 <= AS <= size d.
Proof.
  pose proof offsets_order as (_ & _ & HA & _ & Hs & Ht & Hd & Hpos).
  pose proof fits as Hfit.
  rewrite npos_value, max_size_value in *. lia.
Qed.

Lemma authority_end_known : AE <> npos /\ AS <= AE <= size d.
Proof.
  pose proof offsets_order as (_ & _ & HA & _ & Hs & Ht & Hd & Hpos).
  pose proof fits as Hfit.
  rewrite npos_value, max_size_value in *. lia.
Qed.

(** The authority as a slice of the buffer. *)
Lemma authority_slice :
  sv_substr d AS (SizeT.sub AE AS) = Ok A.
Proof.
  pose proof authority_start_known as (_ & _ & HAS). pose proof authority_end_known as (_ & HAE).
  pose proof offsets_order as (_ & _ & HA & _). pose proof fits as Hfit.
  rewrite sub_exact by (rewrite modulus_value, max_size_value in *; lia).
  rewrite sv_substr_slice by lia. rewrite skip_authority.
  replace (AE - AS) with (size A) by lia.
  now rewrite to_nat_size, first_n_prefix.
Qed.

Lemma run_parse_user_info : parse_user_info U0 = (Ok tt, U3).
Proof.
  pose proof authority_start_known as (_ & HAS & _).
  unfold parse_user_info. unfold noexcept at 1, bind at 1, gets at 1.
  change (user_info_end U0 =? npos) with true. cbn [negb]. cbv iota beta.
  unfold bind at 1. rewrite run_parse_scheme.
  unfold bind at 1, gets at 1, id. unfold_fields.
  unfold data_size. unfold_fields.
  destruct (Z.eqb_spec AS (size d)) as [E | _]; [contradiction |].
  unfold bind at 1. rewrite (run_parse_path U1) by (now right).
  run. rewrite authority_slice. run.
  rewrite (sv_find_none A "@") by (apply authority_clean; reflexivity).
  change (npos =? npos) with true. reflexivity.
Qed.

Lemma port_cases :
  (digits = None /\ A = h /\ PS = size d)
  \/ (exists p,
         digits = Some p /\ A = h +:+ String ":" p /\ PS = AS + size h
         /\ all_in DIGIT p = true /\ 1 <= size p
         /\ d = ((s +:+ "://") +:+ h +:+ ":") +:+ p +:+ tail).
Proof.
  pose proof buffer_shape as Hd. pose proof port_valid as Hp.
  pose proof A_def as HA.
  destruct digits as [p|]; cbn [port_text] in *.
  - right. exists p. destruct Hp as [Hp Hne].
    split_all; try reflexivity; try assumption.
    + destruct p; [contradiction |]. rewrite size_cons.
      pose proof (size_nonneg p). lia.
    + rewrite Hd, HA. now rewrite !append_assoc.
  - left. rewrite append_empty_r in HA. now split_all.
Qed.

Lemma port_start_known : PS <> npos /\ AS <= PS <= size d.
Proof.
  pose proof offsets_order as (_ & _ & HA & _ & Hs & Ht & Hd & Hpos).
  pose proof fits as Hfit. pose proof (size_nonneg h) as Hh.
  destruct port_cases as [(_ & _ & HPS) | (p & _ & HA' & HPS & _)].
  - rewrite npos_value, max_size_value in *. lia.
  - assert (size A = size h + 1 + size p)
      by (rewrite HA', size_append, size_cons; lia).
    pose proof (size_nonneg p).
    rewrite npos_value, max_size_value in *. lia.
Qed.

Lemma run_parse_port (u : basic_uri) :
  u = U0 \/ u = U3 -> parse_port u = (Ok tt, U4).
Proof.
  intros Hu.
  pose proof authority_start_known as (_ & HAS & HAS').
  pose proof authority_end_known as (HAE & HAE').
  pose proof offsets_order as (_ & _ & HA & _ & Hs & Ht & Hd & Hpos).
  pose proof fits as Hfit.
  assert (Hinfo : parse_user_info u = (Ok tt, U3)).
  { destruct Hu as [-> | ->]; [apply run_parse_user_info |].
    apply parse_user_info_memo. unfold_fields.
    rewrite npos_value, max_size_value in *. lia. }
  assert (Hps : port_start u = npos) by (now destruct Hu as [-> | ->]).
  unfold parse_port. unfold noexcept at 1, bind at 1, gets at 1.
  rewrite Hps. change (npos =? npos) with true. cbn [negb]. cbv iota beta.
  unfold bind at 1. rewrite Hinfo.
  unfold bind at 1, gets at 1, id. unfold_fields.
  unfold data_size. unfold_fields.
  destruct (Z.eqb_spec AS (size d)) as [E | _]; [contradiction |].
  unfold bind at 1. rewrite (parse_path_memo U3) by exact HAE.
  run. rewrite Z.eqb_refl. cbn [negb].
  rewrite authority_slice. run.
  destruct port_cases
    as [(_ & HA' & HPS) | (p & _ & HA' & HPS & Hp & Hp1 & Hd')].
  - assert (Hlast : sv_find_last_of A ":" = npos).
    { rewrite HA'. apply sv_find_last_of_none.
      apply (none_in_occurs (chars "/?#@:"));
        [exact host_clean | reflexivity]. }
    rewrite Hlast. change (npos =? npos) with true. cbv iota.
    now rewrite HPS.
  - pose proof (size_nonneg h) as Hh.
    assert (HAEp : AE = AS + size h + 1 + size p).
    { rewrite HA', size_append, size_cons. lia. }
    assert (Hlast : sv_find_last_of A ":" = size h).
    { rewrite HA'. apply sv_find_last_of_last.
      apply (all_in_occurs DIGIT); [exact Hp | reflexivity]. }
    rewrite Hlast.
    destruct (Z.eqb_spec (size h) npos) as [E | _];
      [rewrite npos_value, max_size_value in *; lia |].
    rewrite (add_exact (size h) AS)
      by (rewrite modulus_value, max_size_value in *; lia).
    rewrite add_exact by (rewrite modulus_value, max_size_value in *; lia).
    rewrite sub_exact by (rewrite modulus_value, max_size_value in *; lia).
    rewrite sv_substr_slice by lia.
    replace (AE - (size h + AS + 1)) with (size p) by lia.
    replace (Z.to_nat (size h + AS + 1))
      with (String.length ((s +:+ "://") +:+ h +:+ ":"))%nat
      by (rewrite !length_append; unfold size in *; cbn [String.length];
          lia).
    assert (Hslice :
      first_n (String.length p)
        (skip (String.length ((s +:+ "://") +:+ h +:+ ":")) d) = p)
      by (rewrite Hd'; apply slice_middle).
    rewrite to_nat_size, Hslice.
    unfold is_digit. rewrite Hp. cbn [negb]. unfold ret.
    now rewrite HPS, (Z.add_comm (size h) AS).
Qed.

Lemma run_parse_host : parse_host U0 = (Ok tt, U4).
Proof.
  unfold parse_host, noexcept, bind.
  rewrite run_parse_user_info, (run_parse_port U3) by (now right).
  rewrite (parse_path_memo U4) by apply authority_end_known. reflexivity.
Qed.

Lemma run_scheme : fst (scheme U0) = Ok s.
Proof.
  pose proof fits as Hfit. rewrite buffer_scheme in *.
  rewrite scheme_prefixed; [reflexivity | exact scheme_valid | exact Hfit].
Qed.

Lemma run_user_info : fst (user_info U0) = Ok EmptyString.
Proof.
  unfold user_info. unfold noexcept at 1, bind at 1.
  rewrite run_parse_user_info. run. now rewrite Z.eqb_refl.
Qed.

Lemma run_host : fst (host U0) = Ok h.
Proof.
  pose proof authority_start_known as (_ & HAS & HAS').
  pose proof authority_end_known as (HAE & HAE').
  pose proof offsets_order as (_ & _ & HA & _ & Hs & Ht & Hd & Hpos).
  pose proof fits as Hfit. pose proof (size_nonneg h) as Hh.
  unfold host. unfold noexcept at 1, bind at 1.
  rewrite run_parse_host. run.
  destruct (Z.eqb_spec AS (size d)) as [E | _]; [contradiction |].
  rewrite Z.eqb_refl.
  assert (Hslice : forall (n : Z) (u : basic_uri),
             data u = d ->
             size h <= n ->
             (n <= size h \/ A = h /\ tail = EmptyString) ->
             substr AS n u = (Ok h, u)).
  { intros n u Hu Hn Hcase. rewrite substr_slice by (rewrite ?Hu; lia).
    rewrite Hu, skip_authority. do 2 f_equal.
    destruct Hcase as [Hle | [HA' Etail]].
    - replace n with (size h) by lia. rewrite to_nat_size.
      rewrite A_def, append_assoc. apply first_n_prefix.
    - rewrite HA', Etail, append_empty_r. apply first_n_all.
      unfold size in *. lia. }
  destruct port_cases as [(_ & HA' & HPS) | (p & _ & HA' & HPS & _)].
  - destruct (Z.eqb_spec PS (size d)) as [_ | NE]; [| contradiction].
    cbn [negb].
    assert (HAEh : AE = AS + size h) by (now rewrite HA').
    destruct (Z.eqb_spec AE (size d)) as [E | NE]; cbn [negb].
    + rewrite sub_exact by (rewrite modulus_value, max_size_value in *; lia).
      rewrite Hslice; [reflexivity | reflexivity | lia |].
      right. split; [exact HA' |]. apply size_zero. rewrite HA' in Hd. lia.
    + rewrite sub_exact by (rewrite modulus_value, max_size_value in *; lia).
      rewrite Hslice; [reflexivity | reflexivity | lia | left; lia].
  - assert (HAEp : AE = AS + size h + 1 + size p).
    { rewrite HA', size_append, size_cons. lia. }
    pose proof (size_nonneg p).
    destruct (Z.eqb_spec PS (size d)) as [E | _]; [lia |]. cbn [negb].
    rewrite sub_exact by (rewrite modulus_value, max_size_value in *; lia).
    rewrite Hslice; [reflexivity | reflexivity | lia | left; lia].
Qed.

Lemma run_port :
  fst (port U0)
  = Ok match digits with
       | Some p => if empty tail then remove_suffix1 p else p
       | None => EmptyString
       end.
Proof.
  pose proof authority_start_known as (_ & HAS & HAS').
  pose proof authority_end_known as (HAE & HAE').
  pose proof offsets_order as (_ & _ & HA & _ & Hs & Ht & Hd & Hpos).
  pose proof fits as Hfit. pose proof (size_nonneg h) as Hh.
  unfold port. unfold noexcept at 1, bind at 1.
  rewrite (run_parse_port U0) by (now left). run.
  destruct port_cases
    as [(Edig & _ & HPS) | (p & Edig & HA' & HPS & _ & Hp1 & Hd')];
    rewrite HPS, Edig; clear HPS;
    [now rewrite Z.eqb_refl |].
  assert (HAEp : AE = AS + size h + 1 + size p).
  { rewrite HA', size_append, size_cons. lia. }
  destruct (Z.eqb_spec (AS + size h) (size d)) as [E | _]; [lia |].
  rewrite add_exact by (rewrite modulus_value, max_size_value in *; lia).
  assert (Hskip : skip (Z.to_nat (AS + size h + 1)) d = p +:+ tail).
  { replace (Z.to_nat (AS + size h + 1))
      with (String.length ((s +:+ "://") +:+ h +:+ ":") + 0)%nat
      by (rewrite !length_append; unfold size in *;
          cbn [String.length]; lia).
    rewrite Hd', skip_append. reflexivity. }
  destruct tail_cases as [[Etail HAEd] | (t & Etail & HAEd)].
  - destruct (Z.eqb_spec AE (size d)) as [_ | NE]; [| contradiction].
    rewrite (sub_exact AE 1)
      by (rewrite modulus_value, max_size_value in *; lia).
    rewrite sub_exact by (rewrite modulus_value, max_size_value in *; lia).
    rewrite substr_slice by (unfold_fields; lia). unfold_fields.
    rewrite Hskip, Etail, append_empty_r. cbn [fst empty].
    change (size EmptyString =? 0) with true. cbv iota.
    unfold remove_suffix1. do 2 f_equal. unfold size in *. lia.
  - destruct (Z.eqb_spec AE (size d)) as [E | _]; [lia |].
    rewrite sub_exact by (rewrite modulus_value, max_size_value in *; lia).
    rewrite substr_slice by (unfold_fields; lia). unfold_fields.
    rewrite Hskip. cbn [fst]. f_equal.
    replace (AE - (AS + size h + 1)) with (size p) by lia.
    rewrite to_nat_size, first_n_prefix.
    rewrite Etail. reflexivity.
Qed.

Lemma run_path : fst (path U0) = Ok P.
Proof.
  pose proof authority_start_known as (_ & HAS & HAS').
  pose proof authority_end_known as (HAE & HAE').
  pose proof offsets_order as (HQ & Hmin & HA & HP & Hs & Ht & Hd & Hpos).
  pose proof fits as Hfit.
  unfold path, has_path.
  unfold noexcept at 1, bind at 1, noexcept at 1, bind at 1.
  rewrite (run_parse_path U0) by (now left). run.
  destruct tail_cases as [[Etail HAEd] | (t & Etail & HAEd)].
  - destruct (Z.eqb_spec AE (size d)) as [_ | NE]; [| contradiction].
    cbn [negb fst]. rewrite P_def. now rewrite Etail.
  - destruct (Z.eqb_spec AE (size d)) as [E | _]; [lia |]. cbn [negb].
    run. rewrite Hmin.
    rewrite sub_exact by (rewrite modulus_value, max_size_value in *; lia).
    rewrite substr_slice by (unfold_fields; lia). unfold_fields.
    cbn [fst]. f_equal.
    replace (AS + size A + size P - AE) with (size P) by lia.
    replace (Z.to_nat AE)
      with (String.length ((s +:+ "://") +:+ A) + 0)%nat
      by (rewrite !length_append; unfold size in *;
          cbn [String.length]; lia).
    rewrite buffer_shape, <- append_assoc, skip_append. cbn [skip].
    rewrite to_nat_size, P_def. apply path_is_prefix.
Qed.

Lemma run_query :
  fst (query U0)
  = Ok (default EmptyString (after_first "?" (before_first "#" tail))).
Proof.
  rewrite (query_fresh d fits). do 2 f_equal.
  rewrite buffer_shape, <- append_assoc.
  destruct (before_first_append "#" ((s +:+ "://") +:+ A) tail) as [-> _];
    [apply prefix_clean; reflexivity |].
  destruct (before_first_append "?" ((s +:+ "://") +:+ A)
              (before_first "#" tail)) as [_ ->];
    [apply prefix_clean; reflexivity | reflexivity].
Qed.

End Hierarchical.

(** The side conditions of the lemmas above, once the buffer is given. *)
Ltac side_condition := first [reflexivity | eassumption].

Lemma hierarchical_size (s h tail : string) (digits : option string) :
  size (hierarchical s h digits tail)
  = size s + 3 + size (h +:+ port_text digits) + size tail.
Proof. eapply buffer_size; reflexivity. Qed.

Lemma hierarchical_query_offset (s h tail : string)
    (digits : option string) :
  is_scheme s = true ->
  none_in (chars "/?#@:") h = true ->
  match digits with
  | Some p => is_digit p = true /\ p <> EmptyString
  | None => True
  end ->
  h +:+ port_text digits +:+ tail <> EmptyString ->
  query_offset (hierarchical s h digits tail)
  = match after_first "?" (before_first "#" tail) with
    | Some _ =>
      size s + 3 + size (h +:+ port_text digits)
      + size (before_first "?" (before_first "#" tail))
    | None => size (hierarchical s h digits tail)
    end.
Proof. intros. eapply query_offset_value; side_condition. Qed.

Lemma hierarchical_parse_path (s h tail : string) (digits : option string) :
  is_scheme s = true ->
  none_in (chars "/?#@:") h = true ->
  match digits with
  | Some p => is_digit p = true /\ p <> EmptyString
  | None => True
  end ->
  tail = EmptyString \/ starts_with tail "/" = true ->
  h +:+ port_text digits +:+ tail <> EmptyString ->
  size (hierarchical s h digits tail) < SizeT.max_size ->
  parse_path (uri_of (hierarchical s h digits tail))
  = (Ok tt,
     mk_uri (hierarchical s h digits tail) (size s) (size s + 3) npos npos
       (size s + 3 + size (h +:+ port_text digits))
       (query_offset (hierarchical s h digits tail))
       (size (before_first "#" (hierarchical s h digits tail)))).
Proof. intros. eapply run_parse_path; try side_condition. now left. Qed.

Lemma hierarchical_path (s h tail : string) (digits : option string) :
  is_scheme s = true ->
  none_in (chars "/?#@:") h = true ->
  match digits with
  | Some p => is_digit p = true /\ p <> EmptyString
  | None => True
  end ->
  tail = EmptyString \/ starts_with tail "/" = true ->
  h +:+ port_text digits +:+ tail <> EmptyString ->
  size (hierarchical s h digits tail) < SizeT.max_size ->
  fst (path (uri_of (hierarchical s h digits tail)))
  = Ok (before_first "?" (before_first "#" tail)).
Proof. intros. eapply run_path; side_condition. Qed.





(** ** User name and password *)

Lemma user_info_bound (u u' : basic_uri) (ui : string) :
  user_info u = (Ok ui, u') -> size ui < SizeT.modulus.
Proof.
  unfold user_info, noexcept, bind.
  destruct (parse_user_info u) as [[[] | e | | |] u1]; cbn [abrupt];
    try discriminate.
  unfold gets, id, ret.
  destruct (_ || _).
  - intros [= <- _]. reflexivity.
  - unfold substr, noexcept, bind, gets, lift, ret.
    destruct (_ =? 0); [intros [= <- _]; reflexivity |].
    unfold sv_substr. destruct (_ <? _); [discriminate |].
    intros [= <- _].
    match goal with
    | |- context [SizeT.sub ?a ?b] => pose proof (sub_range a b) as Hr
    end.
    unfold size at 1. rewrite length_first_n. lia.
Qed.

(** X22: [username()], [password()] and [has_password()] cut the user
    information at its first colon: the user name is the text before it
    (all of it when there is no colon), the password is the text after it,
    and [has_password()] tells whether there is one.  The three of them
    return whenever [user_info()] does. *)
Theorem user_info_split (u u' : basic_uri) (ui : string) :
  user_info u = (Ok ui, u') ->
  username u = (Ok (before_first ":" ui), u')
  /\ password u = (Ok (default EmptyString (after_first ":" ui)), u')
  /\ has_password u
     = (Ok (match after_first ":" ui with Some _ => true | None => false end),
        u').
Proof.
  intros Hui. pose proof (user_info_bound u u' ui Hui) as Hsz.
  pose proof (size_nonneg ui) as Hnn.
  assert (Hfind :
    sv_find ui ":" 0
    = match after_first ":" ui with
      | Some _ => size (before_first ":" ui)
      | None => npos
      end).
  { pose proof (split_first ":" ui) as Hs.
    destruct (after_first ":" ui) as [rest|] eqn:E.
    - rewrite Hs at 1. apply sv_find_first, before_first_clean.
    - apply sv_find_none, after_first_none, E. }
  pose proof (before_first_size ":" ui) as Hle.
  pose proof (size_nonneg (before_first ":" ui)) as Hb.
  pose proof (split_first ":" ui) as Hs.
  unfold username, password, has_password, noexcept, bind.
  rewrite Hui, Hfind. unfold ret, lift.
  destruct (after_first ":" ui) as [rest|].
  - assert (Hlen : size ui = size (before_first ":" ui) + 1 + size rest).
    { rewrite Hs at 1. rewrite size_append, size_cons. lia. }
    pose proof (size_nonneg rest) as Hr.
    destruct (Z.eqb_spec (size (before_first ":" ui)) npos) as [E | _];
      [rewrite npos_value, modulus_value in *; lia |].
    cbn [negb default]. split_all.
    + do 2 f_equal. unfold remove_suffix.
      rewrite (sub_exact (size ui) (size (before_first ":" ui)))
        by (rewrite modulus_value in *; lia).
      rewrite sub_exact by (rewrite modulus_value in *; lia).
      replace (size ui - (size ui - size (before_first ":" ui)))
        with (size (before_first ":" ui)) by lia.
      rewrite to_nat_size. apply before_first_is_prefix.
    + rewrite add_exact by (rewrite modulus_value in *; lia).
      rewrite sv_substr_slice by (rewrite ?npos_value; lia).
      do 2 f_equal.
      replace (Z.to_nat (size (before_first ":" ui) + 1))
        with (String.length (before_first ":" ui) + 1)%nat
        by (unfold size; lia).
      set (name := before_first ":" ui) in *.
      rewrite Hs, skip_append. cbn [skip].
      apply first_n_all. rewrite npos_value, modulus_value in *.
      unfold size, id in *. lia.
    + reflexivity.
  - change (npos =? npos) with true. cbn [negb default].
    rewrite <- Hs. now split_all.
Qed.

Lemma user_info_split_witness :
  let u := uri_of "ftp://bob:secret@h/x" in
  user_info u = (Ok "bob:secret", snd (user_info u))
  /\ username u = (Ok "bob", snd (user_info u))
  /\ password u = (Ok "secret", snd (user_info u))
  /\ has_password u = (Ok true, snd (user_info u)).
Proof.
  cbv zeta. split.
  - vm_compute. reflexivity.
  - apply (user_info_split (uri_of "ftp://bob:secret@h/x")
             (snd (user_info (uri_of "ftp://bob:secret@h/x")))
             "bob:secret").
    vm_compute. reflexivity.
Defined.

(** ** The whole buffer through the codec *)

(** X23: on a buffer of 7-bit characters, [decoded_uri()] of the URI built
    from the result of [encoded_uri()] gives the buffer back. *)
Theorem encoded_uri_decodes (u : basic_uri) :
  seven_bit (data u) = true ->
  exists encoded : string,
    encoded_uri u = (Ok encoded, u)
    /\ decoded_uri (uri_of encoded) = (Ok (Some (data u)), uri_of encoded).
Proof.
  intros H7. eexists. split; [reflexivity |].
  unfold decoded_uri, str, noexcept, bind, gets, ret, uri_of. unfold_fields.
  unfold decode_uri_component, encode_uri_component.
  now rewrite (decode_encode_loop ALLOWED_CHARACTERS_IN_URI (data u)
                 percent_not_allowed_in_uri H7).
Qed.

Lemma encoded_uri_decodes_witness :
  seven_bit (data (uri_of "http://h/a b%c")) = true
  /\ exists encoded : string,
       encoded_uri (uri_of "http://h/a b%c")
       = (Ok encoded, uri_of "http://h/a b%c")
       /\ decoded_uri (uri_of encoded)
          = (Ok (Some (data (uri_of "http://h/a b%c"))), uri_of encoded).
Proof.
  split.
  - vm_compute. reflexivity.
  - apply (encoded_uri_decodes (uri_of "http://h/a b%c")).
    vm_compute. reflexivity.
Defined.

(** ** The structured view of the path *)

Lemma split_on_found (c : ascii) (s rest : string) :
  after_first c s = Some rest ->
  split_on c s = before_first c s :: split_on c rest.
Proof.
  induction s as [|x s IH]; [discriminate |].
  cbn [after_first before_first split_on].
  destruct (Ascii.eqb c x); [now intros [= ->] |].
  intros H. now rewrite (IH H).
Qed.

Lemma split_on_none (c : ascii) (s : string) :
  after_first c s = None -> split_on c s = [s].
Proof.
  induction s as [|x s IH]; [reflexivity |].
  cbn [after_first split_on].
  destruct (Ascii.eqb c x); [discriminate |].
  intros H. now rewrite (IH H).
Qed.

Lemma split_on_nonempty (c : ascii) (s : string) : split_on c s <> [].
Proof.
  destruct s as [|x s]; [discriminate |]. cbn [split_on].
  destruct (Ascii.eqb c x); [discriminate |].
  destruct (split_on c s); discriminate.
Qed.

(** Joining the pieces with slashes gives the text back. *)
Lemma join_split (s : string) : join_path (split_on "/" s) = Ok s.
Proof.
  induction s as [|x s IH]; [reflexivity |].
  cbn [split_on]. pose proof (split_on_nonempty "/" s) as Hne.
  destruct (split_on "/" s) as [|segment segments]; [contradiction |].
  destruct (Ascii.eqb_spec "/" x) as [<- | NE].
  - cbn [join_path] in *. rewrite IH. reflexivity.
  - destruct segments as [|next segments].
    + cbn [join_path] in *. now injection IH as ->.
    + cbn [join_path] in *.
      destruct (match segments with [] => Ok next | _ => _ end) as [t| | | |];
        cbn [obind abrupt] in *; try discriminate.
      injection IH as <-. reflexivity.
Qed.

(** The loop of [path_structured] from a position [last]: it appends the
    pieces of the text after that position. *)
Lemma skip_skip (a b : nat) (t : string) :
  skip (a + b) t = skip b (skip a t).
Proof.
  revert t. induction a as [|a IH]; intros t; [reflexivity |].
  destruct t as [|y t]; cbn [Nat.add skip]; [now destruct b |].
  apply IH.
Qed.

Lemma path_structured_loop_splits (p : string) :
  size p < SizeT.max_size ->
  forall (fuel : nat) (last : Z) (container : list string),
    0 <= last < size p ->
    (String.length (skip (Z.to_nat (last + 1)) p) < fuel)%nat ->
    path_structured_loop fuel p last container
    = Ok (container ++ split_on "/" (skip (Z.to_nat (last + 1)) p)).
Proof.
  intros Hsz. induction fuel as [|fuel IH]; intros last container Hlast Hfuel;
    [lia |].
  cbn [path_structured_loop].
  rewrite add_exact by (rewrite modulus_value, max_size_value in *; lia).
  set (rest := skip (Z.to_nat (last + 1)) p) in *.
  assert (Hrest : size rest = size p - (last + 1)).
  { unfold rest, size in *. rewrite length_skip. lia. }
  pose proof (split_first "/" rest) as Hs.
  pose proof (before_first_clean "/" rest) as Hclean.
  pose proof (before_first_is_prefix "/" rest) as Hprefix.
  set (piece := before_first "/" rest) in *.
  pose proof (size_nonneg piece) as Hb.
  assert (Hfind :
    sv_find p "/" (last + 1)
    = match after_first "/" rest with
      | Some _ => last + 1 + size piece
      | None => npos
      end).
  { unfold sv_find. fold rest.
    destruct (Z.leb_spec (size p) (last + 1)) as [Hend | _].
    - rewrite (size_zero rest) by lia. reflexivity.
    - destruct (after_first "/" rest) as [r|] eqn:E.
      + rewrite Hs.
        rewrite (find_if_append _ piece) by now apply occurs_find_if.
        cbn [find_if]. rewrite Ascii.eqb_refl.
        unfold index_or_npos, size. lia.
      + now rewrite (occurs_find_if "/" rest (after_first_none _ _ E)). }
  rewrite Hfind.
  destruct (after_first "/" rest) as [r|] eqn:E.
  - assert (Hlen : size rest = size piece + 1 + size r).
    { rewrite Hs at 1. rewrite size_append, size_cons. lia. }
    pose proof (size_nonneg r) as Hr.
    destruct (Z.eqb_spec (last + 1 + size piece) npos)
      as [E' | _]; [rewrite npos_value, max_size_value in *; lia |].
    cbn [negb]. rewrite Z.min_l by lia.
    rewrite (sub_exact _ last)
      by (rewrite modulus_value, max_size_value in *; lia).
    rewrite sub_exact by (rewrite modulus_value, max_size_value in *; lia).
    replace (last + 1 + size piece - last - 1) with (size piece) by lia.
    rewrite to_nat_size, Hprefix.
    assert (Hnext : skip (Z.to_nat (last + 1 + size piece + 1)) p = r).
    { replace (Z.to_nat (last + 1 + size piece + 1))
        with (Z.to_nat (last + 1) + (String.length piece + 1))%nat
        by (unfold size; lia).
      rewrite skip_skip. fold rest.
      rewrite Hs, skip_append. reflexivity. }
    rewrite IH.
    + rewrite Hnext, (split_on_found "/" rest r E).
      now rewrite <- app_assoc.
    + lia.
    + rewrite Hnext. unfold size in *. lia.
  - change (npos =? npos) with true. cbn [negb].
    rewrite Z.min_r by (rewrite npos_value, max_size_value in *; lia).
    rewrite (sub_exact _ last)
      by (rewrite modulus_value, max_size_value in *; lia).
    rewrite sub_exact by (rewrite modulus_value, max_size_value in *; lia).
    rewrite first_n_all by (unfold size in *; lia).
    now rewrite (split_on_none "/" rest E).
Qed.

(** X24: on a path that starts with a slash, [path_structured()] returns
    the pieces between the slashes, the first of them empty, and joining
    the pieces with slashes, as the path setter for a container does,
    gives the path back. *)
Theorem path_structured_splits (u u' : basic_uri) (p : string) :
  path u = (Ok p, u') ->
  starts_with p "/" = true ->
  size p < SizeT.max_size ->
  path_structured u = (Ok (split_on "/" p), u')
  /\ join_path (split_on "/" p) = Ok p.
Proof.
  intros Hpath Hslash Hsz. split; [| apply join_split].
  unfold path_structured, noexcept, bind. rewrite Hpath.
  destruct p as [|c t]; [discriminate |].
  unfold starts_with in Hslash.
  cbn [String.length first_n String.eqb] in Hslash.
  destruct (Ascii.eqb_spec c "/") as [-> | _]; [| discriminate].
  pose proof (size_nonneg t) as Ht. rewrite size_cons in Hsz.
  unfold empty. rewrite size_cons.
  destruct (Z.eqb_spec (1 + size t) 0) as [E | _]; [lia |].
  change (Ascii.eqb (sv_at (String "/" t) 0) "/") with true. cbv iota.
  unfold lift.
  rewrite path_structured_loop_splits.
  - reflexivity.
  - rewrite size_cons. exact Hsz.
  - rewrite size_cons. lia.
  - change (Z.to_nat (0 + 1)) with 1%nat. cbn [skip String.length]. lia.
Qed.

Lemma path_structured_splits_witness :
  let u := uri_of "http://h/a//b/?q" in
  path u = (Ok "/a//b/", snd (path u))
  /\ starts_with "/a//b/" "/" = true
  /\ size "/a//b/" < SizeT.max_size
  /\ path_structured u = (Ok [""; "a"; ""; "b"; ""], snd (path u))
  /\ join_path [""; "a"; ""; "b"; ""] = Ok "/a//b/".
Proof.
  cbv zeta.
  split; [vm_compute; reflexivity |].
  split; [vm_compute; reflexivity |].
  split; [vm_compute; reflexivity |].
  apply (path_structured_splits (uri_of "http://h/a//b/?q")
           (snd (path (uri_of "http://h/a//b/?q"))) "/a//b/");
    vm_compute; reflexivity.
Defined.

(** ** Setting the path of a hierarchical URI *)

Lemma all_in_none_in (cs cs' : charset_t) (s : string) :
  all_in cs s = true ->
  forallb (fun c => negb (contains cs c)) cs' = true ->
  none_in cs' s = true.
Proof.
  intros Hall Hdisjoint. induction s as [|x s IH]; [reflexivity |].
  cbn [all_in none_in] in *. apply andb_prop in Hall as [Hx Hs].
  rewrite (IH Hs), andb_true_r.
  destruct (contains cs' x) eqn:E; [| reflexivity].
  unfold contains in E. apply existsb_exists in E as (y & Hy & Exy).
  apply Ascii.eqb_eq in Exy. subst y.
  rewrite forallb_forall in Hdisjoint. specialize (Hdisjoint x Hy).
  rewrite Hx in Hdisjoint. discriminate.
Qed.

Lemma all_in_append (cs : charset_t) (a b : string) :
  all_in cs (a +:+ b) = all_in cs a && all_in cs b.
Proof.
  induction a as [|x a IH]; [reflexivity |].
  rewrite append_cons. cbn [all_in]. now rewrite IH, andb_assoc.
Qed.

Lemma encoded_path_shape (new_path : string) :
  exists rest, encoded_path new_path = String "/" rest.
Proof.
  unfold encoded_path. destruct (starts_with new_path "/") eqn:E.
  - destruct new_path as [|c r]; [discriminate |].
    unfold starts_with in E. cbn [String.length first_n String.eqb] in E.
    destruct (Ascii.eqb_spec c "/") as [-> | _]; [| discriminate].
    unfold encode_uri_component. rewrite encode_loop_cons.
    eexists. reflexivity.
  - eexists. reflexivity.
Qed.

Lemma encoded_path_clean (new_path : string) :
  seven_bit new_path = true ->
  none_in (chars "?#") (encoded_path new_path) = true.
Proof.
  intros H7.
  apply (all_in_none_in
           (charset [charset [PCHAR_NOT_PCT_ENCODED; chars "/"];
                     chars "%0123456789ABCDEF"])); [| reflexivity].
  unfold encoded_path. rewrite all_in_append.
  rewrite (encode_alphabet _ _ H7), andb_true_r.
  now destruct (starts_with new_path "/").
Qed.

Lemma encoded_path_decodes (new_path : string) :
  seven_bit new_path = true ->
  decode_uri_component (encoded_path new_path)
    (charset [PCHAR_NOT_PCT_ENCODED; chars "/"])
  = Some ((if starts_with new_path "/" then EmptyString else "/")
          +:+ new_path).
Proof.
  intros H7. unfold encoded_path, decode_uri_component, encode_uri_component.
  destruct (starts_with new_path "/").
  - change (EmptyString +:+ ?x) with x.
    now rewrite (decode_encode_loop
                   (charset [PCHAR_NOT_PCT_ENCODED; chars "/"]) new_path
                   eq_refl H7).
  - change ("/" +:+ ?x) with (String "/" x).
    rewrite decode_loop_step. cbn [andb Ascii.eqb Bool.eqb].
    change (negb (contains _ "/")) with false. cbv iota.
    now rewrite (decode_encode_loop
                   (charset [PCHAR_NOT_PCT_ENCODED; chars "/"]) new_path
                   eq_refl H7).
Qed.

(** A tail made of a path and of what follows it. *)
Lemma path_of_tail (p q : string) :
  none_in (chars "?#") p = true ->
  q = EmptyString \/ starts_with q "?" = true ->
  before_first "?" (before_first "#" (p +:+ q)) = p.
Proof.
  intros Hp Hq.
  assert (Hhash : occurs "#" p = false)
    by (apply (none_in_occurs (chars "?#")); [exact Hp | reflexivity]).
  assert (Hmark : occurs "?" p = false)
    by (apply (none_in_occurs (chars "?#")); [exact Hp | reflexivity]).
  destruct (before_first_append "#" p q Hhash) as [-> _].
  destruct Hq as [-> | Hq].
  - cbn [before_first]. rewrite append_empty_r.
    now destruct (no_first "?" p Hmark).
  - destruct q as [|c r]; [discriminate |].
    unfold starts_with in Hq. cbn [String.length first_n String.eqb] in Hq.
    destruct (Ascii.eqb_spec c "?") as [-> | _]; [| discriminate].
    cbn [before_first Ascii.eqb Bool.eqb].
    now destruct (split_at_first "?" p (before_first "#" r) Hmark).
Qed.

Lemma query_of_tail (p q : string) :
  none_in (chars "?#") p = true ->
  q = EmptyString \/ starts_with q "?" = true ->
  after_first "?" (before_first "#" (p +:+ q)) = None -> q = EmptyString.
Proof.
  intros Hp Hq.
  assert (Hhash : occurs "#" p = false)
    by (apply (none_in_occurs (chars "?#")); [exact Hp | reflexivity]).
  assert (Hmark : occurs "?" p = false)
    by (apply (none_in_occurs (chars "?#")); [exact Hp | reflexivity]).
  destruct (before_first_append "#" p q Hhash) as [-> _].
  destruct Hq as [-> | Hq]; [reflexivity |].
  destruct q as [|c r]; [discriminate |].
  unfold starts_with in Hq. cbn [String.length first_n String.eqb] in Hq.
  destruct (Ascii.eqb_spec c "?") as [-> | _]; [| discriminate].
  cbn [before_first Ascii.eqb Bool.eqb].
  destruct (split_at_first "?" p (before_first "#" r) Hmark) as [_ ->].
  discriminate.
Qed.

(** X25: on a URI [scheme://host[:port]/path[?query...]], the path setter
    replaces exactly the path by the encoded new path, with a slash put in
    front when it has none, and whatever follows the path stays.  When the
    new path is 7-bit text, [path()] then returns the encoded path and
    [path_decoded()] the new path, with that slash in front when it had
    none. *)
Theorem set_path_replaces_path (s h : string) (digits : option string)
    (p q new_path : string) :
  is_scheme s = true ->
  none_in (chars "/?#@:") h = true ->
  match digits with
  | Some d => is_digit d = true /\ d <> EmptyString
  | None => True
  end ->
  starts_with p "/" = true ->
  none_in (chars "?#") p = true ->
  q = EmptyString \/ starts_with q "?" = true ->
  size (hierarchical s h digits (p +:+ q)) < SizeT.max_size ->
  size (hierarchical s h digits (encoded_path new_path +:+ q))
  < SizeT.max_size ->
  let u' := uri_of (hierarchical s h digits (encoded_path new_path +:+ q)) in
  set_path new_path (uri_of (hierarchical s h digits (p +:+ q))) = (Ok tt, u')
  /\ (seven_bit new_path = true ->
      fst (path u') = Ok (encoded_path new_path)
      /\ fst (path_decoded u')
         = Ok (Some ((if starts_with new_path "/" then EmptyString else "/")
                     +:+ new_path))).
Proof.
  intros Hs Hh Hd Hp Hclean Hq Hsz Hsz'. cbv zeta.
  destruct (encoded_path_shape new_path) as [e He].
  assert (Hpath' :
    seven_bit new_path = true ->
    fst (path (uri_of (hierarchical s h digits (encoded_path new_path +:+ q))))
    = Ok (encoded_path new_path)).
  { intros H7. rewrite hierarchical_path; try assumption.
    - now rewrite (path_of_tail _ q (encoded_path_clean _ H7) Hq).
    - right. now rewrite He.
    - rewrite He. now destruct h, digits. }
  split; [| intros H7; specialize (Hpath' H7); split; [exact Hpath' |]].
  - assert (Htail : p +:+ q = EmptyString \/ starts_with (p +:+ q) "/" = true).
    { right. destruct p as [|c r]; [discriminate |]. exact Hp. }
    assert (Hne : h +:+ port_text digits +:+ p +:+ q <> EmptyString).
    { destruct p as [|c r]; [discriminate |]. now destruct h, digits. }
    pose proof (hierarchical_size s h (p +:+ q) digits) as Hdsz.
    pose proof (size_nonneg (h +:+ port_text digits)) as HA.
    pose proof (size_nonneg s) as Hs0.
    pose proof (hierarchical_query_offset s h (p +:+ q) digits Hs Hh Hd Hne)
      as HQS.
    pose proof (query_of_tail p q Hclean Hq) as Hnone.
    rewrite (path_of_tail p q Hclean Hq) in HQS.
    rewrite (size_append p q) in Hdsz.
    pose proof (size_nonneg p) as Hp0. pose proof (size_nonneg q) as Hq0.
    set (A := h +:+ port_text digits) in *.
    assert (HQ : query_offset (hierarchical s h digits (p +:+ q))
                 = size s + 3 + size A + size p).
    { destruct (after_first "?" _); [exact HQS |].
      rewrite HQS, Hdsz, (Hnone eq_refl).
      change (size EmptyString) with 0. lia. }
    clear HQS Hnone.
    assert (Hshape : forall t,
               hierarchical s h digits t = (s +:+ "://" +:+ A) +:+ t).
    { intros t. unfold hierarchical, A. now rewrite !append_assoc. }
    assert (Hprefix : Z.to_nat (size s + 3 + size A)
                      = String.length (s +:+ "://" +:+ A)).
    { rewrite !length_append. unfold size. cbn [String.length]. lia. }
    unfold set_path. unfold noexcept at 1, bind at 1.
    rewrite (hierarchical_parse_path s h (p +:+ q) digits Hs Hh Hd Htail Hne
               Hsz).
    fold A. run. rewrite HQ.
    rewrite sub_exact by (rewrite modulus_value, max_size_value in *; lia).
    replace (size s + 3 + size A + size p - (size s + 3 + size A))
      with (size p) by lia.
    fold (encoded_path new_path).
    rewrite replace_value_splice; unfold_fields;
      try (rewrite ?max_size_value in *; lia).
    + rewrite Z.min_r by lia. do 2 f_equal.
      rewrite Hprefix.
      replace (Z.to_nat (size s + 3 + size A + size p))
        with (String.length (s +:+ "://" +:+ A) + String.length p)%nat
        by (rewrite <- Hprefix; unfold size; lia).
      rewrite !Hshape, first_n_prefix, skip_append.
      rewrite <- (Nat.add_0_r (String.length p)), skip_append.
      reflexivity.
    + rewrite He. unfold empty. rewrite size_cons.
      pose proof (size_nonneg e).
      destruct (Z.eqb_spec (1 + size e) 0); [lia |]. apply andb_false_r.
  - unfold path_decoded, noexcept, bind.
    destruct (path _) as [o u1]. cbn [fst] in Hpath'. subst o.
    unfold ret. cbn [fst]. now rewrite (encoded_path_decodes _ H7).
Qed.

Lemma set_path_replaces_path_witness :
  let u := uri_of (hierarchical "http" "example.com" None ("/old" +:+ "?x=1#f")) in
  let u' :=
    uri_of (hierarchical "http" "example.com" None
              (encoded_path "a b" +:+ "?x=1#f")) in
  data u = "http://example.com/old?x=1#f"
  /\ data u' = "http://example.com/a%20b?x=1#f"
  /\ set_path "a b" u = (Ok tt, u')
  /\ fst (path u') = Ok (encoded_path "a b")
  /\ fst (path_decoded u') = Ok (Some "/a b").
Proof.
  cbv zeta.
  split; [reflexivity |]. split; [vm_compute; reflexivity |].
  destruct (set_path_replaces_path "http" "example.com" None "/old" "?x=1#f"
              "a b") as [Hset Hget].
  - vm_compute. reflexivity.
  - vm_compute. reflexivity.
  - exact I.
  - vm_compute. reflexivity.
  - vm_compute. reflexivity.
  - right. vm_compute. reflexivity.
  - vm_compute. reflexivity.
  - vm_compute. reflexivity.
  - split; [exact Hset | apply Hget; vm_compute; reflexivity].
Defined.

(** ** Resolving a reference *)

(** [fragment()] where the cache holds no fragment offset and the buffer
    no ['#']. *)
Lemma fragment_fatal (u : basic_uri) :
  fragment_start u = npos ->
  size (data u) < SizeT.max_size ->
  occurs "#" (data u) = false ->
  fst (fragment u) = Terminate.
Proof.
  intros Hfs Hsz Hno. unfold fragment.
  unfold noexcept at 1, bind at 1.
  rewrite (parse_fragment_fresh u Hfs Hsz).
  destruct (no_first "#" (data u) Hno) as [-> _].
  destruct u as [d se as_ ue ps ae qs fs]. run.
  pose proof (size_nonneg d) as Hnn.
  rewrite add_exact by (rewrite modulus_value, max_size_value in *; lia).
  unfold substr. run.
  change (npos =? 0) with false. cbv iota. unfold sv_substr. run.
  destruct (Z.ltb_spec (size d) (size d + 1)); [reflexivity | lia].
Qed.

(** Running a sequence of calls. *)
Lemma bind_returns {S A B : Type} (m : St S A) (f : A -> St S B)
    (u u' : S) (a : A) :
  m u = (Ok a, u') -> bind m f u = f a u'.
Proof. intros H. unfold bind. now rewrite H. Qed.

Lemma bind_terminates {S A B : Type} (m : St S A) (f : A -> St S B)
    (u : S) :
  fst (m u) = Terminate -> fst (bind m f u) = Terminate.
Proof. unfold bind. destruct (m u) as [[] ?]; cbn; congruence. Qed.

Lemma bind_throws {S A B : Type} (m : St S A) (f : A -> St S B)
    (u : S) (e : exn) :
  fst (m u) = Throw e -> fst (bind m f u) = Throw e.
Proof. unfold bind. destruct (m u) as [[] ?]; cbn; congruence. Qed.

Lemma on_relative_run {A : Type} (m : M A) (b r t : basic_uri) :
  on_relative m (mk_frames b r t)
  = (fst (m r), mk_frames b (snd (m r)) t).
Proof. unfold on_relative, on. cbn. now destruct (m r). Qed.

Lemma on_this_run {A : Type} (m : M A) (b r t : basic_uri) :
  on_this m (mk_frames b r t)
  = (fst (m b), mk_frames (snd (m b)) r t).
Proof. unfold on_this, on. cbn. now destruct (m b). Qed.

Lemma on_target_run {A : Type} (m : M A) (b r t : basic_uri) :
  on_target m (mk_frames b r t)
  = (fst (m t), mk_frames b r (snd (m t))).
Proof. unfold on_target, on. cbn. now destruct (m t). Qed.

(** X26: [resolve] on a base and a reference given as buffers.  A
    reference with a scheme is returned as it is: its path is not
    normalised.  For a reference without a scheme and without ['#'] the
    call never returns: the scheme setter applied to the scheme of the base
    throws inside the [noexcept] function, or [relative_uri.fragment()]
    asks for a substring past the end of the buffer; either way the program
    is terminated, whatever the members that [resolve] names and the class
    lacks do. *)
Theorem resolve_returns_only_with_scheme_or_fragment
    (is_ipv6 is_query : string -> bool) (set_fragment : string -> M unit)
    (_query _path : basic_uri -> string) (base relative : string) :
  size base < SizeT.max_size ->
  size relative < SizeT.max_size ->
  let resolved_target :=
    resolve is_ipv6 is_query set_fragment _query _path
      (uri_of base) (uri_of relative) in
  (fst (has_scheme (uri_of relative)) = Ok true ->
   exists t, resolved_target = Ok t /\ data t = relative)
  /\ (fst (has_scheme (uri_of relative)) = Ok false ->
      occurs "#" relative = false ->
      resolved_target = Terminate).
Proof.
  intros Hb Hr. cbv zeta.
  pose proof (Inv_uri_of base Hb) as HIb.
  pose proof (Inv_uri_of relative Hr) as HIr.
  destruct (has_scheme_stable _ HIr) as (has & r1 & Hhas & Hd1 & HI1 & _).
  assert (Hfs1 : fragment_start r1 = npos).
  { unfold has_scheme in Hhas.
    destruct (parse_scheme_post _ HIr)
      as ([] & r0 & Hp & (vs & va & -> & _) & _).
    revert Hhas. unfold noexcept at 1, bind at 1. rewrite Hp. run.
    intros [= _ <-]. reflexivity. }
  rewrite Hhas. cbn [fst].
  unfold resolve, resolve_frames.
  match goal with
  | |- context [noexcept ?m ?fr] => set (body := m); set (fr0 := fr)
  end.
  split; intros [= ->].
  - exists r1. split; [| exact Hd1].
    assert (Hrun : body fr0 = (Ok tt, mk_frames (uri_of base) r1 r1)).
    { unfold body, fr0.
      rewrite (bind_returns _ _ _ _ _
                 (eq_trans (on_relative_run has_scheme _ _ _)
                    ltac:(rewrite Hhas; reflexivity))).
      reflexivity. }
    unfold noexcept. now rewrite Hrun.
  - intros Hno.
    enough (Hrun : fst (body fr0) = Terminate
                   \/ exists e, fst (body fr0) = Throw e).
    { unfold noexcept. destruct (body fr0) as [o fr1]. cbn [fst] in Hrun.
      destruct Hrun as [-> | [e ->]]; reflexivity. }
    unfold body, fr0.
    rewrite (bind_returns _ _ _ _ _
               (eq_trans (on_relative_run has_scheme _ _ _)
                  ltac:(rewrite Hhas; reflexivity))).
    cbv iota.
    destruct (scheme_stable _ HIb) as (s & b1 & Hs & _).
    rewrite (bind_returns _ _ _ _ _
               (eq_trans (on_this_run scheme _ _ _)
                  ltac:(rewrite Hs; reflexivity))).
    destruct (is_scheme (if ends_with s ":" then remove_suffix1 s else s))
      eqn:Hvalid.
    + destruct (set_scheme_resets s uri_default
                  (Inv_uri_of EmptyString ltac:(vm_compute; reflexivity))
                  Hvalid)
        as ([] & t1 & Hset & _).
      rewrite (bind_returns _ _ _ _ _
                 (eq_trans (on_target_run (set_scheme s) _ _ _)
                    ltac:(rewrite Hset; reflexivity))).
      left. apply bind_terminates. rewrite on_relative_run. cbn [fst].
      apply (fragment_fatal r1 Hfs1); rewrite Hd1; [exact Hr | exact Hno].
    + right. exists invalid_argument. apply bind_throws.
      rewrite on_target_run. cbn [fst].
      unfold set_scheme. cbv zeta. now rewrite Hvalid.
Qed.

Lemma resolve_returns_only_with_scheme_or_fragment_witness :
  let resolve_with :=
    resolve (fun _ => false) (fun _ => true) (fun _ => ret tt) data data in
  resolve_with (uri_of "http://a/b/c/d;p?q") (uri_of "//g/x?y") = Terminate
  /\ exists t,
       resolve_with (uri_of "http://a/b/c/d;p?q") (uri_of "mailto:x/../y")
       = Ok t
       /\ data t = "mailto:x/../y".
Proof.
  cbv zeta. split.
  - apply (resolve_returns_only_with_scheme_or_fragment
             (fun _ => false) (fun _ => true) (fun _ => ret tt) data data
             "http://a/b/c/d;p?q" "//g/x?y");
      vm_compute; reflexivity.
  - apply (resolve_returns_only_with_scheme_or_fragment
             (fun _ => false) (fun _ => true) (fun _ => ret tt) data data
             "http://a/b/c/d;p?q" "mailto:x/../y");
      vm_compute; reflexivity.
Defined.

(** ** Setting the query of a URI that has none *)

Lemma starts_with_char (s : string) (c : ascii) :
  starts_with s (String c EmptyString) = true ->
  exists rest, s = String c rest.
Proof.
  destruct s as [|x r]; [discriminate |].
  unfold starts_with. cbn [String.length first_n String.eqb].
  destruct (Ascii.eqb_spec x c) as [-> | _]; [| discriminate].
  now exists r.
Qed.

Lemma encoded_query_shape (new_query : string) :
  encoded_query new_query
  = String "?"
      (encode_uri_component
         (if starts_with new_query "?" then remove_prefix1 new_query
          else new_query)
         QUERY_OR_FRAGMENT_NOT_PCT_ENCODED).
Proof.
  unfold encoded_query. destruct (starts_with new_query "?") eqn:E.
  - destruct (starts_with_char _ _ E) as [rest ->].
    unfold encode_uri_component. rewrite encode_loop_cons. reflexivity.
  - reflexivity.
Qed.

Lemma seven_bit_skip (s : string) (n : nat) :
  seven_bit s = true -> seven_bit (skip n s) = true.
Proof.
  revert n. induction s as [|c s IH]; intros [|n] H; try exact H.
  cbn [skip]. cbn [seven_bit] in H. apply andb_prop in H as [_ H].
  now apply IH.
Qed.

(** X27: on a buffer without ['?'] and without ['#'], the query setter
    appends a question mark (unless the new query brings its own) and the
    encoded query.  When the new query is 7-bit text, [query()] then
    returns the encoded query and [query_decoded()] the new query, without
    its leading question mark. *)
Theorem set_query_appends (is_query : string -> bool)
    (buffer new_query : string) :
  occurs "?" buffer = false ->
  occurs "#" buffer = false ->
  is_query new_query = true ->
  size (buffer +:+ encoded_query new_query) < SizeT.max_size ->
  let u' := uri_of (buffer +:+ encoded_query new_query) in
  set_query is_query new_query (uri_of buffer) = (Ok tt, u')
  /\ (seven_bit new_query = true ->
      fst (query u') = Ok (remove_prefix1 (encoded_query new_query))
      /\ fst (query_decoded u')
         = Ok (Some (if starts_with new_query "?"
                     then remove_prefix1 new_query else new_query))).
Proof.
  intros Hmark Hhash Hvalid Hsz. cbv zeta.
  pose proof (encoded_query_shape new_query) as Hshape.
  set (q := if starts_with new_query "?" then remove_prefix1 new_query
            else new_query) in *.
  set (e := encode_uri_component q QUERY_OR_FRAGMENT_NOT_PCT_ENCODED) in *.
  assert (H7q : seven_bit new_query = true -> seven_bit q = true).
  { intros H7. unfold q. destruct (starts_with new_query "?"); [| exact H7].
    now apply seven_bit_skip. }
  assert (Hquery :
    seven_bit new_query = true ->
    fst (query (uri_of (buffer +:+ encoded_query new_query))) = Ok e).
  { intros H7. rewrite (query_fresh _ Hsz).
    assert (Hclean : occurs "#" (encoded_query new_query) = false).
    { rewrite Hshape. cbn [occurs]. change (Ascii.eqb "#" "?") with false.
      cbn [orb].
      apply (all_in_occurs _ _ _ (encode_alphabet _ _ (H7q H7))).
      reflexivity. }
    destruct (before_first_append "#" buffer (encoded_query new_query) Hhash)
      as [-> _].
    destruct (no_first "#" _ Hclean) as [-> _]. rewrite Hshape.
    now destruct (split_at_first "?" buffer e Hmark) as [_ ->]. }
  split; [| intros H7; specialize (Hquery H7); specialize (H7q H7); split].
  - pose proof (size_nonneg buffer) as Hb.
    pose proof (size_nonneg (encoded_query new_query)) as He.
    rewrite size_append in Hsz.
    unfold set_query. rewrite Hvalid. cbn [negb]. cbv zeta.
    unfold bind at 1.
    rewrite parse_query_fresh by (try reflexivity; cbn [data uri_of]; lia).
    unfold uri_of. run. unfold query_offset.
    destruct (no_first "#" buffer Hhash) as [-> _].
    destruct (no_first "?" buffer Hmark) as [_ ->].
    rewrite Z.eqb_refl. cbn [negb].
    rewrite sub_exact by (rewrite modulus_value; lia).
    fold (encoded_query new_query).
    rewrite replace_value_splice; unfold_fields;
      try (rewrite ?max_size_value in *; lia).
    + rewrite Z.sub_diag, Z.add_0_r, Z.min_id.
      rewrite to_nat_size, skip_all, append_empty_r by lia.
      rewrite first_n_all by lia. reflexivity.
    + rewrite Hshape. apply andb_false_intro2. unfold empty.
      rewrite size_cons. pose proof (size_nonneg e). lia.
  - rewrite Hquery, Hshape. reflexivity.
  - unfold query_decoded. unfold noexcept, bind.
    destruct (query _) as [o u2]. cbn [fst] in Hquery. subst o.
    unfold ret. cbn [fst]. do 2 f_equal.
    unfold e, decode_uri_component, encode_uri_component.
    now rewrite (decode_encode_loop QUERY_OR_FRAGMENT_NOT_PCT_ENCODED q
                   eq_refl H7q).
Qed.

Lemma set_query_appends_witness :
  let u' := uri_of "http://h/p?a=b%20c" in
  set_query (fun _ => true) "a=b c" (uri_of "http://h/p") = (Ok tt, u')
  /\ fst (query u') = Ok "a=b%20c"
  /\ fst (query_decoded u') = Ok (Some "a=b c").
Proof.
  cbv zeta.
  destruct (set_query_appends (fun _ => true) "http://h/p" "a=b c")
    as [Hset Hget]; try (vm_compute; reflexivity).
  split; [exact Hset | apply Hget; vm_compute; reflexivity].
Defined.

(** ** Setting the host and the port of a hierarchical URI *)

Lemma hierarchical_parse_host (s h tail : string) (digits : option string) :
  is_scheme s = true ->
  none_in (chars "/?#@:") h = true ->
  match digits with
  | Some p => is_digit p = true /\ p <> EmptyString
  | None => True
  end ->
  tail = EmptyString \/ starts_with tail "/" = true ->
  h +:+ port_text digits +:+ tail <> EmptyString ->
  size (hierarchical s h digits tail) < SizeT.max_size ->
  parse_host (uri_of (hierarchical s h digits tail))
  = (Ok tt,
     mk_uri (hierarchical s h digits tail) (size s) (size s + 3)
       (size (hierarchical s h digits tail))
       (match digits with
        | Some _ => size s + 3 + size h
        | None => size (hierarchical s h digits tail)
        end)
       (size s + 3 + size (h +:+ port_text digits))
       (query_offset (hierarchical s h digits tail))
       (size (before_first "#" (hierarchical s h digits tail)))).
Proof. intros. eapply run_parse_host; side_condition. Qed.

Lemma hierarchical_host (s h tail : string) (digits : option string) :
  is_scheme s = true ->
  none_in (chars "/?#@:") h = true ->
  match digits with
  | Some p => is_digit p = true /\ p <> EmptyString
  | None => True
  end ->
  tail = EmptyString \/ starts_with tail "/" = true ->
  h +:+ port_text digits +:+ tail <> EmptyString ->
  size (hierarchical s h digits tail) < SizeT.max_size ->
  fst (host (uri_of (hierarchical s h digits tail))) = Ok h.
Proof. intros. eapply run_host; side_condition. Qed.

Lemma hierarchical_port (s h tail : string) (digits : option string) :
  is_scheme s = true ->
  none_in (chars "/?#@:") h = true ->
  match digits with
  | Some p => is_digit p = true /\ p <> EmptyString
  | None => True
  end ->
  tail = EmptyString \/ starts_with tail "/" = true ->
  h +:+ port_text digits +:+ tail <> EmptyString ->
  size (hierarchical s h digits tail) < SizeT.max_size ->
  fst (port (uri_of (hierarchical s h digits tail)))
  = Ok match digits with
       | Some p => if empty tail then remove_suffix1 p else p
       | None => EmptyString
       end.
Proof. intros. eapply run_port; side_condition. Qed.

Lemma encode_nonempty (allowed : charset_t) (text : string) :
  text <> EmptyString -> encode_uri_component text allowed <> EmptyString.
Proof.
  destruct text as [|c r]; [congruence |]. intros _.
  unfold encode_uri_component. rewrite encode_loop_cons.
  destruct (contains allowed c); discriminate.
Qed.

Lemma encoded_host_clean (is_ipv6 : string -> bool) (new_host : string) :
  seven_bit new_host = true ->
  none_in (chars "/?#@:") (encoded_host is_ipv6 new_host) = true.
Proof.
  intros H7.
  apply (all_in_none_in
           (charset [charset [REG_NAME_NOT_PCT_ENCODED;
                              chars "%0123456789ABCDEF"];
                     chars "[]"])); [| reflexivity].
  assert (He : all_in
                 (charset [charset [REG_NAME_NOT_PCT_ENCODED;
                                    chars "%0123456789ABCDEF"];
                           chars "[]"])
                 (encode_uri_component new_host REG_NAME_NOT_PCT_ENCODED)
               = true).
  { pose proof (encode_alphabet REG_NAME_NOT_PCT_ENCODED _ H7) as H.
    revert H. generalize (encode_uri_component new_host REG_NAME_NOT_PCT_ENCODED).
    intros e. induction e as [|c e IH]; [reflexivity |].
    cbn [all_in]. intros H. apply andb_prop in H as [Hc He].
    rewrite (IH He), andb_true_r.
    unfold contains, charset in *. cbn [concat] in *.
    rewrite app_nil_r in *. rewrite existsb_app, Hc. reflexivity. }
  unfold encoded_host. cbv zeta.
  destruct (_ && _); [| exact He].
  rewrite !all_in_append, He. reflexivity.
Qed.

(** X28: on a URI [scheme://host[:port][/path...]] in which a port or a
    path follows the host, the host setter replaces exactly the host by
    the new host, encoded (and put in brackets when [is::ipv6] accepts it
    and it does not have them); on 7-bit text [host()] then returns the
    text written, and [host_decoded()] the new host; when brackets were
    added [host_decoded()] returns [std::nullopt], as the decoder does not
    allow them. *)
Theorem set_host_replaces_host (is_ipv6 : string -> bool)
    (s h tail : string) (digits : option string) (new_host : string) :
  is_scheme s = true ->
  none_in (chars "/?#@:") h = true ->
  match digits with
  | Some p => is_digit p = true /\ p <> EmptyString
  | None => True
  end ->
  tail = EmptyString \/ starts_with tail "/" = true ->
  port_text digits +:+ tail <> EmptyString ->
  new_host <> EmptyString ->
  seven_bit new_host = true ->
  size (hierarchical s h digits tail) < SizeT.max_size ->
  size (hierarchical s (encoded_host is_ipv6 new_host) digits tail)
  < SizeT.max_size ->
  let u' := uri_of (hierarchical s (encoded_host is_ipv6 new_host) digits tail) in
  set_host is_ipv6 new_host (uri_of (hierarchical s h digits tail))
  = (Ok tt, u')
  /\ fst (host u') = Ok (encoded_host is_ipv6 new_host)
  /\ fst (host_decoded u')
     = Ok (if (negb (starts_with new_host "[")
               || negb (ends_with new_host "]"))
              && is_ipv6 new_host
           then None
           else Some new_host).
Proof.
  intros Hs Hh Hd Ht Hrest Hnew H7 Hsz Hsz'. cbv zeta.
  assert (Hne : forall x, x +:+ port_text digits +:+ tail <> EmptyString).
  { intros x E. apply Hrest. destruct x; [exact E | discriminate]. }
  assert (Hhost' :
    fst (host (uri_of (hierarchical s (encoded_host is_ipv6 new_host)
                         digits tail)))
    = Ok (encoded_host is_ipv6 new_host)).
  { apply hierarchical_host; try assumption; [| apply Hne].
    now apply encoded_host_clean. }
  split; [| split; [exact Hhost' |]].
  - pose proof (hierarchical_size s h tail digits) as Hdsz.
    pose proof (size_nonneg s) as Hs0. pose proof (size_nonneg h) as Hh0.
    pose proof (size_nonneg tail) as Ht0.
    pose proof (size_nonneg (port_text digits)) as Hp0.
    rewrite size_append in Hdsz.
    assert (Hpos : 0 < size (port_text digits) + size tail).
    { rewrite <- size_append.
      destruct (Z.eq_dec (size (port_text digits +:+ tail)) 0) as [E | NE].
      - apply size_zero in E. contradiction.
      - pose proof (size_nonneg (port_text digits +:+ tail)). lia. }
    unfold set_host. unfold noexcept at 1, bind at 1.
    rewrite (hierarchical_parse_host s h tail digits Hs Hh Hd Ht (Hne h) Hsz).
    cbv zeta. fold (encoded_host is_ipv6 new_host). run.
    set (d := hierarchical s h digits tail) in *.
    set (e := encoded_host is_ipv6 new_host) in *.
    destruct (Z.eqb_spec (size s + 3) (size d)) as [E | _]; [lia |].
    rewrite Z.eqb_refl.
    destruct (Z.eqb_spec (size s) (size d)) as [E | _]; [lia |].
    assert (Hfinish :
      (if negb ((match digits with
                 | Some _ => size s + 3 + size h
                 | None => size d
                 end) =? size d)
       then match digits with
            | Some _ => size s + 3 + size h
            | None => size d
            end
       else if negb (size s + 3 + size (h +:+ port_text digits) =? size d)
            then size s + 3 + size (h +:+ port_text digits)
            else SizeT.sub (size d) 1)
      = size s + 3 + size h).
    { destruct digits as [p|].
      - destruct (Z.eqb_spec (size s + 3 + size h) (size d)) as [E | _];
          [| reflexivity].
        exfalso. cbn [port_text] in *. rewrite size_cons in *. lia.
      - rewrite Z.eqb_refl. cbn [negb]. cbn [port_text] in *.
        rewrite append_empty_r.
        destruct (Z.eqb_spec (size s + 3 + size h) (size d)) as [E | _];
          [| reflexivity].
        exfalso. change (size EmptyString) with 0 in *. lia. }
    rewrite Hfinish.
    rewrite sub_exact by (rewrite modulus_value, max_size_value in *; lia).
    replace (size s + 3 + size h - (size s + 3)) with (size h) by lia.
    assert (Hempty : empty e = false).
    { unfold empty. destruct (Z.eqb_spec (size e) 0) as [E | _];
        [| reflexivity].
      apply size_zero in E. exfalso. revert E. unfold e, encoded_host.
      cbv zeta. destruct (_ && _); [discriminate |].
      now apply encode_nonempty. }
    rewrite replace_value_splice; unfold_fields;
      try (rewrite ?max_size_value in *; lia).
    + rewrite Z.min_r by lia. do 2 f_equal.
      unfold d, hierarchical.
      replace (Z.to_nat (size s + 3))
        with (String.length (s +:+ "://") + 0)%nat
        by (rewrite length_append; unfold size; cbn [String.length]; lia).
      replace (Z.to_nat (size s + 3 + size h))
        with (String.length (s +:+ "://" +:+ h) + 0)%nat
        by (rewrite !length_append; unfold size; cbn [String.length]; lia).
      set (R := port_text digits +:+ tail).
      assert (Hf : first_n (String.length (s +:+ "://") + 0)
                     (s +:+ "://" +:+ h +:+ R) = s +:+ "://").
      { replace (s +:+ "://" +:+ h +:+ R) with ((s +:+ "://") +:+ h +:+ R)
          by (now rewrite !append_assoc).
        rewrite first_n_append, first_n_zero. apply append_empty_r. }
      assert (Hk : skip (String.length (s +:+ "://" +:+ h) + 0)
                     (s +:+ "://" +:+ h +:+ R) = R).
      { replace (s +:+ "://" +:+ h +:+ R) with ((s +:+ "://" +:+ h) +:+ R)
          by (now rewrite !append_assoc).
        now rewrite skip_append. }
      rewrite Hf, Hk. now rewrite !append_assoc.
    + rewrite Hempty. apply andb_false_r.
  - unfold host_decoded. unfold noexcept, bind.
    destruct (host _) as [o u2]. cbn [fst] in Hhost'. subst o.
    unfold ret. cbn [fst]. f_equal.
    unfold encoded_host. cbv zeta. destruct (_ && _).
    + unfold decode_uri_component.
      apply (decode_loop_rejects_foreign REG_NAME_NOT_PCT_ENCODED EmptyString
               "["); reflexivity.
    + unfold decode_uri_component, encode_uri_component.
      now rewrite (decode_encode_loop REG_NAME_NOT_PCT_ENCODED new_host
                     eq_refl H7).
Qed.

Lemma set_host_replaces_host_witness :
  let u' := uri_of "http://my%20host.org:8080/a?b" in
  set_host (fun _ => false) "my host.org" (uri_of "http://example.com:8080/a?b")
  = (Ok tt, u')
  /\ fst (host u') = Ok "my%20host.org"
  /\ fst (host_decoded u') = Ok (Some "my host.org").
Proof.
  cbv zeta.
  apply (set_host_replaces_host (fun _ => false) "http" "example.com" "/a?b"
           (Some "8080") "my host.org").
  - vm_compute. reflexivity.
  - vm_compute. reflexivity.
  - split; [vm_compute; reflexivity | discriminate].
  - right. vm_compute. reflexivity.
  - discriminate.
  - discriminate.
  - vm_compute. reflexivity.
  - vm_compute. reflexivity.
  - vm_compute. reflexivity.
Defined.

Lemma hierarchical_parse_port (s h tail : string) (digits : option string) :
  is_scheme s = true ->
  none_in (chars "/?#@:") h = true ->
  match digits with
  | Some p => is_digit p = true /\ p <> EmptyString
  | None => True
  end ->
  tail = EmptyString \/ starts_with tail "/" = true ->
  h +:+ port_text digits +:+ tail <> EmptyString ->
  size (hierarchical s h digits tail) < SizeT.max_size ->
  parse_port (uri_of (hierarchical s h digits tail))
  = (Ok tt,
     mk_uri (hierarchical s h digits tail) (size s) (size s + 3)
       (size (hierarchical s h digits tail))
       (match digits with
        | Some _ => size s + 3 + size h
        | None => size (hierarchical s h digits tail)
        end)
       (size s + 3 + size (h +:+ port_text digits))
       (query_offset (hierarchical s h digits tail))
       (size (before_first "#" (hierarchical s h digits tail)))).
Proof. intros. eapply run_parse_port; try side_condition. now left. Qed.

Lemma digits_start (p : string) :
  is_digit p = true -> starts_with p ":" = false.
Proof.
  destruct p as [|c r]; [reflexivity |].
  unfold is_digit, starts_with. cbn [all_in String.length first_n String.eqb].
  intros H. apply andb_prop in H as [Hc _].
  destruct (Ascii.eqb_spec c ":") as [-> | _]; [discriminate | reflexivity].
Qed.

(** X29: on a URI [scheme://host/path...] without a port, the port setter
    called with a non-empty string of digits, with or without a colon in
    front, inserts the colon and the digits between the host and the path,
    and [port()] then returns the digits. *)
Theorem set_port_inserts_port (s h tail p new_port : string) :
  is_scheme s = true ->
  none_in (chars "/?#@:") h = true ->
  starts_with tail "/" = true ->
  is_digit p = true ->
  p <> EmptyString ->
  new_port = p \/ new_port = String ":" p ->
  size (hierarchical s h (Some p) tail) < SizeT.max_size ->
  let u' := uri_of (hierarchical s h (Some p) tail) in
  set_port new_port (uri_of (hierarchical s h None tail)) = (Ok tt, u')
  /\ fst (port u') = Ok p.
Proof.
  intros Hs Hh Ht Hp Hne Hnew Hsz. cbv zeta.
  assert (Hstrip :
    (if starts_with new_port ":" then remove_prefix1 new_port else new_port)
    = p).
  { destruct Hnew as [-> | ->]; [now rewrite digits_start | reflexivity]. }
  destruct (starts_with_char _ _ Ht) as [t Etail].
  assert (Hany : forall x y, x +:+ y +:+ tail <> EmptyString).
  { intros x y. rewrite Etail. destruct x, y; discriminate. }
  split.
  - pose proof (hierarchical_size s h tail None) as Hdsz.
    pose proof (hierarchical_size s h tail (Some p)) as Hdsz'.
    cbn [port_text] in Hdsz, Hdsz'. rewrite append_empty_r in Hdsz.
    rewrite size_append, size_cons in Hdsz'.
    pose proof (size_nonneg s) as Hs0. pose proof (size_nonneg h) as Hh0.
    pose proof (size_nonneg p) as Hp0.
    assert (Ht0 : 0 < size tail).
    { rewrite Etail, size_cons. pose proof (size_nonneg t). lia. }
    assert (Hsz0 : size (hierarchical s h None tail) < SizeT.max_size)
      by lia.
    pose proof (before_first_size "#" (hierarchical s h None tail)) as Hfs.
    pose proof (size_nonneg (before_first "#" (hierarchical s h None tail)))
      as Hfs0.
    assert (Hqs : 0 <= query_offset (hierarchical s h None tail)
                  <= size (hierarchical s h None tail)).
    { unfold query_offset. destruct (after_first "?" _); [| lia].
      pose proof (before_first_size "?"
                    (before_first "#" (hierarchical s h None tail))).
      pose proof (size_nonneg
                    (before_first "?"
                       (before_first "#" (hierarchical s h None tail)))).
      lia. }
    unfold set_port. unfold noexcept at 1. cbv zeta. rewrite Hstrip, Hp.
    cbn [negb]. unfold bind at 1.
    rewrite (hierarchical_parse_port s h tail None Hs Hh I (or_intror Ht)
               (Hany _ _) Hsz0).
    cbn [port_text]. rewrite append_empty_r. run.
    set (d := hierarchical s h None tail) in *.
    rewrite Z.eqb_refl.
    rewrite parse_host_memo.
    2: { unfold resolved. unfold_fields.
         rewrite npos_value, max_size_value in *. lia. }
    run.
    destruct (Z.eqb_spec (size s + 3 + size h) (size d)) as [E | _]; [lia |].
    cbn [negb].
    rewrite replace_value_splice; unfold_fields;
      try (rewrite ?max_size_value in *; lia).
    + rewrite Z.add_0_r, Z.min_r by lia. do 2 f_equal.
      unfold d, hierarchical. cbn [port_text].
      replace (Z.to_nat (size s + 3 + size h))
        with (String.length (s +:+ "://" +:+ h) + 0)%nat
        by (rewrite !length_append; unfold size; cbn [String.length]; lia).
      replace (s +:+ "://" +:+ h +:+ EmptyString +:+ tail)
        with ((s +:+ "://" +:+ h) +:+ tail)
        by (now rewrite !append_assoc).
      rewrite first_n_append, first_n_zero, append_empty_r, skip_append.
      cbn [skip]. now rewrite !append_assoc.
    + reflexivity.
  - rewrite hierarchical_port; try assumption.
    + rewrite Etail. reflexivity.
    + now split.
    + now right.
    + apply Hany.
Qed.

Lemma set_port_inserts_port_witness :
  let u' := uri_of "http://example.com:8080/a?b" in
  set_port ":8080" (uri_of "http://example.com/a?b") = (Ok tt, u')
  /\ fst (port u') = Ok "8080".
Proof.
  cbv zeta.
  apply (set_port_inserts_port "http" "example.com" "/a?b" "8080" ":8080").
  - vm_compute. reflexivity.
  - vm_compute. reflexivity.
  - vm_compute. reflexivity.
  - vm_compute. reflexivity.
  - discriminate.
  - now right.
  - vm_compute. reflexivity.
Defined.

(** * The order of the resolved offsets *)

(** ** Characters found by a search *)

Lemma get_find_if (p : ascii -> bool) (s : string) (i : nat) :
  find_if p s = Some i -> exists c, String.get i s = Some c /\ p c = true.
Proof.
  revert i. induction s as [|x s IH]; intros i; cbn [find_if];
    [discriminate |].
  destruct (p x) eqn:Hx.
  - intros [= <-]. now exists x.
  - destruct (find_if p s) as [j|]; [| discriminate].
    intros [= <-]. exact (IH j eq_refl).
Qed.

Lemma get_find_last_if (p : ascii -> bool) (s : string) (i : nat) :
  find_last_if p s = Some i ->
  exists c, String.get i s = Some c /\ p c = true.
Proof.
  revert i. induction s as [|x s IH]; intros i; cbn [find_last_if];
    [discriminate |].
  destruct (find_last_if p s) as [j|].
  - intros [= <-]. exact (IH j eq_refl).
  - destruct (p x) eqn:Hx; [| discriminate].
    intros [= <-]. now exists x.
Qed.

Lemma get_first_n (k : nat) (s : string) (i : nat) (c : ascii) :
  String.get i (first_n k s) = Some c -> String.get i s = Some c.
Proof.
  revert s i. induction k as [|k IH]; intros [|x s] [|i]; cbn;
    try discriminate; try (intros H; exact H).
  apply IH.
Qed.

Lemma get_skip (a : nat) (s : string) (i : nat) :
  String.get i (skip a s) = String.get (a + i) s.
Proof.
  revert s. induction a as [|a IH]; intros [|x s]; cbn [skip];
    try reflexivity.
  cbn. apply IH.
Qed.

Lemma get_occurs (s : string) (i : nat) (c : ascii) :
  String.get i s = Some c -> occurs c s = true.
Proof.
  revert i. induction s as [|x s IH]; intros [|i]; cbn;
    try discriminate.
  - intros [= ->]. now rewrite Ascii.eqb_refl.
  - intros H. rewrite (IH i H). apply orb_true_r.
Qed.

(** A character found from [k] on occurs in the text from [k] on. *)
Lemma get_beyond (c : ascii) (s : string) (k i : nat) :
  occurs c (skip k s) = false -> (k <= i)%nat -> String.get i s <> Some c.
Proof.
  intros Hno Hle Hget.
  replace i with (k + (i - k))%nat in Hget by lia.
  rewrite <- get_skip in Hget. apply get_occurs in Hget. congruence.
Qed.

Lemma found_in_range (c : ascii) (s : string) (a k i : nat) :
  find_if (Ascii.eqb c) (first_n k (skip a s)) = Some i ->
  String.get (a + i) s = Some c.
Proof.
  intros H. apply get_find_if in H as (x & Hx & Ex).
  apply Ascii.eqb_eq in Ex. subst x.
  rewrite <- get_skip. exact (get_first_n _ _ _ _ Hx).
Qed.

Lemma found_last_in_range (c : ascii) (s : string) (a k i : nat) :
  find_last_if (Ascii.eqb c) (first_n k (skip a s)) = Some i ->
  String.get (a + i) s = Some c.
Proof.
  intros H. apply get_find_last_if in H as (x & Hx & Ex).
  apply Ascii.eqb_eq in Ex. subst x.
  rewrite <- get_skip. exact (get_first_n _ _ _ _ Hx).
Qed.

Lemma find_if_occurs (c : ascii) (s : string) :
  occurs c s = true -> exists i, find_if (Ascii.eqb c) s = Some i.
Proof.
  induction s as [|x s IH]; cbn [occurs find_if]; [discriminate |].
  destruct (Ascii.eqb c x); [now exists O |]. cbn [orb]. intros H.
  destruct (IH H) as [i ->]. now exists (S i).
Qed.

Lemma find_if_first_n (p : ascii -> bool) (s : string) (k : nat) :
  find_if p s = None -> find_if p (first_n k s) = None.
Proof.
  revert k. induction s as [|x s IH]; intros [|k]; cbn [first_n find_if];
    try reflexivity.
  destruct (p x); [discriminate |].
  destruct (find_if p s) eqn:E; [discriminate |]. intros _.
  now rewrite (IH k eq_refl).
Qed.

Lemma skip_append_short (a b : string) (k : nat) :
  (k <= String.length a)%nat -> skip k (a +:+ b) = skip k a +:+ b.
Proof.
  revert a. induction k as [|k IH]; intros [|x a] H; cbn in *;
    try reflexivity; try lia.
  rewrite append_cons. cbn [skip]. apply IH. lia.
Qed.

Lemma first_n_skip (s : string) (k : nat) :
  s = first_n k s +:+ skip k s.
Proof.
  revert s. induction k as [|k IH]; intros [|x s]; cbn [first_n skip];
    try reflexivity.
  rewrite append_cons. f_equal. apply IH.
Qed.

(** A search in a range that starts inside [head] and covers the rest of
    it: the first hit in [head], or else the first hit after it. *)
Lemma find_if_leading (c : ascii) (head rest : string) (a k : nat) :
  (a <= String.length head)%nat ->
  (String.length head - a <= k)%nat ->
  find_if (Ascii.eqb c) (first_n k (skip a (head +:+ rest)))
  = match find_if (Ascii.eqb c) (skip a head) with
    | Some i => Some i
    | None =>
      match find_if (Ascii.eqb c)
              (first_n (k - (String.length head - a)) rest) with
      | Some j => Some (String.length head - a + j)%nat
      | None => None
      end
    end.
Proof.
  intros Ha Hk. rewrite skip_append_short by exact Ha.
  replace k
    with (String.length (skip a head) + (k - (String.length head - a)))%nat
    at 1 by (rewrite length_skip; lia).
  rewrite first_n_append.
  destruct (find_if (Ascii.eqb c) (skip a head)) as [i|] eqn:E.
  - now apply find_if_prefix.
  - rewrite (find_if_append _ _ _ E), length_skip. reflexivity.
Qed.

Lemma occurs_found (c : ascii) (s : string) :
  find_if (Ascii.eqb c) s = None -> occurs c s = false.
Proof.
  intros H. destruct (occurs c s) eqn:E; [| reflexivity].
  apply find_if_occurs in E as [i E]. congruence.
Qed.

(** ** The offsets of a freshly built URI *)

Section FreshBuffer.

(** The buffer, and the two offsets that [parse_scheme] stores. *)
Variables (d : string) (se as_ : Z).

Hypothesis fits : size d < SizeT.max_size.
Hypothesis scheme_parsed :
  parse_scheme (uri_of d)
  = (Ok tt, mk_uri d se as_ npos npos npos npos npos).
Hypothesis se_inside : 0 <= se <= size d.
Hypothesis as_inside : 0 <= as_ <= size d.

Local Abbreviation QS := (query_offset d).
Local Abbreviation FS := (size (before_first "#" d)).
Local Abbreviation SP :=
  (path_search_start (mk_uri d se as_ npos npos npos npos npos)).
Local Abbreviation PATH_RANGE :=
  (first_n (Z.to_nat (Z.min (SizeT.sub QS SP) (size d - SP)))
     (skip (Z.to_nat SP) d)).
Local Abbreviation AE :=
  (match find_if (Ascii.eqb "/") PATH_RANGE with
   | Some i => SP + Z.of_nat i
   | None => size d
   end).

Lemma search_start_inside : 0 <= SP <= size d.
Proof.
  unfold path_search_start, data_size. unfold_fields.
  destruct (negb (as_ =? size d)); [lia |].
  destruct (negb (se =? size d) && negb (se =? npos)); [lia |].
  pose proof (size_nonneg d). lia.
Qed.

Lemma query_fragment_inside : 0 <= QS <= size d /\ 0 <= FS <= size d.
Proof.
  pose proof (before_first_size "#" d).
  pose proof (size_nonneg (before_first "#" d)).
  pose proof (before_first_size "?" (before_first "#" d)).
  pose proof (size_nonneg (before_first "?" (before_first "#" d))).
  unfold query_offset. destruct (after_first "?" _); lia.
Qed.

Lemma path_end_inside : SP <= AE <= size d.
Proof.
  pose proof search_start_inside as Hsp.
  destruct (find_if _ _) as [i|] eqn:E; [| lia].
  apply find_if_bound in E. rewrite length_first_n, length_skip in E.
  unfold size in *. lia.
Qed.

Lemma run_parse_path_fresh (ue ps : Z) :
  parse_path (mk_uri d se as_ ue ps npos npos npos)
  = (Ok tt, mk_uri d se as_ ue ps AE QS FS).
Proof.
  pose proof search_start_inside as Hsp.
  pose proof fits as Hfit.
  unfold parse_path. unfold noexcept at 1, bind at 1, gets at 1.
  unfold_fields. change (npos =? npos) with true. cbn [negb].
  cbv iota beta.
  unfold bind at 1.
  rewrite parse_scheme_memo
    by (unfold_fields; rewrite npos_value, max_size_value in *; lia).
  unfold bind at 1.
  rewrite parse_query_fresh by (try reflexivity; exact fits).
  run.
  set (sp := if negb (as_ =? size d) then as_
            else if negb (se =? size d) && negb (se =? npos) then se else 0).
  assert (Esp : sp = SP) by reflexivity.
  clearbody sp. rewrite <- Esp in Hsp.
  assert (Hsub : 0 <= SizeT.sub QS sp) by apply sub_range.
  revert Hsub. rewrite <- Esp. generalize (SizeT.sub QS sp). intros len Hlen.
  clear Esp.
  unfold sv_substr.
  destruct (Z.ltb_spec (size d) sp) as [Hlt | _]; [lia |].
  rewrite sv_find_start.
  destruct (find_if _ _) as [i|] eqn:E; cbn [index_or_npos].
  - apply find_if_bound in E. rewrite length_first_n, length_skip in E.
    destruct (Z.eqb_spec (0 + Z.of_nat i) npos) as [E' | _];
      [unfold size in *; rewrite npos_value, max_size_value in *; lia |].
    rewrite add_exact
      by (unfold size in *; rewrite modulus_value, max_size_value in *; lia).
    unfold set_authority_end, set_query_start, set_fragment_start.
    unfold_fields. do 2 f_equal. lia.
  - change (npos =? npos) with true. reflexivity.
Qed.

Lemma known_inside (v : Z) : 0 <= v <= size d -> v <> npos.
Proof.
  pose proof fits. rewrite npos_value, max_size_value in *. lia.
Qed.

(** The state after [parse_user_info], and after [parse_port]: without an
    authority the path has not been looked for yet. *)
Local Abbreviation after_authority ue ps :=
  (if as_ =? size d
   then mk_uri d se as_ ue ps npos npos npos
   else mk_uri d se as_ ue ps AE QS FS).

Lemma run_parse_user_info_fresh :
  exists ue,
    parse_user_info (uri_of d) = (Ok tt, after_authority ue npos)
    /\ 0 <= ue <= size d
    /\ (ue = size d \/ String.get (Z.to_nat ue) d = Some "@"%char).
Proof.
  pose proof fits as Hfit. pose proof path_end_inside as Hae.
  pose proof search_start_inside as Hsp.
  pose proof (size_nonneg d) as Hn.
  unfold parse_user_info. unfold noexcept at 1, bind at 1, gets at 1.
  change (user_info_end (uri_of d) =? npos) with true. cbn [negb].
  cbv iota beta.
  unfold bind at 1. rewrite scheme_parsed.
  unfold bind at 1, gets at 1, id. unfold_fields.
  unfold data_size. unfold_fields.
  destruct (Z.eqb_spec as_ (size d)) as [E | NE].
  - exists (size d). split; [reflexivity |]. split; [lia | now left].
  - unfold bind at 1. rewrite (run_parse_path_fresh npos npos).
    set (ae := AE) in *. clearbody ae.
    run. generalize (SizeT.sub ae as_). intros len.
    unfold sv_substr.
    destruct (Z.ltb_spec (size d) as_) as [Hlt | _]; [lia |].
    rewrite sv_find_start.
    destruct (find_if _ _) as [i|] eqn:E; cbn [index_or_npos].
    + pose proof (find_if_bound _ _ _ E) as Hi.
      rewrite length_first_n, length_skip in Hi.
      apply found_in_range in E.
      destruct (Z.eqb_spec (0 + Z.of_nat i) npos) as [E' | _];
        [unfold size in *; rewrite npos_value, max_size_value in *; lia |].
      rewrite add_exact
        by (unfold size in *; rewrite modulus_value, max_size_value in *;
            lia).
      exists (0 + Z.of_nat i + as_). split; [reflexivity |].
      split; [unfold size in *; lia |]. right.
      replace (Z.to_nat (0 + Z.of_nat i + as_))
        with (Z.to_nat as_ + i)%nat by lia.
      exact E.
    + change (npos =? npos) with true.
      exists (size d). split; [reflexivity |]. split; [lia | now left].
Qed.

Lemma run_parse_port_fresh (ue : Z) :
  0 <= ue <= size d ->
  exists ps,
    parse_port (after_authority ue npos) = (Ok tt, after_authority ue ps)
    /\ 0 <= ps <= size d
    /\ (ps = size d \/ String.get (Z.to_nat ps) d = Some ":"%char).
Proof.
  intros Hue.
  pose proof fits as Hfit. pose proof path_end_inside as Hae.
  pose proof search_start_inside as Hsp.
  pose proof (size_nonneg d) as Hn.
  pose proof (known_inside ue Hue) as Hknown.
  assert (Hinfo : parse_user_info (after_authority ue npos)
                  = (Ok tt, after_authority ue npos)).
  { apply parse_user_info_memo. now destruct (as_ =? size d). }
  assert (Hps : port_start (after_authority ue npos) = npos)
    by (now destruct (as_ =? size d)).
  unfold parse_port. unfold noexcept at 1, bind at 1, gets at 1.
  rewrite Hps. change (npos =? npos) with true. cbn [negb]. cbv iota beta.
  unfold bind at 1. rewrite Hinfo. clear Hinfo Hps.
  destruct (Z.eqb_spec as_ (size d)) as [E | NE].
  - run. rewrite E, Z.eqb_refl.
    exists (size d). split; [reflexivity |]. split; [lia | now left].
  - unfold bind at 1, gets at 1, id. unfold_fields.
    unfold data_size. unfold_fields.
    destruct (Z.eqb_spec as_ (size d)) as [E | _]; [contradiction |].
    unfold bind at 1.
    rewrite parse_path_memo by (unfold_fields; apply known_inside; lia).
    set (ae := AE) in *. clearbody ae.
    run.
    set (stp := if negb (ue =? size d) then ue else as_).
    assert (Hstp : 0 <= stp <= size d)
      by (unfold stp; destruct (negb (ue =? size d)); lia).
    clearbody stp.
    generalize (SizeT.sub ae stp). intros len.
    unfold sv_substr at 1.
    destruct (Z.ltb_spec (size d) stp) as [Hlt | _]; [lia |].
    unfold sv_find_last_of.
    destruct (find_last_if _ _) as [i|] eqn:E; cbn [index_or_npos].
    + pose proof (find_last_if_bound _ _ _ E) as Hi.
      rewrite length_first_n, length_skip in Hi.
      apply found_last_in_range in E.
      destruct (Z.eqb_spec (0 + Z.of_nat i) npos) as [E' | _];
        [unfold size in *; rewrite npos_value, max_size_value in *; lia |].
      rewrite !(add_exact (0 + Z.of_nat i) stp)
        by (unfold size in *; rewrite modulus_value, max_size_value in *;
            lia).
      rewrite add_exact
        by (unfold size in *; rewrite modulus_value, max_size_value in *;
            lia).
      unfold sv_substr.
      destruct (Z.ltb_spec (size d) (0 + Z.of_nat i + stp + 1))
        as [Hlt | _]; [unfold size in *; lia |].
      destruct (negb (is_digit _)).
      * exists (size d). split; [reflexivity |]. split; [lia | now left].
      * exists (0 + Z.of_nat i + stp). split; [reflexivity |].
        split; [unfold size in *; lia |]. right.
        replace (Z.to_nat (0 + Z.of_nat i + stp))
          with (Z.to_nat stp + i)%nat by lia.
        exact E.
    + change (npos =? npos) with true.
      exists (size d). split; [reflexivity |]. split; [lia | now left].
Qed.

(** All seven offsets of a freshly built URI. *)
Lemma run_parse_host_fresh :
  exists ue ps,
    parse_host (uri_of d) = (Ok tt, mk_uri d se as_ ue ps AE QS FS)
    /\ 0 <= ue <= size d /\ 0 <= ps <= size d
    /\ (ue = size d \/ String.get (Z.to_nat ue) d = Some "@"%char)
    /\ (ps = size d \/ String.get (Z.to_nat ps) d = Some ":"%char).
Proof.
  pose proof path_end_inside as Hae.
  pose proof search_start_inside as Hsp.
  destruct run_parse_user_info_fresh as (ue & Hinfo & Hue & Hat).
  destruct (run_parse_port_fresh ue Hue) as (ps & Hport & Hps & Hcolon).
  exists ue, ps. split; [| now repeat split].
  unfold parse_host, noexcept, bind. rewrite Hinfo, Hport.
  destruct (Z.eqb_spec as_ (size d)) as [E | NE].
  - now rewrite (run_parse_path_fresh ue ps).
  - rewrite parse_path_memo by (unfold_fields; apply known_inside; lia).
    reflexivity.
Qed.

(** The buffer is its leading part followed by the rest. *)
Lemma leading_part_split :
  d = leading_part d +:+ skip (String.length (leading_part d)) d.
Proof.
  pose proof (first_n_skip d (String.length (leading_part d))) as H.
  unfold leading_part in *. now rewrite path_is_prefix in H.
Qed.

Lemma marks_after_leading_part :
  size (leading_part d) <= FS <= size d
  /\ (QS = size (leading_part d) \/ QS = size d)
  /\ size (leading_part d) <= QS.
Proof.
  pose proof (before_first_size "#" d).
  pose proof (before_first_size "?" (before_first "#" d)).
  unfold leading_part, query_offset.
  destruct (after_first "?" _); repeat split; try lia; auto.
Qed.

(** A query starts right after the leading part, when that is where the
    first ['?'] or ['#'] is a ['?']. *)
Lemma query_after_leading_part :
  starts_with (skip (String.length (leading_part d)) d) "?" = true ->
  QS = size (leading_part d).
Proof.
  unfold query_offset, leading_part.
  pose proof (split_first "?" (before_first "#" d)) as Hq.
  pose proof (split_first "#" d) as Hf.
  destruct (after_first "?" (before_first "#" d)); [reflexivity |].
  rewrite <- Hq. intros H. exfalso. revert H.
  set (body := before_first "#" d) in *.
  destruct (after_first "#" d) as [f|].
  - assert (Hrest : skip (String.length body) d = String "#" f).
    { rewrite Hf at 1.
      now rewrite <- (Nat.add_0_r (String.length body)), skip_append. }
    rewrite Hrest. discriminate.
  - assert (Hlen : String.length d = String.length body)
      by (now rewrite Hf at 1).
    rewrite skip_all by lia. discriminate.
Qed.

(** On a delimited buffer the path starts in the leading part, or there
    is no path and nothing after the leading part is taken for a part of
    the authority. *)
Lemma delimited_path :
  delimited d = true ->
  SP <= size (leading_part d)
  /\ (AE < size (leading_part d)
      \/ (AE = size d
          /\ (as_ = size d
              \/ none_in (chars "@:")
                   (skip (String.length (leading_part d)) d) = true))).
Proof.
  pose proof search_start_inside as Hsp.
  pose proof marks_after_leading_part as (Hfs & _ & Hqs).
  pose proof query_fragment_inside as (Hqs' & _).
  pose proof leading_part_split as Hd.
  pose proof query_after_leading_part as Hquery.
  pose proof (size_nonneg (leading_part d)) as Hhead.
  unfold delimited. rewrite scheme_parsed. cbn [snd]. cbv zeta.
  unfold_fields.
  intros H. apply andb_prop in H as [Hstart Hcase].
  apply Z.leb_le in Hstart. split; [exact Hstart |].
  rewrite sub_exact
    by (pose proof fits; rewrite modulus_value, max_size_value in *; lia).
  set (qs := QS) in *. clearbody qs.
  set (sp := SP) in *. clearbody sp.
  set (head := leading_part d) in *.
  set (rest := skip (String.length head) d) in *.
  replace (skip (Z.to_nat sp) d) with (skip (Z.to_nat sp) (head +:+ rest))
    by (now rewrite <- Hd).
  rewrite find_if_leading by (unfold size in *; lia).
  destruct (find_if (Ascii.eqb "/") (skip (Z.to_nat sp) head)) as [i|] eqn:E.
  - left. apply find_if_bound in E. rewrite length_skip in E.
    unfold size in *. lia.
  - right. rewrite (occurs_found _ _ E) in Hcase. cbn [orb] in Hcase.
    apply andb_prop in Hcase as [Hslash Hauthority].
    split.
    + apply orb_prop in Hslash as [Hmark | Hnone].
      * rewrite (Hquery Hmark).
        replace (Z.to_nat (Z.min (size head - sp) (size d - sp))
                 - (String.length head - Z.to_nat sp))%nat
          with O by (unfold size in *; lia).
        now rewrite first_n_zero.
      * apply negb_true_iff, occurs_find_if in Hnone.
        now rewrite (find_if_first_n _ _ _ Hnone).
    + apply orb_prop in Hauthority as [Hnone | Hclean];
        [left; now apply Z.eqb_eq | right; exact Hclean].
Qed.

(** What the parsing functions store for a freshly built URI. *)
Lemma fresh_offsets :
  exists ue ps ae,
    parse_host (uri_of d) = (Ok tt, mk_uri d se as_ ue ps ae QS FS)
    /\ (ue = size d \/ String.get (Z.to_nat ue) d = Some "@"%char)
    /\ (ps = size d \/ String.get (Z.to_nat ps) d = Some ":"%char)
    /\ SP <= ae
    /\ (delimited d = true ->
        SP <= size (leading_part d)
        /\ (ae < size (leading_part d)
            \/ (ae = size d
                /\ (as_ = size d
                    \/ none_in (chars "@:")
                         (skip (String.length (leading_part d)) d)
                       = true)))).
Proof.
  destruct run_parse_host_fresh as (ue & ps & Hrun & _ & _ & Hat & Hcolon).
  exists ue, ps, AE. split; [exact Hrun |]. split; [exact Hat |].
  split; [exact Hcolon |]. split; [apply path_end_inside |].
  exact delimited_path.
Qed.

End FreshBuffer.

(** ** The chain over the components that are present *)

Lemma present_head (n : Z) (l : list Z) (y : Z) (rest : list Z) :
  present n l = y :: rest -> In y l /\ y <> n.
Proof.
  intros H.
  assert (Hin : In y (present n l)) by (rewrite H; now left).
  apply List.filter_In in Hin as [Hin Hy]. split; [exact Hin |].
  apply negb_true_iff, Z.eqb_neq in Hy. exact Hy.
Qed.

Lemma non_decreasing_present (n : Z) (l : list Z) :
  ForallOrdPairs (fun x y => x <> n -> y <> n -> x <= y) l ->
  non_decreasing (present n l).
Proof.
  induction 1 as [|a l Ha _ IH]; [exact I |].
  unfold present in *. cbn [List.filter].
  destruct (Z.eqb_spec a n) as [E | NE]; cbn [negb]; [exact IH |].
  split; [| exact IH].
  destruct (List.filter _ l) as [|y rest] eqn:E; [exact I |].
  apply (present_head n l y rest) in E as [Hin Hy].
  rewrite List.Forall_forall in Ha. exact (Ha y Hin NE Hy).
Qed.


Lemma non_decreasing_present_app (n m : Z) (l1 l2 : list Z) :
  ForallOrdPairs (fun x y => x <> n -> y <> n -> x <= y) l1 ->
  ForallOrdPairs (fun x y => x <> n -> y <> n -> x <= y) l2 ->
  Forall (fun x => x <> n -> x <= m) l1 ->
  Forall (fun y => m <= y) l2 ->
  non_decreasing (present n (l1 ++ l2)).
Proof.
  intros H1 H2 Hlow Hhigh. apply non_decreasing_present.
  induction H1 as [|a l1 Ha _ IH]; [exact H2 |].
  apply List.Forall_cons_iff in Hlow as [Hlow_a Hlow].
  cbn [app]. apply FOP_cons; [| exact (IH Hlow)].
  apply List.Forall_app. split; [exact Ha |].
  rewrite List.Forall_forall in Hhigh |- *.
  intros y Hy NE _. specialize (Hhigh y Hy). specialize (Hlow_a NE). lia.
Qed.

Lemma search_start_cases (d : string) (se as_ : Z) :
  let start := path_search_start (mk_uri d se as_ npos npos npos npos npos) in
  (as_ <> size d -> start = as_)
  /\ (as_ = size d -> se <> size d -> se <> npos -> start = se).
Proof.
  cbv zeta. unfold path_search_start, data_size. unfold_fields.
  destruct (Z.eqb_spec as_ (size d)); destruct (Z.eqb_spec se (size d));
    destruct (Z.eqb_spec se npos); cbn [negb andb]; split; intros;
    congruence.
Qed.

(** An offset that points at a character which does not occur after the
    leading part lies in the leading part. *)
Lemma found_in_leading_part (c : ascii) (d : string) (v : Z) :
  contains (chars "@:") c = true ->
  none_in (chars "@:") (skip (String.length (leading_part d)) d) = true ->
  0 <= v ->
  String.get (Z.to_nat v) d = Some c ->
  v < size (leading_part d).
Proof.
  intros Hc Hnone Hv Hget.
  destruct (Z.lt_ge_cases v (size (leading_part d))) as [Hlt | Hge];
    [exact Hlt |].
  exfalso.
  apply (get_beyond c d (String.length (leading_part d)) (Z.to_nat v)).
  - exact (none_in_occurs _ _ _ Hnone Hc).
  - unfold size in Hge. lia.
  - exact Hget.
Qed.

Ltac ordered_pairs :=
  repeat first
    [ apply FOP_nil | apply FOP_cons
    | apply List.Forall_nil | apply List.Forall_cons ];
  cbv beta.


